(** * Grid movement: element measures, rigid translation, free-form
      deformation boxes and surface parameterisations

    A shallow embedding of the routines of
    [Common/src/grid_movement_structure.cpp] and of the in-line accessors of
    [Common/include/dual_grid_structure.inl] that the properties below are
    about.

    Conventions of the embedding.
    - A C++ [double] is an exact rational ([Q]); rounding is not modelled, and
      equality of computed values is [Qeq] ([==]).  Where a routine calls
      [cos], [sin] or [sqrt] on a value that matters (the rotation design
      variable, the rigid rotation, pitching and plunging of the mesh) the
      routine is embedded over the real numbers instead.  The properties are
      thus properties in exact arithmetic; the values the element measures
      return on the reference elements are in addition computed in IEEE
      binary64 (module [Binary64]).
    - A division by zero gives an infinity or a NaN in C++ and 0 over [Q] and
      the real numbers; the embedding is faithful only where no divisor is
      zero (the reference length and angular velocity, the Jacobian
      determinants and wall distances of the stiffness matrices).
    - [unsigned short], [unsigned long] and [short] values are [nat] or [Z];
      where the source can wrap (the Pascal row of [Binomial], the restart
      counter of the point inversion) the wrap-around is written out.
    - A C array is a [list]; a read outside the list yields the default of
      [nth], which stands for the unspecified value the C++ program would
      read there.
    - A routine that mutates objects reached through pointers takes the
      objects as arguments and returns the new ones. *)

From Stdlib Require Import ZArith QArith Qabs Qminmax Qpower Lia Psatz List.
From Stdlib Require Import Reals Ascii RNsatz.
From Stdlib Require Floats.
From stdpp Require Import base list.
Import ListNotations.

Local Open Scope Q_scope.

(** * Points and corner arrays *)

(** [Coord[iDim]] for a [double *]. *)
Definition coord (p : list Q) (iDim : nat) : Q := nth iDim p 0.

(** [CoordCorners[iNode]] for a [double CoordCorners[8][3]]. *)
Definition corner (CoordCorners : list (list Q)) (iNode : nat) : list Q :=
  nth iNode CoordCorners [].

(** The loop [for (iDim = 0; iDim < nDim; iDim++) r[iDim] = p[iDim] - q[iDim]]. *)
Definition diff (nDim : nat) (p q : list Q) : list Q :=
  map (fun iDim => coord p iDim - coord q iDim) (seq 0 nDim).

(** * Facts about indexed maps over lists *)

Lemma nth_map_seq {A} (f : nat -> A) (n k : nat) (d : A) :
  (k < n)%nat -> nth k (map f (seq 0 n)) d = f k.
Proof.
  intros Hk. rewrite nth_lookup, list_lookup_fmap, lookup_seq_lt by exact Hk.
  reflexivity.
Qed.

Lemma nth_imap {A} (f : nat -> A -> A) (l : list A) (d : A) (k : nat) :
  (k < length l)%nat -> nth k (imap f l) d = f k (nth k l d).
Proof.
  intros Hk. rewrite !nth_lookup, list_lookup_imap.
  destruct (lookup_lt_is_Some_2 l k Hk) as [x ->]. reflexivity.
Qed.

Lemma nth_imap_ge {A} (f : nat -> A -> A) (l : list A) (d : A) (k : nat) :
  (length l <= k)%nat -> nth k (imap f l) d = nth k l d.
Proof.
  intros Hk. rewrite !nth_lookup, list_lookup_imap.
  now rewrite (lookup_ge_None_2 l k Hk).
Qed.




(* ================================================================== *)
(** * [CVolumetricMovement]                                            *)
(* ================================================================== *)

Module VolumetricMovement.

(** ** Element measures *)

(** The expression [0.5*fabs(a[0]*b[1]-a[1]*b[0])] after the loop that fills
    [a = Coord_0 - Coord_2] and [b = Coord_1 - Coord_2]. *)
Definition HalfCross (nDim : nat) (Coord_0 Coord_1 Coord_2 : list Q) : Q :=
  let a := diff nDim Coord_0 Coord_2 in
  let b := diff nDim Coord_1 Coord_2 in
  (1#2) * Qabs (coord a 0 * coord b 1 - coord a 1 * coord b 0).

Definition GetTriangle_Area (nDim : nat) (CoordCorners : list (list Q)) : Q :=
  HalfCross nDim (corner CoordCorners 0) (corner CoordCorners 1)
                 (corner CoordCorners 2).

Definition GetRectangle_Area (nDim : nat) (CoordCorners : list (list Q)) : Q :=
  let Area := HalfCross nDim (corner CoordCorners 0) (corner CoordCorners 1)
                             (corner CoordCorners 2) in
  Area + HalfCross nDim (corner CoordCorners 0) (corner CoordCorners 2)
                        (corner CoordCorners 3).

(** The block every volume routine repeats: three edge vectors from
    [Coord_0], the three [CrossProduct] entries and their sum over [6.0]. *)
Definition TripleProduct6 (nDim : nat) (Coord_0 Coord_1 Coord_2 Coord_3 : list Q) : Q :=
  let r1 := diff nDim Coord_1 Coord_0 in
  let r2 := diff nDim Coord_2 Coord_0 in
  let r3 := diff nDim Coord_3 Coord_0 in
  let CrossProduct_0 := (coord r1 1 * coord r2 2 - coord r1 2 * coord r2 1) * coord r3 0 in
  let CrossProduct_1 := (coord r1 2 * coord r2 0 - coord r1 0 * coord r2 2) * coord r3 1 in
  let CrossProduct_2 := (coord r1 0 * coord r2 1 - coord r1 1 * coord r2 0) * coord r3 2 in
  (CrossProduct_0 + CrossProduct_1 + CrossProduct_2) / 6.

(** [SubTetra nDim C i j k l] is the block applied to corners [i j k l]. *)
Definition SubTetra (nDim : nat) (C : list (list Q)) (i j k l : nat) : Q :=
  TripleProduct6 nDim (corner C i) (corner C j) (corner C k) (corner C l).

Definition GetTetra_Volume (nDim : nat) (CoordCorners : list (list Q)) : Q :=
  SubTetra nDim CoordCorners 0 1 2 3.

Definition GetPyram_Volume (nDim : nat) (CoordCorners : list (list Q)) : Q :=
  let Volume := SubTetra nDim CoordCorners 0 1 2 4 in
  Volume + SubTetra nDim CoordCorners 0 2 3 4.

Definition GetWedge_Volume (nDim : nat) (CoordCorners : list (list Q)) : Q :=
  let Volume := SubTetra nDim CoordCorners 0 2 1 5 in
  let Volume := Volume + SubTetra nDim CoordCorners 0 5 1 4 in
  Volume + SubTetra nDim CoordCorners 0 5 4 3.

Definition GetHexa_Volume (nDim : nat) (CoordCorners : list (list Q)) : Q :=
  let Volume := SubTetra nDim CoordCorners 0 1 2 5 in
  let Volume := Volume + SubTetra nDim CoordCorners 0 2 7 5 in
  let Volume := Volume + SubTetra nDim CoordCorners 0 2 3 7 in
  let Volume := Volume + SubTetra nDim CoordCorners 0 5 7 4 in
  Volume + SubTetra nDim CoordCorners 2 7 5 6.

(** ** The mesh seen by [Check_Grid] *)

(** Element topologies ([GetVTK_Type]); [OTHER_VTK] stands for every code
    [Check_Grid] does not test for (vertex, line). *)
Inductive VTK_Type : Set :=
  | TRIANGLE | RECTANGLE | TETRAHEDRON | PYRAMID | WEDGE | HEXAHEDRON | OTHER_VTK.

Record CPrimalGrid : Set := {
  GetVTK_Type : VTK_Type;
  Nodes : list nat
}.

Definition GetNode (e : CPrimalGrid) (iNodes : nat) : nat := nth iNodes (Nodes e) 0%nat.

Record CGeometry : Type := {
  GetnDim : nat;
  node : list (list Q);
  elem : list CPrimalGrid
}.

(** [geometry->node[iPoint]->GetCoord(iDim)]. *)
Definition GetCoord (geometry : CGeometry) (iPoint iDim : nat) : Q :=
  coord (nth iPoint (node geometry) []) iDim.

(** What [Check_Grid] writes to the console. *)
Inductive Console : Set :=
  | NegativeVolumeElements (ElemCounter : nat).

(** The locals of [Check_Grid] that live across loop iterations. *)
Record CheckState : Type := {
  cs_ElemCounter : nat;
  cs_Area : Q; cs_Volume : Q;
  cs_MaxArea : Q; cs_MaxVolume : Q;
  cs_MinArea : Q; cs_MinVolume : Q;
  cs_nNodes : nat;
  cs_RightVol : bool
}.

Definition BIG : Q := 10000000000000000000000 # 1.   (* 1E22 *)

Definition CheckState_init : CheckState :=
  {| cs_ElemCounter := 0; cs_Area := 0; cs_Volume := 0;
     cs_MaxArea := - BIG; cs_MaxVolume := - BIG; cs_MinArea := BIG; cs_MinVolume := BIG;
     cs_nNodes := 0; cs_RightVol := true |}.

Section CheckGrid.

(** [EPS] is a constant of the option header, which is not part of the
    sources at hand; it is a parameter of the embedding. *)
Variable EPS : Q.

(** [if (m >= -EPS) RightVol = true; else RightVol = false;] *)
Definition right_measure (m : Q) : bool := Qle_bool (- EPS) m.

(** The loads of [PointCorners] and [CoordCorners] for one element. Entries
    of the C array at or beyond [nNodes] keep what an earlier element left
    there; no measure routine selected for [nNodes] corners reads them. *)
Definition LoadCorners (geometry : CGeometry) (e : CPrimalGrid) (nNodes : nat) : list (list Q) :=
  map (fun iNodes =>
         map (fun iDim => GetCoord geometry (GetNode e iNodes) iDim)
             (seq 0 (GetnDim geometry)))
      (seq 0 nNodes).

(** One iteration of the loop over the elements. *)
Definition Check_Elem (geometry : CGeometry) (s : CheckState) (e : CPrimalGrid) : CheckState :=
  let nDim := GetnDim geometry in
  let nNodes := match GetVTK_Type e with
                | TRIANGLE => 3 | RECTANGLE => 4 | TETRAHEDRON => 4
                | PYRAMID => 5 | WEDGE => 6 | HEXAHEDRON => 8
                | OTHER_VTK => cs_nNodes s
                end%nat in
  let CoordCorners := LoadCorners geometry e nNodes in
  let s :=
    if (nDim =? 2)%nat then
      let Area :=
        if (nNodes =? 3)%nat then GetTriangle_Area nDim CoordCorners
        else if (nNodes =? 4)%nat then GetRectangle_Area nDim CoordCorners
        else cs_Area s in
      {| cs_ElemCounter := cs_ElemCounter s; cs_Area := Area; cs_Volume := cs_Volume s;
         cs_MaxArea := Qmax (cs_MaxArea s) Area; cs_MaxVolume := cs_MaxVolume s;
         cs_MinArea := Qmin (cs_MinArea s) Area; cs_MinVolume := cs_MinVolume s;
         cs_nNodes := nNodes; cs_RightVol := right_measure Area |}
    else
      {| cs_ElemCounter := cs_ElemCounter s; cs_Area := cs_Area s; cs_Volume := cs_Volume s;
         cs_MaxArea := cs_MaxArea s; cs_MaxVolume := cs_MaxVolume s;
         cs_MinArea := cs_MinArea s; cs_MinVolume := cs_MinVolume s;
         cs_nNodes := nNodes; cs_RightVol := cs_RightVol s |} in
  let s :=
    if (nDim =? 3)%nat then
      let Volume :=
        if (nNodes =? 4)%nat then GetTetra_Volume nDim CoordCorners
        else if (nNodes =? 5)%nat then GetPyram_Volume nDim CoordCorners
        else if (nNodes =? 6)%nat then GetWedge_Volume nDim CoordCorners
        else if (nNodes =? 8)%nat then GetHexa_Volume nDim CoordCorners
        else cs_Volume s in
      {| cs_ElemCounter := cs_ElemCounter s; cs_Area := cs_Area s; cs_Volume := Volume;
         cs_MaxArea := cs_MaxArea s; cs_MaxVolume := Qmax (cs_MaxVolume s) Volume;
         cs_MinArea := cs_MinArea s; cs_MinVolume := Qmin (cs_MinVolume s) Volume;
         cs_nNodes := nNodes; cs_RightVol := right_measure Volume |}
    else s in
  if cs_RightVol s then s
  else {| cs_ElemCounter := S (cs_ElemCounter s); cs_Area := cs_Area s; cs_Volume := cs_Volume s;
          cs_MaxArea := cs_MaxArea s; cs_MaxVolume := cs_MaxVolume s;
          cs_MinArea := cs_MinArea s; cs_MinVolume := cs_MinVolume s;
          cs_nNodes := cs_nNodes s; cs_RightVol := cs_RightVol s |}.

(** The loop [for (iElem = 0; iElem < geometry->GetnElem(); iElem++)]. *)
Definition Check_Loop (geometry : CGeometry) : CheckState :=
  fold_left (Check_Elem geometry) (elem geometry) CheckState_init.

(** [Check_Grid] of a build without MPI (the rank is the master node):
    the console output, the count the message reports, and the value
    returned. *)
Definition Check_Grid (geometry : CGeometry) : list Console * nat * Q :=
  let s := Check_Loop geometry in
  let out := if (cs_ElemCounter s =? 0)%nat then []
             else [NegativeVolumeElements (cs_ElemCounter s)] in
  (out, cs_ElemCounter s,
   if (GetnDim geometry =? 2)%nat then cs_MinArea s else cs_MinVolume s).

End CheckGrid.

(** ** Reference elements *)

Definition unit_cube : list (list Q) :=
  [ [0;0;0]; [1;0;0]; [1;1;0]; [0;1;0];
    [0;0;1]; [1;0;1]; [1;1;1]; [0;1;1] ].

Definition unit_tetra : list (list Q) :=
  [ [0;0;0]; [1;0;0]; [0;1;0]; [0;0;1] ].

Definition unit_square : list (list Q) :=
  [ [0;0]; [1;0]; [1;1]; [0;1] ].

(** ** Notions used to state the properties of [Check_Grid] *)

(** The element with the node ids at corners [i] and [j] exchanged. *)
Definition SwapCorners (i j : nat) (e : CPrimalGrid) : CPrimalGrid :=
  {| GetVTK_Type := GetVTK_Type e;
     Nodes := <[i := GetNode e j]> (<[j := GetNode e i]> (Nodes e)) |}.

(** The topologies of a three-dimensional volume mesh. *)
Definition is_volume_type (t : VTK_Type) : bool :=
  match t with
  | TETRAHEDRON | PYRAMID | WEDGE | HEXAHEDRON => true
  | _ => false
  end.

(** The measure [Check_Grid] assigns to an element of a 3D mesh. *)
Definition Elem_Volume (geometry : CGeometry) (e : CPrimalGrid) : Q :=
  match GetVTK_Type e with
  | TETRAHEDRON => GetTetra_Volume 3 (LoadCorners geometry e 4)
  | PYRAMID => GetPyram_Volume 3 (LoadCorners geometry e 5)
  | WEDGE => GetWedge_Volume 3 (LoadCorners geometry e 6)
  | HEXAHEDRON => GetHexa_Volume 3 (LoadCorners geometry e 8)
  | _ => 0
  end.

(** The number of elements of [l] whose measure fails the test of
    [Check_Grid]. *)
Definition count_inverted (EPS : Q) (geometry : CGeometry) (l : list CPrimalGrid) : nat :=
  length (List.filter (fun e => negb (right_measure EPS (Elem_Volume geometry e))) l).

(** "Reports exactly one element with negative volume and returns a
    negative minimum measure." *)
Definition reports_one_inverted (r : list Console * nat * Q) : Prop :=
  r.1.1 = [NegativeVolumeElements 1] /\ r.1.2 = 1%nat /\ r.2 < 0.

(** "Reports zero invalid elements." *)
Definition reports_none_inverted (r : list Console * nat * Q) : Prop :=
  r.1.1 = [] /\ r.1.2 = 0%nat.

(** A value of [EPS] for the concrete runs below (the parameter is free in
    every general statement). *)
Definition EPS_sample : Q := 1 # 10000000000000000.

(** A 2D mesh of one counter-clockwise triangle. *)
Definition triangle_mesh : CGeometry :=
  {| GetnDim := 2;
     node := [ [0;0]; [1;0]; [0;1] ];
     elem := [ {| GetVTK_Type := TRIANGLE; Nodes := [0;1;2]%nat |} ] |}.

(** The same mesh with corners 0 and 1 of its element exchanged. *)
Definition triangle_mesh_swapped : CGeometry :=
  {| GetnDim := 2;
     node := node triangle_mesh;
     elem := map (SwapCorners 0 1) (elem triangle_mesh) |}.

(** A 3D mesh of one unit hexahedron, and the same mesh with corners 3 and
    6 of its element exchanged. *)
Definition hexa_mesh : CGeometry :=
  {| GetnDim := 3;
     node := unit_cube;
     elem := [ {| GetVTK_Type := HEXAHEDRON; Nodes := [0;1;2;3;4;5;6;7]%nat |} ] |}.

Definition hexa_mesh_swapped : CGeometry :=
  {| GetnDim := 3;
     node := node hexa_mesh;
     elem := map (SwapCorners 3 6) (elem hexa_mesh) |}.

(** A 3D mesh of one unit tetrahedron. *)
Definition tetra_mesh_nodes : list (list Q) := unit_tetra.
Definition tetra_elem : CPrimalGrid :=
  {| GetVTK_Type := TETRAHEDRON; Nodes := [0;1;2;3]%nat |}.

(** ** Properties of the element measures and of [Check_Grid] *)

(** ** [Check_Grid] *)

Section CheckGridFacts.

Variable EPS : Q.
Hypothesis EPS_nonneg : 0 <= EPS.

Lemma right_measure_pos m : 0 < m -> right_measure EPS m = true.
Proof. intros Hm. apply Qle_bool_iff. lra. Qed.

Lemma right_measure_neg m : m < - EPS -> right_measure EPS m = false.
Proof.
  intros Hm. destruct (right_measure EPS m) eqn:E; [|reflexivity].
  apply Qle_bool_iff in E. lra.
Qed.

(** On a 3D mesh one loop iteration over a volume element adds one to the
    counter exactly when the element's measure fails the test, and folds
    the measure into the running minimum. *)
Lemma Check_Elem_3D geometry s e :
  GetnDim geometry = 3%nat -> is_volume_type (GetVTK_Type e) = true ->
  cs_ElemCounter (Check_Elem EPS geometry s e) =
    (cs_ElemCounter s +
     (if right_measure EPS (Elem_Volume geometry e) then 0 else 1))%nat /\
  cs_MinVolume (Check_Elem EPS geometry s e) =
    Qmin (cs_MinVolume s) (Elem_Volume geometry e).
Proof.
  intros HD Ht. unfold Check_Elem, Elem_Volume. rewrite HD.
  destruct (GetVTK_Type e); try discriminate Ht; cbn [Nat.eqb];
    match goal with
    | |- context [right_measure EPS ?v] => destruct (right_measure EPS v)
    end; cbn; split; try reflexivity; lia.
Qed.

Lemma Check_fold_3D geometry l : forall s,
  GetnDim geometry = 3%nat ->
  Forall (fun e => is_volume_type (GetVTK_Type e) = true) l ->
  let s' := fold_left (Check_Elem EPS geometry) l s in
  cs_ElemCounter s' = (cs_ElemCounter s + count_inverted EPS geometry l)%nat /\
  cs_MinVolume s' <= cs_MinVolume s /\
  Forall (fun e => cs_MinVolume s' <= Elem_Volume geometry e) l.
Proof.
  induction l as [|e l IH]; intros s HD Hl; cbn.
  - split; [lia|]. split; [apply Qle_refl | constructor].
  - inversion Hl as [|? ? He Hl']; subst.
    destruct (Check_Elem_3D geometry s e HD He) as [Hc Hm].
    destruct (IH (Check_Elem EPS geometry s e) HD Hl') as (IHc & IHm & IHall).
    cbn in IHc, IHm, IHall. rewrite Hm in IHm.
    split; [|split].
    + rewrite IHc, Hc. unfold count_inverted. cbn.
      destruct (right_measure EPS (Elem_Volume geometry e)); cbn; lia.
    + eapply Qle_trans; [exact IHm | apply Q.le_min_l].
    + constructor; [|exact IHall].
      eapply Qle_trans; [exact IHm | apply Q.le_min_r].
Qed.

Lemma count_inverted_app geometry l1 l2 :
  count_inverted EPS geometry (l1 ++ l2) =
  (count_inverted EPS geometry l1 + count_inverted EPS geometry l2)%nat.
Proof. unfold count_inverted. now rewrite List.filter_app, length_app. Qed.

Lemma count_inverted_positive geometry l :
  Forall (fun e => 0 < Elem_Volume geometry e) l -> count_inverted EPS geometry l = 0%nat.
Proof.
  unfold count_inverted. induction 1 as [|e l He _ IH]; [reflexivity|].
  cbn. rewrite (right_measure_pos _ He). exact IH.
Qed.

End CheckGridFacts.

(** Exchanging two corners of a tetrahedron negates the triple product. *)
Lemma tetra_swap_negates geometry e i j :
  GetVTK_Type e = TETRAHEDRON -> length (Nodes e) = 4%nat ->
  (i < 4)%nat -> (j < 4)%nat -> i <> j ->
  Elem_Volume geometry (SwapCorners i j e) == - Elem_Volume geometry e.
Proof.
  destruct e as [t ns]; cbn [GetVTK_Type Nodes]; intros -> Hlen Hi Hj Hij.
  destruct ns as [|a [|b [|c [|d [|]]]]]; try discriminate Hlen.
  unfold Elem_Volume, SwapCorners, GetTetra_Volume, SubTetra, TripleProduct6,
    LoadCorners, GetNode, diff, corner, coord.
  cbn [GetVTK_Type Nodes].
  destruct i as [|[|[|[|]]]]; destruct j as [|[|[|[|]]]]; try lia;
    cbn [nth map seq list_insert insert]; field.
Qed.

(** C1 (as stated it fails). The 2D measures are magnitudes: the triangle
    with two corner ids exchanged still has area 1/2 and [Check_Grid]
    reports nothing for it. In 3D the unit hexahedron with corners 3 and 6
    exchanged keeps a positive sum of sub-tetrahedra (1/3) and is not
    reported either. *)
Lemma check_grid_misses_inversions :
  (reports_none_inverted (Check_Grid EPS_sample triangle_mesh) /\
   GetTriangle_Area 2 (node triangle_mesh_swapped) == 1 # 2 /\
   ~ reports_one_inverted (Check_Grid EPS_sample triangle_mesh_swapped)) /\
  (reports_none_inverted (Check_Grid EPS_sample hexa_mesh) /\
   Forall (fun e => Elem_Volume hexa_mesh_swapped e == 1 # 3) (elem hexa_mesh_swapped) /\
   ~ reports_one_inverted (Check_Grid EPS_sample hexa_mesh_swapped)).
Proof.
  split; (split; [split; reflexivity | split]).
  - reflexivity.
  - intros (_ & H & _). vm_compute in H. discriminate H.
  - repeat constructor.
  - intros (_ & H & _). vm_compute in H. discriminate H.
Qed.

(** C1 (amended). In a 3D mesh of volume elements that all have positive
    measure, exchanging two corner ids of one tetrahedron whose volume
    exceeds [EPS] makes [Check_Grid] report exactly one element with
    negative volume and return a negative minimum; with the exchange undone
    it reports none. *)
Theorem check_grid_inverted_tetrahedron
  (EPS : Q) (geometry : CGeometry) (before after : list CPrimalGrid)
  (e : CPrimalGrid) (i j : nat) :
  0 <= EPS ->
  GetnDim geometry = 3%nat ->
  elem geometry = before ++ e :: after ->
  Forall (fun x => is_volume_type (GetVTK_Type x) = true /\
                   0 < Elem_Volume geometry x) (before ++ after) ->
  GetVTK_Type e = TETRAHEDRON -> length (Nodes e) = 4%nat ->
  (i < 4)%nat -> (j < 4)%nat -> i <> j ->
  EPS < Elem_Volume geometry e ->
  reports_one_inverted
    (Check_Grid EPS {| GetnDim := GetnDim geometry; node := node geometry;
                       elem := before ++ SwapCorners i j e :: after |}) /\
  reports_none_inverted (Check_Grid EPS geometry).
Proof.
  intros HEPS HD Helem Hall Ht Hlen Hi Hj Hij Hvol.
  apply Forall_app in Hall as [Hb Ha].
  assert (Hty : forall l, Forall (fun x => is_volume_type (GetVTK_Type x) = true /\
                                           0 < Elem_Volume geometry x) l ->
                          Forall (fun x => is_volume_type (GetVTK_Type x) = true) l)
    by (intros l Hl; eapply Forall_impl; [exact Hl|]; now intros ? [? _]).
  assert (Hpos : forall l, Forall (fun x => is_volume_type (GetVTK_Type x) = true /\
                                            0 < Elem_Volume geometry x) l ->
                           Forall (fun x => 0 < Elem_Volume geometry x) l)
    by (intros l Hl; eapply Forall_impl; [exact Hl|]; now intros ? [_ ?]).
  pose proof (tetra_swap_negates geometry e i j Ht Hlen Hi Hj Hij) as Hswap.
  split.
  - set (g' := {| GetnDim := GetnDim geometry; node := node geometry;
                  elem := before ++ SwapCorners i j e :: after |}).
    assert (HD' : GetnDim g' = 3%nat) by exact HD.
    assert (Hl' : Forall (fun x => is_volume_type (GetVTK_Type x) = true)
                         (before ++ SwapCorners i j e :: after)).
    { apply Forall_app; split; [now apply Hty|].
      constructor; [cbn; now rewrite Ht | now apply Hty]. }
    destruct (Check_fold_3D EPS g' _ CheckState_init HD' Hl') as (Hc & _ & Hmin).
    cbn zeta in Hc, Hmin.
    assert (Hcount : cs_ElemCounter (Check_Loop EPS g') = 1%nat).
    { unfold Check_Loop. cbn [elem g']. rewrite Hc.
      rewrite count_inverted_app.
      change (SwapCorners i j e :: after) with ([SwapCorners i j e] ++ after).
      rewrite count_inverted_app.
      rewrite (count_inverted_positive EPS HEPS g' before (Hpos _ Hb)).
      rewrite (count_inverted_positive EPS HEPS g' after (Hpos _ Ha)).
      unfold count_inverted. cbn [List.filter].
      change (Elem_Volume g' (SwapCorners i j e))
        with (Elem_Volume geometry (SwapCorners i j e)).
      rewrite right_measure_neg; [reflexivity|]. rewrite Hswap. lra. }
    unfold reports_one_inverted, Check_Grid. cbn [fst snd].
    rewrite Hcount, HD'. cbn [Nat.eqb]. repeat split.
    apply Forall_app in Hmin as [_ Hmin].
    inversion Hmin as [|? ? Hm _]; subst.
    change (Elem_Volume g' (SwapCorners i j e))
      with (Elem_Volume geometry (SwapCorners i j e)) in Hm.
    unfold Check_Loop. cbn [elem g']. rewrite Hswap in Hm. lra.
  - assert (Hl : Forall (fun x => is_volume_type (GetVTK_Type x) = true)
                        (elem geometry)).
    { rewrite Helem. apply Forall_app; split; [now apply Hty|].
      constructor; [now rewrite Ht | now apply Hty]. }
    destruct (Check_fold_3D EPS geometry _ CheckState_init HD Hl) as (Hc & _ & _).
    cbn zeta in Hc.
    assert (Hcount : cs_ElemCounter (Check_Loop EPS geometry) = 0%nat).
    { unfold Check_Loop. rewrite Hc, Helem.
      apply (count_inverted_positive EPS HEPS geometry).
      apply Forall_app; split; [now apply Hpos|].
      constructor; [lra | now apply Hpos]. }
    unfold reports_none_inverted, Check_Grid. cbn [fst snd].
    now rewrite Hcount.
Qed.

(** The amended C1 on the mesh of one unit tetrahedron. *)
Lemma check_grid_inverted_tetrahedron_witness :
  reports_one_inverted
    (Check_Grid EPS_sample
       {| GetnDim := 3; node := unit_tetra; elem := [] ++ SwapCorners 1 3 tetra_elem :: [] |}) /\
  reports_none_inverted
    (Check_Grid EPS_sample {| GetnDim := 3; node := unit_tetra; elem := [tetra_elem] |}).
Proof.
  apply (check_grid_inverted_tetrahedron EPS_sample
           {| GetnDim := 3; node := unit_tetra; elem := [tetra_elem] |}
           [] [] tetra_elem 1 3);
    try reflexivity; try lia; try discriminate.
  constructor.
Defined.

End VolumetricMovement.

(* ================================================================== *)
(** * The element measures in binary64                                  *)
(* ================================================================== *)

Module Binary64.

Import Floats.

(** The three measure routines of the reference elements with the
    arithmetic of the C++ [double]: every [+], [-], [*], [/] and [fabs] of
    the source is one IEEE 754 binary64 operation, rounded to nearest
    (ties to even), in the order the source writes them. *)

Local Open Scope float_scope.

Definition coord (p : list float) (iDim : nat) : float := nth iDim p 0.

Definition corner (CoordCorners : list (list float)) (iNode : nat) : list float :=
  nth iNode CoordCorners [].

(** The loop [for (iDim = 0; iDim < nDim; iDim++) r[iDim] = p[iDim] - q[iDim]]. *)
Definition diff (nDim : nat) (p q : list float) : list float :=
  map (fun iDim => coord p iDim - coord q iDim) (seq 0 nDim).

(** [0.5*fabs(a[0]*b[1]-a[1]*b[0])]. *)
Definition HalfCross (nDim : nat) (Coord_0 Coord_1 Coord_2 : list float) : float :=
  let a := diff nDim Coord_0 Coord_2 in
  let b := diff nDim Coord_1 Coord_2 in
  0.5 * abs (coord a 0 * coord b 1 - coord a 1 * coord b 0).

Definition GetRectangle_Area (nDim : nat) (CoordCorners : list (list float)) : float :=
  let Area := HalfCross nDim (corner CoordCorners 0) (corner CoordCorners 1)
                             (corner CoordCorners 2) in
  Area + HalfCross nDim (corner CoordCorners 0) (corner CoordCorners 2)
                        (corner CoordCorners 3).

Definition TripleProduct6 (nDim : nat) (Coord_0 Coord_1 Coord_2 Coord_3 : list float) :
    float :=
  let r1 := diff nDim Coord_1 Coord_0 in
  let r2 := diff nDim Coord_2 Coord_0 in
  let r3 := diff nDim Coord_3 Coord_0 in
  let CrossProduct_0 := (coord r1 1 * coord r2 2 - coord r1 2 * coord r2 1) * coord r3 0 in
  let CrossProduct_1 := (coord r1 2 * coord r2 0 - coord r1 0 * coord r2 2) * coord r3 1 in
  let CrossProduct_2 := (coord r1 0 * coord r2 1 - coord r1 1 * coord r2 0) * coord r3 2 in
  (CrossProduct_0 + CrossProduct_1 + CrossProduct_2) / 6.

Definition SubTetra (nDim : nat) (C : list (list float)) (i j k l : nat) : float :=
  TripleProduct6 nDim (corner C i) (corner C j) (corner C k) (corner C l).

Definition GetTetra_Volume (nDim : nat) (CoordCorners : list (list float)) : float :=
  SubTetra nDim CoordCorners 0 1 2 3.

Definition GetHexa_Volume (nDim : nat) (CoordCorners : list (list float)) : float :=
  let Volume := SubTetra nDim CoordCorners 0 1 2 5 in
  let Volume := Volume + SubTetra nDim CoordCorners 0 2 7 5 in
  let Volume := Volume + SubTetra nDim CoordCorners 0 2 3 7 in
  let Volume := Volume + SubTetra nDim CoordCorners 0 5 7 4 in
  Volume + SubTetra nDim CoordCorners 2 7 5 6.

(** ** Notions used to state the properties *)

(** The rational a finite binary64 value stands for. *)
Definition value (x : float) : option Q :=
  match Prim2SF x with
  | S754_zero _ => Some 0%Q
  | S754_finite s m e =>
      Some ((if s then -1 else 1) * inject_Z (Z.pos m) * 2 ^ e)%Q
  | S754_infinity _ | S754_nan => None
  end.

(** The reference elements with binary64 coordinates. *)
Definition unit_cube : list (list float) :=
  [ [0;0;0]; [1;0;0]; [1;1;0]; [0;1;0];
    [0;0;1]; [1;0;1]; [1;1;1]; [0;1;1] ].

Definition unit_tetra : list (list float) :=
  [ [0;0;0]; [1;0;0]; [0;1;0]; [0;0;1] ].

Definition unit_square : list (list float) :=
  [ [0;0]; [1;0]; [1;1]; [0;1] ].

(** [x] is finite and stands for the rational [q]. *)
Definition value_is (x : float) (q : Q) : Prop :=
  match value x with
  | Some v => (v == q)%Q
  | None => False
  end.

(** ** Properties *)

(** C7 (as stated it fails). In binary64 [GetHexa_Volume] on the unit cube
    does not return 1.0: the value compares unequal to 1.0 and is below
    it. *)
Lemma hexa_unit_cube_is_below_one :
  (GetHexa_Volume 3 unit_cube =? 1) = false /\
  (GetHexa_Volume 3 unit_cube <? 1) = true.
Proof. split; vm_compute; reflexivity. Qed.

(** C7 (amended). On the reference elements, whose coordinates 0 and 1
    are exact in binary64: in exact arithmetic the three routines return
    1, 1/6 and 1; in binary64 [GetRectangle_Area] returns exactly 1.0 on
    the unit square, [GetTetra_Volume] returns the value of [1.0/6.0] on
    the right tetrahedron with unit legs, which is within half a unit in
    the last place (2^-56) of 1/6, and [GetHexa_Volume] returns
    1 - 2^-53 on the unit cube, the binary64 number next below 1.0: its
    five sub-volumes are the rounded values of 1/6, 2/6, 1/6, 1/6 and
    1/6. *)
Theorem reference_element_measures :
  (Forall2 (Forall2 value_is) unit_cube VolumetricMovement.unit_cube /\
   Forall2 (Forall2 value_is) unit_tetra VolumetricMovement.unit_tetra /\
   Forall2 (Forall2 value_is) unit_square VolumetricMovement.unit_square) /\
  ((VolumetricMovement.GetHexa_Volume 3 VolumetricMovement.unit_cube == 1)%Q /\
   (VolumetricMovement.GetTetra_Volume 3 VolumetricMovement.unit_tetra == 1 # 6)%Q /\
   (VolumetricMovement.GetRectangle_Area 2 VolumetricMovement.unit_square == 1)%Q) /\
  GetRectangle_Area 2 unit_square = 1 /\
  (GetTetra_Volume 3 unit_tetra = 1 / 6 /\
   exists v, value (GetTetra_Volume 3 unit_tetra) = Some v /\
             (Qabs (v - (1 # 6)) <= 1 # 2 ^ 56)%Q) /\
  (value_is (GetHexa_Volume 3 unit_cube) (1 - (1 # 2 ^ 53)) /\
   map (fun t => SubTetra 3 unit_cube t.1.1.1 t.1.1.2 t.1.2 t.2)
       [(0, 1, 2, 5); (0, 2, 7, 5); (0, 2, 3, 7); (0, 5, 7, 4); (2, 7, 5, 6)]%nat
   = [1 / 6; 2 / 6; 1 / 6; 1 / 6; 1 / 6]).
Proof.
  split; [|split; [|split; [|split]]].
  - repeat split; repeat constructor.
  - repeat split; reflexivity.
  - vm_compute. reflexivity.
  - split; [vm_compute; reflexivity|].
    eexists. split; [vm_compute; reflexivity|]. vm_compute. discriminate.
  - split; vm_compute; reflexivity.
Qed.

End Binary64.


(* ================================================================== *)
(** * [CVolumetricMovement::Rigid_Translation]                         *)
(* ================================================================== *)

Module RigidMotion.

(** The members of a mesh point the rigid motions read and write. *)
Record CPoint : Type := {
  GetCoord : list Q;
  GetGridVel : list Q
}.

Record CGeometry : Type := {
  GetnDim : nat;
  node : list CPoint          (* [GetnPoint()] is its length *)
}.

Inductive UnsteadyKind : Set :=
  | NO_UNSTEADY | TIME_STEPPING | DT_STEPPING_1ST | DT_STEPPING_2ND
  | ROTATIONAL_FRAME | TIME_SPECTRAL.

(** The options [Rigid_Translation] reads and the origins it writes back;
    the per-zone and per-marker options are lists indexed by zone or by
    monitored marker. *)
Record CConfig : Type := {
  GetUnsteady_Simulation : UnsteadyKind;
  GetAdjoint : bool;
  GetDelta_UnstTimeND : Q;
  GetLength_Ref : Q;
  GetTimeSpectral_Period : Q;
  GetnTimeInstances : nat;
  GetnExtIter : Z;
  Motion_Origin_X : list Q;
  Motion_Origin_Y : list Q;
  Motion_Origin_Z : list Q;
  Translation_Rate_X : list Q;
  Translation_Rate_Y : list Q;
  Translation_Rate_Z : list Q;
  GetnMarker_Monitoring : nat;
  RefOriginMoment_X : list Q;
  RefOriginMoment_Y : list Q;
  RefOriginMoment_Z : list Q
}.

Inductive Console : Type :=
  | NewPhysicalTime (time_new : Q)
  | TranslationalVelocity (xDot_0 xDot_1 xDot_2 : Q).

Definition ZONE_0 : nat := 0.

Definition is_time_spectral (k : UnsteadyKind) : bool :=
  match k with TIME_SPECTRAL => true | _ => false end.

(** [static_cast<double>(n)] for an [unsigned long] (64 bits).  The
    conversion is exact below 2^53; a larger value, which the adjoint
    branch of [StepTimes] reaches when [directIter] wraps around, is
    rounded by the C++ conversion, and that is not modelled. *)
Definition to_double (n : Z) : Q := inject_Z n.

(** The old and new physical times of the call. *)
Definition StepTimes (config : CConfig) (iter : nat) : Q * Q :=
  let time_spectral := is_time_spectral (GetUnsteady_Simulation config) in
  let adjoint := GetAdjoint config in
  let deltaT := GetDelta_UnstTimeND config in
  let deltaT :=
    if time_spectral
    then GetTimeSpectral_Period config / to_double (Z.of_nat (GetnTimeInstances config))
    else deltaT in
  if adjoint then
    let nFlowIter := GetnExtIter config in
    (* unsigned long arithmetic *)
    let directIter := ((nFlowIter - Z.of_nat iter - 1) mod 2 ^ 64)%Z in
    let time_new := to_double directIter * deltaT in
    let time_old := time_new in
    let time_old := if (iter =? 0)%nat then time_old
                    else (to_double directIter + 1) * deltaT in
    (time_old, time_new)
  else
    let time_new := to_double (Z.of_nat iter) * deltaT in
    if time_spectral then (0, time_new)
    else
      let time_old := time_new in
      let time_old := if (iter =? 0)%nat then time_old
                      else (to_double (Z.of_nat iter) - 1) * deltaT in
      (time_old, time_new).



(** ** Notions used to state the properties *)










(** ** Properties *)













End RigidMotion.

(* ================================================================== *)
(** * [CPoint]: the per-marker boundary-vertex index                   *)
(* ================================================================== *)

Module DualGrid.

(** The members of [CPoint] that [SetVertex] and [GetVertex] touch:
    the flag [Boundary] and the array [long *vertex], indexed by marker. *)
Record CPoint : Set := {
  Boundary : bool;
  vertex : list Z
}.

(** [if (Boundary) vertex[val_nmarker] = val_vertex;] *)
Definition SetVertex (val_vertex : Z) (val_nmarker : nat) (p : CPoint) : CPoint :=
  if Boundary p
  then {| Boundary := Boundary p; vertex := <[val_nmarker := val_vertex]> (vertex p) |}
  else p.

(** [if (Boundary) return vertex[val_marker]; else return -1;] *)
Definition GetVertex (val_marker : nat) (p : CPoint) : Z :=
  if Boundary p then nth val_marker (vertex p) 0%Z else (-1)%Z.

(** [CPoint::SetBoundary]. *)
Definition SetBoundary (val_boundary : bool) (p : CPoint) : CPoint :=
  {| Boundary := val_boundary; vertex := vertex p |}.

(** ** Properties *)

(** On a boundary point the index written for a marker inside the array is
    the one read back, and other markers keep theirs. *)
Lemma GetVertex_SetVertex_boundary p v m m' :
  Boundary p = true -> (m < length (vertex p))%nat ->
  GetVertex m' (SetVertex v m p) = if decide (m = m') then v else GetVertex m' p.
Proof.
  intros HB Hm. unfold GetVertex, SetVertex. rewrite HB. cbn [Boundary vertex].
  rewrite !nth_lookup. case_decide as E.
  - subst m'. now rewrite list_lookup_insert_eq.
  - now rewrite list_lookup_insert_ne.
Qed.

(** C10. For a point whose boundary flag is false, and every marker index,
    [GetVertex] returns -1 whatever the index array holds and [SetVertex]
    changes nothing: the array is neither read nor written. *)
Theorem non_boundary_vertex_guard (p : CPoint) (marker : nat) (val_vertex : Z) :
  Boundary p = false ->
  GetVertex marker p = (-1)%Z /\
  (forall storage, GetVertex marker {| Boundary := false; vertex := storage |} = (-1)%Z) /\
  SetVertex val_vertex marker p = p /\
  vertex (SetVertex val_vertex marker p) = vertex p.
Proof.
  intros HB. unfold GetVertex, SetVertex. rewrite HB. repeat split.
Qed.

Lemma non_boundary_vertex_guard_witness :
  GetVertex 2 {| Boundary := false; vertex := [5; 7; 9]%Z |} = (-1)%Z /\
  SetVertex 4 2 {| Boundary := false; vertex := [5; 7; 9]%Z |}
    = {| Boundary := false; vertex := [5; 7; 9]%Z |}.
Proof.
  pose proof (non_boundary_vertex_guard
                {| Boundary := false; vertex := [5; 7; 9]%Z |} 2 4%Z eq_refl)
    as (H1 & _ & H2 & _).
  split; [exact H1 | exact H2].
Defined.

End DualGrid.

(* ================================================================== *)
(** * [CSurfaceMovement]                                               *)
(* ================================================================== *)

Module SurfaceMovement.

(** ** Boundary vertices and the configuration

    The records are parametric in the type [T] of a [double]: the rationals
    for the routines that only add and multiply, the reals for the rotation,
    which needs [cos], [sin] and [sqrt]. *)

Section Boundary.

Variable T : Type.
Variable zero : T.

(** The members of [CVertex] the design-variable routines use. *)
Record CVertex : Type := {
  GetNode : nat;
  GetCoord : list T;
  GetNormal : list T;
  GetVarCoord : list T
}.

(** [boundary]: a [CGeometry] seen through [GetnDim], [nVertex] and
    [vertex]; [nVertex[iMarker]] is the length of [vertex[iMarker]]. *)
Record CGeometry : Type := {
  GetnDim : nat;
  vertex : list (list CVertex)
}.

(** The options of [CConfig] the design-variable routines read. An entry of
    [Marker_All_DV] is [true] when [GetMarker_All_DV(iMarker) == YES]. *)
Record CConfig : Type := {
  GetnMarker_All : nat;
  Marker_All_DV : list bool;
  GetnDV : nat;
  DV_Value : list T;
  ParamDV : list (list T)
}.

Definition GetMarker_All_DV (config : CConfig) (iMarker : nat) : bool :=
  nth iMarker (Marker_All_DV config) false.

Definition GetDV_Value (config : CConfig) (iDV : nat) : T :=
  nth iDV (DV_Value config) zero.

Definition GetParamDV (config : CConfig) (iDV iParam : nat) : T :=
  nth iParam (nth iDV (ParamDV config) []) zero.

(** [CVertex::SetVarCoord]:
    [for (iDim = 0; iDim < nDim; iDim++) VarCoord[iDim] = val_varcoord[iDim];]
    where [nDim] is the dimension shared by all dual-grid objects. *)
Definition SetVarCoord (nDim : nat) (val_varcoord : list T) (v : CVertex) : CVertex :=
  {| GetNode := GetNode v; GetCoord := GetCoord v; GetNormal := GetNormal v;
     GetVarCoord :=
       imap (fun iDim old => if (iDim <? nDim)%nat then nth iDim val_varcoord zero else old)
            (GetVarCoord v) |}.

(** [CVertex::AddVarCoord]:
    [for (iDim = 0; iDim < nDim; iDim++) VarCoord[iDim] += val_varcoord[iDim];] *)
Definition AddVarCoord (add : T -> T -> T) (nDim : nat) (val_varcoord : list T)
    (v : CVertex) : CVertex :=
  {| GetNode := GetNode v; GetCoord := GetCoord v; GetNormal := GetNormal v;
     GetVarCoord :=
       imap (fun iDim old => if (iDim <? nDim)%nat
                             then add old (nth iDim val_varcoord zero) else old)
            (GetVarCoord v) |}.

(** The loop nest
    [for (iMarker = 0; iMarker < config->GetnMarker_All(); iMarker++)
       for (iVertex = 0; iVertex < boundary->nVertex[iMarker]; iVertex++)]
    with a body that updates [boundary->vertex[iMarker][iVertex]]. *)
Definition ForEachVertex (config : CConfig) (body : nat -> nat -> CVertex -> CVertex)
    (boundary : CGeometry) : CGeometry :=
  {| GetnDim := GetnDim boundary;
     vertex :=
       imap (fun iMarker vs =>
               if (iMarker <? GetnMarker_All config)%nat then imap (body iMarker) vs else vs)
            (vertex boundary) |}.

(** [boundary->vertex[iMarker][iVertex]], when it exists. *)
Definition VertexAt (boundary : CGeometry) (iMarker iVertex : nat) : option CVertex :=
  vertex boundary !! iMarker ≫= fun vs => vs !! iVertex.

End Boundary.

Arguments GetNode {T} _.
Arguments GetCoord {T} _.
Arguments GetNormal {T} _.
Arguments GetVarCoord {T} _.
Arguments GetnDim {T} _.
Arguments vertex {T} _.
Arguments GetnMarker_All {T} _.
Arguments Marker_All_DV {T} _.
Arguments GetnDV {T} _.
Arguments DV_Value {T} _.
Arguments ParamDV {T} _.
Arguments GetMarker_All_DV {T} _ _.
Arguments GetDV_Value {T} _ _ _.
Arguments GetParamDV {T} _ _ _ _.
Arguments SetVarCoord {T} _ _ _ _.
Arguments AddVarCoord {T} _ _ _ _ _.
Arguments ForEachVertex {T} _ _ _.
Arguments VertexAt {T} _ _ _.

(** The reset every deformation routine starts with:
    [VarCoord = (0,0,0); SetVarCoord(VarCoord)] on every vertex. *)
Definition ResetVarCoord {T} (zero : T) (config : CConfig T) (boundary : CGeometry T) :
    CGeometry T :=
  ForEachVertex config
    (fun _ _ => SetVarCoord zero (GetnDim boundary) [zero; zero; zero]) boundary.

(** ** [SetDisplacement] *)

Definition SetDisplacement (boundary : CGeometry Q) (config : CConfig Q)
    (iDV : nat) (ResetDef : bool) : CGeometry Q :=
  let nDim := GetnDim boundary in
  let Ampl := GetDV_Value 0 config iDV in
  let boundary :=
    if (iDV =? 0)%nat || ResetDef then ResetVarCoord 0 config boundary else boundary in
  let xDispl := GetParamDV 0 config iDV 0 in
  let yDispl := GetParamDV 0 config iDV 1 in
  let zDispl := if (nDim =? 3)%nat then GetParamDV 0 config iDV 2 else 0 in
  ForEachVertex config
    (fun iMarker _ v =>
       let VarCoord :=
         if GetMarker_All_DV config iMarker
         then [Ampl * xDispl; Ampl * yDispl; if (nDim =? 3)%nat then Ampl * zDispl else 0]
         else [0; 0; 0] in
       AddVarCoord 0 Qplus nDim VarCoord v)
    boundary.

(** What one call of [SetDisplacement] adds to a vertex of marker
    [iMarker]: the local array [VarCoord] at the call of [AddVarCoord]. *)
Definition DisplacementOf (nDim : nat) (config : CConfig Q) (iDV iMarker : nat) : list Q :=
  if GetMarker_All_DV config iMarker
  then [GetDV_Value 0 config iDV * GetParamDV 0 config iDV 0;
        GetDV_Value 0 config iDV * GetParamDV 0 config iDV 1;
        if (nDim =? 3)%nat then GetDV_Value 0 config iDV * GetParamDV 0 config iDV 2 else 0]
  else [0; 0; 0].

(** The stored delta of a vertex agrees with [d] on the [nDim] components
    the dual grid uses. *)
Definition delta_is (nDim : nat) (v : CVertex Q) (d : list Q) : Prop :=
  forall iDim, (iDim < nDim)%nat -> nth iDim (GetVarCoord v) 0 == nth iDim d 0.

(** A boundary of one design-variable marker with one vertex, and a
    configuration of two displacement design variables, (1,0,0) and
    (0,1,0), each of amplitude one. *)
Definition one_vertex : CVertex Q :=
  {| GetNode := 0; GetCoord := [0; 0; 0]; GetNormal := [0; 1; 0];
     GetVarCoord := [7; 7; 7] |}.

Definition one_vertex_boundary : CGeometry Q :=
  {| GetnDim := 3; vertex := [[one_vertex]] |}.

Definition two_displacements : CConfig Q :=
  {| GetnMarker_All := 1; Marker_All_DV := [true]; GetnDV := 2;
     DV_Value := [1; 1];
     ParamDV := [[1; 0; 0]; [0; 1; 0]] |}.

(** ** [SetRotation]

    Embedded over the reals: [PI_NUMBER] is [PI], and [cos], [sin], [sqrt]
    are those of the real numbers. *)

Definition SetRotation (boundary : CGeometry R) (config : CConfig R)
    (iDV : nat) (ResetDef : bool) : CGeometry R :=
  (let nDim := GetnDim boundary in
   let boundary :=
     if (iDV =? 0)%nat || ResetDef then ResetVarCoord 0 config boundary else boundary in
   (* xyz-coordinates of a point on the line of rotation *)
   let a := GetParamDV 0 config iDV 0 in
   let b := GetParamDV 0 config iDV 1 in
   let c := if (nDim =? 3)%nat then GetParamDV 0 config 0 2 else 0 in
   (* xyz-coordinate of the line's direction vector *)
   let u := GetParamDV 0 config iDV 3 - GetParamDV 0 config iDV 0 in
   let v := GetParamDV 0 config iDV 4 - GetParamDV 0 config iDV 1 in
   let w := if (nDim =? 3)%nat
            then GetParamDV 0 config iDV 5 - GetParamDV 0 config iDV 2 else 1 in
   (* the angle of rotation *)
   let theta := GetDV_Value 0 config iDV * PI / 180 in
   let u2 := u * u in let v2 := v * v in let w2 := w * w in
   let cosT := cos theta in let sinT := sin theta in
   let l2 := u2 + v2 + w2 in let l := sqrt l2 in
   ForEachVertex config
     (fun iMarker _ vtx =>
        let VarCoord :=
          if GetMarker_All_DV config iMarker then
            let x := nth 0 (GetCoord vtx) 0 in
            let y := nth 1 (GetCoord vtx) 0 in
            let z := nth 2 (GetCoord vtx) 0 in
            let movement_0 :=
              a*(v2 + w2) + u*(-b*v - c*w + u*x + v*y + w*z)
              + (-a*(v2 + w2) + u*(b*v + c*w - v*y - w*z) + (v2 + w2)*x)*cosT
              + l*(-c*v + b*w - w*y + v*z)*sinT in
            let movement_0 := movement_0/l2 - x in
            let movement_1 :=
              b*(u2 + w2) + v*(-a*u - c*w + u*x + v*y + w*z)
              + (-b*(u2 + w2) + v*(a*u + c*w - u*x - w*z) + (u2 + w2)*y)*cosT
              + l*(c*u - a*w + w*x - u*z)*sinT in
            let movement_1 := movement_1/l2 - y in
            let movement_2 :=
              c*(u2 + v2) + w*(-a*u - b*v + u*x + v*y + w*z)
              + (-c*(u2 + v2) + w*(a*u + b*v - u*x - v*y) + (u2 + v2)*z)*cosT
              + l*(-b*u + a*v - v*x + u*y)*sinT in
            let movement_2 := if (nDim =? 3)%nat then movement_2/l2 - z else 0 in
            [movement_0; movement_1; if (nDim =? 3)%nat then movement_2 else 0]
          else [0; 0; 0] in
        AddVarCoord 0 Rplus nDim VarCoord vtx)
     boundary)%R.

(** ** The generators that take a single design variable *)

(** The diagnostic the three generators print. *)
Inductive Console : Set :=
  | NotPreparedForMultipleDeformations.

(** The process as the generators see it: what was written to [cout] and
    what is left to read on [cin]. *)
Record Process : Set := {
  cout : list Console;
  cin : list ascii
}.

(** How a routine ends: it returns to its caller, or the process exits. *)
Inductive Outcome (A : Type) : Type :=
  | Returned (a : A) (io : Process)
  | Exited (status : Z) (io : Process).
Arguments Returned {A} _ _.
Arguments Exited {A} _ _.

(** [if (config->GetnDV() != 1) { cout << "This kind of design variable is
    not prepared for multiple deformations."; cin.get(); }]: the message is
    written, one character is taken from [cin] (none at end of input), and
    control falls through. *)
Definition CheckSingleDV {T} (config : CConfig T) (io : Process) : Process :=
  if negb (GetnDV config =? 1)%nat
  then {| cout := cout io ++ [NotPreparedForMultipleDeformations];
          cin := tail (cin io) |}
  else io.

Definition Qlt_bool (x y : Q) : bool := negb (Qle_bool y x).

Section Generators.

(** The square root of the C library, used by the NACA thickness law. *)
Variable sqrt : Q -> Q.

Definition SetNACA_4Digits (boundary : CGeometry Q) (config : CConfig Q) (io : Process) :
    Outcome (CGeometry Q) :=
  let io := CheckSingleDV config io in
  let Ya := GetParamDV 0 config 0 0 / 100 in
  let Xa := GetParamDV 0 config 0 1 / 10 in
  let t := GetParamDV 0 config 0 2 / 100 in
  Returned
    (ForEachVertex config
       (fun iMarker _ vtx =>
          let VarCoord := [0; 0; 0] in
          let VarCoord :=
            if GetMarker_All_DV config iMarker then
              let Coord := GetCoord vtx in
              let Normal := GetNormal vtx in
              let Ycurv :=
                if Qlt_bool (coord Coord 0) Xa
                then (2*Xa*coord Coord 0 - coord Coord 0 ^ 2) * (Ya / Xa ^ 2)
                else ((1 - 2*Xa) + 2*Xa*coord Coord 0 - coord Coord 0 ^ 2)
                     * (Ya / (1 - Xa) ^ 2) in
              let Yesp :=
                t * ((14845 # 10000) * sqrt (coord Coord 0)
                     - (6300 # 10000) * coord Coord 0
                     - (17580 # 10000) * coord Coord 0 ^ 2
                     + (14215 # 10000) * coord Coord 0 ^ 3
                     - (518 # 1000) * coord Coord 0 ^ 4) in
              let VarCoord :=
                if Qlt_bool 0 (coord Normal 1)
                then <[1%nat := (Ycurv + Yesp) - coord Coord 1]> VarCoord else VarCoord in
              if Qlt_bool (coord Normal 1) 0
              then <[1%nat := (Ycurv - Yesp) - coord Coord 1]> VarCoord else VarCoord
            else VarCoord in
          SetVarCoord 0 (GetnDim boundary) VarCoord vtx)
       boundary)
    io.

Definition SetParabolic (boundary : CGeometry Q) (config : CConfig Q) (io : Process) :
    Outcome (CGeometry Q) :=
  let io := CheckSingleDV config io in
  let c := GetParamDV 0 config 0 0 in
  let t := GetParamDV 0 config 0 1 / 100 in
  Returned
    (ForEachVertex config
       (fun iMarker _ vtx =>
          let VarCoord := [0; 0; 0] in
          let VarCoord :=
            if GetMarker_All_DV config iMarker then
              let Coord := GetCoord vtx in
              let Normal := GetNormal vtx in
              let VarCoord :=
                if Qlt_bool 0 (coord Normal 1)
                then <[1%nat := t*(coord Coord 0*coord Coord 0 - coord Coord 0)/(2*(c*c - c))
                                - coord Coord 1]> VarCoord
                else VarCoord in
              if Qlt_bool (coord Normal 1) 0
              then <[1%nat := t*(coord Coord 0 - coord Coord 0*coord Coord 0)/(2*(c*c - c))
                              - coord Coord 1]> VarCoord
              else VarCoord
            else VarCoord in
          SetVarCoord 0 (GetnDim boundary) VarCoord vtx)
       boundary)
    io.

Definition SetObstacle (boundary : CGeometry Q) (config : CConfig Q) (io : Process) :
    Outcome (CGeometry Q) :=
  let io := CheckSingleDV config io in
  let H := GetParamDV 0 config 0 0 in
  let L := GetParamDV 0 config 0 1 in
  let xOffSet := 0 in
  Returned
    (ForEachVertex config
       (fun iMarker _ vtx =>
          let VarCoord := [0; 0; 0] in
          let VarCoord :=
            if GetMarker_All_DV config iMarker then
              let Coord := GetCoord vtx in
              let xCoord := coord Coord 0 - xOffSet in
              if Qlt_bool 0 xCoord && Qlt_bool xCoord L
              then <[1%nat := (27/4)*(H/(L*L*L))*xCoord*(xCoord - L)*(xCoord - L)]> VarCoord
              else <[1%nat := 0]> VarCoord
            else VarCoord in
          SetVarCoord 0 (GetnDim boundary) VarCoord vtx)
       boundary)
    io.

End Generators.

(** "The routine reports the error to the console and terminates the
    process." *)
Definition reports_and_exits {A} (r : Outcome A) : Prop :=
  exists status io, r = Exited status io /\ In NotPreparedForMultipleDeformations (cout io).

(** The configuration with the count of design variables replaced. *)
Definition with_nDV {T} (n : nat) (config : CConfig T) : CConfig T :=
  {| GetnMarker_All := GetnMarker_All config; Marker_All_DV := Marker_All_DV config;
     GetnDV := n; DV_Value := DV_Value config; ParamDV := ParamDV config |}.

(** A process that has printed nothing and has ["y"] waiting on [cin]. *)
Definition fresh_process : Process := {| cout := []; cin := ["y"%char] |}.

(** A boundary with one vertex at x = 1 on a design-variable marker, and a
    configuration that lists two design variables for the obstacle
    generator (height 1, length 2). *)
Definition bump_boundary : CGeometry Q :=
  {| GetnDim := 2;
     vertex := [[ {| GetNode := 0; GetCoord := [1; 0]; GetNormal := [0; 1];
                     GetVarCoord := [0; 0] |} ]] |}.

Definition obstacle_two_dv : CConfig Q :=
  {| GetnMarker_All := 1; Marker_All_DV := [true]; GetnDV := 2;
     DV_Value := [1; 1];
     ParamDV := [[1; 2]; [5; 5]] |}.

(** Data for the rotation: a 3D boundary with one vertex at (x,y,z) on a
    design-variable marker; a configuration whose design variables 1 and 2
    describe vertical lines and differ only in their z-origin (parameter 2);
    and a family of configurations that differ only in the z-origin of
    design variable 0, with design variable 1 a half turn about a line
    along x. *)
Definition rot_boundary (x y z : R) : CGeometry R :=
  {| GetnDim := 3;
     vertex := [[ {| GetNode := 0; GetCoord := [x; y; z]; GetNormal := [0; 0; 1];
                     GetVarCoord := [0; 0; 0] |} ]] |}%R.





(** ** Properties *)

(** *** Vertex loops *)

Lemma VertexAt_ForEachVertex {T} (config : CConfig T) body (boundary : CGeometry T) iMarker iVertex :
  (iMarker < GetnMarker_All config)%nat ->
  VertexAt (ForEachVertex config body boundary) iMarker iVertex =
  body iMarker iVertex <$> VertexAt boundary iMarker iVertex.
Proof.
  intros Hm. unfold VertexAt, ForEachVertex. cbn [vertex].
  rewrite list_lookup_imap. destruct (vertex boundary !! iMarker) as [vs|]; [|reflexivity].
  cbn -[Nat.ltb]. apply Nat.ltb_lt in Hm. rewrite Hm. apply list_lookup_imap.
Qed.

(** *** [SetDisplacement] *)

(** The vertex a call of [SetDisplacement] leaves at a position of a marker
    the loops visit: reset first when asked to, then add the contribution. *)
Lemma VertexAt_SetDisplacement boundary config iDV ResetDef iMarker iVertex :
  (iMarker < GetnMarker_All config)%nat ->
  VertexAt (SetDisplacement boundary config iDV ResetDef) iMarker iVertex =
  (fun v =>
     AddVarCoord 0 Qplus (GetnDim boundary)
       (DisplacementOf (GetnDim boundary) config iDV iMarker)
       (if (iDV =? 0)%nat || ResetDef
        then SetVarCoord 0 (GetnDim boundary) [0; 0; 0] v else v))
  <$> VertexAt boundary iMarker iVertex.
Proof.
  intros Hm. unfold SetDisplacement, DisplacementOf.
  destruct ((iDV =? 0)%nat || ResetDef).
  - rewrite VertexAt_ForEachVertex by exact Hm. unfold ResetVarCoord.
    rewrite VertexAt_ForEachVertex by exact Hm.
    cbn [GetnDim ForEachVertex].
    destruct (VertexAt boundary iMarker iVertex);
      destruct (GetnDim boundary =? 3)%nat; reflexivity.
  - rewrite VertexAt_ForEachVertex by exact Hm.
    destruct (GetnDim boundary =? 3)%nat; reflexivity.
Qed.

Lemma GetnDim_SetDisplacement boundary config iDV ResetDef :
  GetnDim (SetDisplacement boundary config iDV ResetDef) = GetnDim boundary.
Proof. unfold SetDisplacement. now destruct ((iDV =? 0)%nat || ResetDef). Qed.

(** The components of the stored delta after one call. *)
Lemma VarCoord_after_call nDim (d : list Q) (reset : bool) (v : CVertex Q) (k : nat) :
  (nDim <= length (GetVarCoord v))%nat ->
  nth k (GetVarCoord (AddVarCoord 0 Qplus nDim d
                        (if reset then SetVarCoord 0 nDim [0; 0; 0] v else v))) 0 =
  if (k <? nDim)%nat
  then (if reset then nth k [0; 0; 0] 0 else nth k (GetVarCoord v) 0) + nth k d 0
  else nth k (GetVarCoord v) 0.
Proof.
  intros Hlen. destruct (Nat.ltb_spec k nDim) as [Hk|Hk].
  - destruct reset; cbn [AddVarCoord SetVarCoord GetVarCoord].
    + rewrite nth_imap by (rewrite length_imap; lia).
      rewrite nth_imap by lia.
      apply Nat.ltb_lt in Hk. now rewrite Hk.
    + rewrite nth_imap by lia. apply Nat.ltb_lt in Hk. now rewrite Hk.
  - destruct (Nat.lt_ge_cases k (length (GetVarCoord v))) as [Hin|Hout].
    + destruct reset; cbn [AddVarCoord SetVarCoord GetVarCoord].
      * rewrite nth_imap by (rewrite length_imap; lia).
        rewrite nth_imap by lia.
        apply Nat.ltb_ge in Hk. now rewrite Hk.
      * rewrite nth_imap by lia. apply Nat.ltb_ge in Hk. now rewrite Hk.
    + destruct reset; cbn [AddVarCoord SetVarCoord GetVarCoord].
      * rewrite nth_imap_ge by (rewrite length_imap; lia).
        now rewrite nth_imap_ge by lia.
      * now rewrite nth_imap_ge by lia.
Qed.

Lemma length_VarCoord_after_call nDim (d : list Q) (reset : bool) (v : CVertex Q) :
  length (GetVarCoord (AddVarCoord 0 Qplus nDim d
                         (if reset then SetVarCoord 0 nDim [0; 0; 0] v else v)))
  = length (GetVarCoord v).
Proof. destruct reset; cbn; now rewrite ?length_imap. Qed.

(** C6. On a vertex of a design-variable marker, [SetDisplacement] for
    design variable 0 with displacement (1,0,0) followed by
    [SetDisplacement] for design variable 1 with displacement (0,1,0)
    leaves the stored delta at (1,1,0) when the second call does not ask for
    a reset and at (0,1,0) when it does; and a call for design variable 0,
    or one that asks for a reset, leaves on every vertex the loops visit
    zero plus its own contribution, whatever was stored before. *)
Theorem displacement_accumulates
  (boundary : CGeometry Q) (config : CConfig Q) (ResetDef0 : bool)
  (iMarker iVertex : nat) (v : CVertex Q) :
  let nDim := GetnDim boundary in
  let Ampl := GetDV_Value 0 config in
  let Param := GetParamDV 0 config in
  VertexAt boundary iMarker iVertex = Some v ->
  (iMarker < GetnMarker_All config)%nat ->
  GetMarker_All_DV config iMarker = true ->
  (nDim <= length (GetVarCoord v))%nat ->
  Ampl 0%nat * Param 0%nat 0%nat == 1 -> Ampl 0%nat * Param 0%nat 1%nat == 0 ->
  (nDim = 3%nat -> Ampl 0%nat * Param 0%nat 2%nat == 0) ->
  Ampl 1%nat * Param 1%nat 0%nat == 0 -> Ampl 1%nat * Param 1%nat 1%nat == 1 ->
  (nDim = 3%nat -> Ampl 1%nat * Param 1%nat 2%nat == 0) ->
  let first := SetDisplacement boundary config 0 ResetDef0 in
  (exists v', VertexAt (SetDisplacement first config 1 false) iMarker iVertex = Some v' /\
              delta_is nDim v' [1; 1; 0]) /\
  (exists v', VertexAt (SetDisplacement first config 1 true) iMarker iVertex = Some v' /\
              delta_is nDim v' [0; 1; 0]) /\
  (forall iDV ResetDef jMarker jVertex u,
     iDV = 0%nat \/ ResetDef = true ->
     (jMarker < GetnMarker_All config)%nat ->
     VertexAt boundary jMarker jVertex = Some u ->
     (nDim <= length (GetVarCoord u))%nat ->
     exists u', VertexAt (SetDisplacement boundary config iDV ResetDef) jMarker jVertex = Some u' /\
                forall iDim, (iDim < nDim)%nat ->
                  nth iDim (GetVarCoord u') 0 =
                  0 + nth iDim (DisplacementOf nDim config iDV jMarker) 0).
Proof.
  intros nDim Ampl Param Hv Hm HDV Hlen Hx0 Hy0 Hz0 Hx1 Hy1 Hz1 first.
  assert (Hfirst : VertexAt first iMarker iVertex =
                   Some (AddVarCoord 0 Qplus nDim (DisplacementOf nDim config 0 iMarker)
                           (SetVarCoord 0 nDim [0; 0; 0] v))).
  { unfold first. rewrite VertexAt_SetDisplacement by exact Hm. now rewrite Hv. }
  set (v1 := AddVarCoord 0 Qplus nDim (DisplacementOf nDim config 0 iMarker)
               (SetVarCoord 0 nDim [0; 0; 0] v)) in *.
  assert (Hlen1 : (nDim <= length (GetVarCoord v1))%nat).
  { unfold v1. rewrite (length_VarCoord_after_call nDim _ true v). exact Hlen. }
  assert (H1 : forall k, (k < nDim)%nat ->
                 nth k (GetVarCoord v1) 0 == nth k [1; 0; 0] 0).
  { intros k Hk. unfold v1.
    rewrite (VarCoord_after_call nDim _ true v k Hlen).
    apply Nat.ltb_lt in Hk as Hk'. rewrite Hk'. unfold DisplacementOf. rewrite HDV.
    destruct k as [|[|[|k]]]; cbn [nth].
    - fold (Ampl 0%nat) (Param 0%nat 0%nat). rewrite Hx0. reflexivity.
    - fold (Ampl 0%nat) (Param 0%nat 1%nat). rewrite Hy0. reflexivity.
    - destruct (Nat.eqb_spec nDim 3) as [E|E].
      + fold (Ampl 0%nat) (Param 0%nat 2%nat). rewrite (Hz0 E). reflexivity.
      + reflexivity.
    - destruct k; reflexivity. }
  assert (HnD : GetnDim first = nDim) by apply GetnDim_SetDisplacement.
  assert (Hsecond : forall k, (k < nDim)%nat ->
                      nth k (DisplacementOf nDim config 1 iMarker) 0 == nth k [0; 1; 0] 0).
  { intros k Hk. unfold DisplacementOf. rewrite HDV.
    destruct k as [|[|[|k]]]; cbn [nth].
    - exact Hx1.
    - exact Hy1.
    - destruct (Nat.eqb_spec nDim 3) as [E|E]; [exact (Hz1 E) | reflexivity].
    - destruct k; reflexivity. }
  split; [|split].
  - eexists. split.
    + rewrite VertexAt_SetDisplacement by exact Hm. rewrite Hfirst, HnD. reflexivity.
    + intros k Hk. cbn [Nat.eqb orb].
      rewrite (VarCoord_after_call nDim _ false v1 k Hlen1).
      apply Nat.ltb_lt in Hk as Hk'. rewrite Hk'.
      rewrite (H1 k Hk), (Hsecond k Hk).
      destruct k as [|[|[|k]]]; cbn [nth]; try reflexivity. destruct k; reflexivity.
  - eexists. split.
    + rewrite VertexAt_SetDisplacement by exact Hm. rewrite Hfirst, HnD. reflexivity.
    + intros k Hk. cbn [Nat.eqb orb].
      rewrite (VarCoord_after_call nDim _ true v1 k Hlen1).
      apply Nat.ltb_lt in Hk as Hk'. rewrite Hk'.
      rewrite (Hsecond k Hk).
      destruct k as [|[|[|k]]]; cbn [nth]; try reflexivity. destruct k; reflexivity.
  - intros iDV ResetDef jMarker jVertex u Hreset Hj Hu Hlenu.
    assert (Hr : (iDV =? 0)%nat || ResetDef = true).
    { destruct Hreset as [-> | ->]; [reflexivity | apply orb_true_r]. }
    eexists. split.
    + rewrite VertexAt_SetDisplacement by exact Hj. rewrite Hu, Hr. reflexivity.
    + intros k Hk. fold nDim.
      rewrite (VarCoord_after_call nDim _ true u k Hlenu).
      apply Nat.ltb_lt in Hk as Hk'. rewrite Hk'.
      destruct k as [|[|[|k]]]; cbn [nth]; try reflexivity. destruct k; reflexivity.
Qed.

(** C6 on the one-vertex boundary: the deltas are (1,1,0) and (0,1,0)
    although (7,7,7) was stored before the pass. *)
Lemma displacement_accumulates_witness :
  (exists v', VertexAt (SetDisplacement (SetDisplacement one_vertex_boundary two_displacements 0 false)
                          two_displacements 1 false) 0 0 = Some v' /\
              delta_is 3 v' [1; 1; 0]) /\
  (exists v', VertexAt (SetDisplacement (SetDisplacement one_vertex_boundary two_displacements 0 false)
                          two_displacements 1 true) 0 0 = Some v' /\
              delta_is 3 v' [0; 1; 0]).
Proof.
  destruct (displacement_accumulates one_vertex_boundary two_displacements false
              0 0 one_vertex) as (H1 & H2 & _);
    try reflexivity; try (cbn; lia); try (intros _; reflexivity).
  split; [exact H1 | exact H2].
Defined.

(** *** The generators that take a single design variable *)

Lemma CheckSingleDV_many {T} (config : CConfig T) io :
  GetnDV config <> 1%nat ->
  CheckSingleDV config io =
  {| cout := cout io ++ [NotPreparedForMultipleDeformations]; cin := tail (cin io) |}.
Proof.
  intros H. unfold CheckSingleDV.
  destruct (Nat.eqb_spec (GetnDV config) 1); [contradiction | reflexivity].
Qed.

(** C3 (as stated it fails). With two design variables configured the
    obstacle generator prints its diagnostic, takes the pending character
    from [cin] and returns the deformed boundary (here a delta of 27/32 in
    y): the process does not exit. *)
Lemma obstacle_continues_after_report :
  GetnDV obstacle_two_dv = 2%nat /\
  ~ reports_and_exits (SetObstacle bump_boundary obstacle_two_dv fresh_process) /\
  exists b v,
    SetObstacle bump_boundary obstacle_two_dv fresh_process =
      Returned b {| cout := [NotPreparedForMultipleDeformations]; cin := [] |} /\
    VertexAt b 0 0 = Some v /\
    coord (GetVarCoord v) 1 == 27 # 32.
Proof.
  split; [reflexivity|]. split.
  - intros (status & io & H & _). discriminate H.
  - eexists; eexists. split; [reflexivity|]. split; reflexivity.
Qed.

(** C3 (amended). When the number of configured design variables is not
    one, each of the three generators writes the diagnostic, takes one
    character from [cin], and returns to its caller with the deformation it
    computes from the parameters of design variable 0: the same boundary as
    for the configuration that declares a single design variable. *)
Theorem single_dv_generators_report_and_continue
  (sqrt : Q -> Q) (boundary : CGeometry Q) (config : CConfig Q) (io : Process) :
  GetnDV config <> 1%nat ->
  let io' := {| cout := cout io ++ [NotPreparedForMultipleDeformations];
                cin := tail (cin io) |} in
  (exists b, SetNACA_4Digits sqrt boundary config io = Returned b io' /\
             SetNACA_4Digits sqrt boundary (with_nDV 1 config) io = Returned b io) /\
  (exists b, SetParabolic boundary config io = Returned b io' /\
             SetParabolic boundary (with_nDV 1 config) io = Returned b io) /\
  (exists b, SetObstacle boundary config io = Returned b io' /\
             SetObstacle boundary (with_nDV 1 config) io = Returned b io).
Proof.
  intros Hn io'.
  unfold SetNACA_4Digits, SetParabolic, SetObstacle.
  rewrite (CheckSingleDV_many config io Hn). fold io'.
  repeat split; eexists; (split; [reflexivity | reflexivity]).
Qed.

Lemma single_dv_generators_witness :
  exists b,
    SetObstacle bump_boundary obstacle_two_dv fresh_process =
      Returned b {| cout := [NotPreparedForMultipleDeformations]; cin := [] |} /\
    SetObstacle bump_boundary (with_nDV 1 obstacle_two_dv) fresh_process =
      Returned b fresh_process.
Proof.
  destruct (single_dv_generators_report_and_continue (fun x => x)
              bump_boundary obstacle_two_dv fresh_process) as (_ & _ & H).
  - cbn. lia.
  - exact H.
Defined.

(** *** [SetRotation] *)







End SurfaceMovement.



(* ================================================================== *)
(** * [CFreeFormDefBox]                                                *)
(* ================================================================== *)

Module FreeFormDefBox.

(** ** Binomial coefficients *)

(** [unsigned long] arithmetic (64 bits). *)
Definition ULONG_MOD : Z := 2 ^ 64.

(** [(unsigned short) n] for a [short] or [int] [n]. *)
Definition to_ushort (n : Z) : nat := Z.to_nat (n mod 2 ^ 16).

(** The local array [unsigned long binomial[1000]]. Its initial contents
    are unspecified; every entry [Binomial] returns for [m <= n] has been
    written before it is read. A write at or beyond index 1000 is outside
    the array in the C++ program and is dropped here. *)
Definition binomial_buffer : list Z := replicate 1000 0%Z.

(** [for (j = i-1U; j > 0; --j) binomial[j] += binomial[j-1U];]
    entered with [j]. *)
Fixpoint Binomial_inner (j : nat) (binomial : list Z) : list Z :=
  match j with
  | O => binomial
  | S j' =>
      Binomial_inner j'
        (<[j := ((nth j binomial 0 + nth j' binomial 0) mod ULONG_MOD)%Z]> binomial)
  end.

(** [for (i; i <= n; ++i) { binomial[i] = 1; inner loop }] with [count]
    iterations left. *)
Fixpoint Binomial_outer (count i : nat) (binomial : list Z) : list Z :=
  match count with
  | O => binomial
  | S count' =>
      Binomial_outer count' (S i) (Binomial_inner (i - 1) (<[i := 1%Z]> binomial))
  end.

(** The array when [Binomial(n, _)] returns. *)
Definition Binomial_row (n : nat) : list Z :=
  Binomial_outer n 1 (<[0%nat := 1%Z]> binomial_buffer).

Definition Binomial (n m : nat) : Z := nth m (Binomial_row n) 0%Z.

(** ** Bernstein polynomials *)

(** [val_n] and [val_i] are [short]; [pow] with an integral exponent is
    [Qpower]. *)
Definition GetBernstein (val_n val_i : Z) (val_t : Q) : Q :=
  if (val_i >? val_n)%Z then 0
  else if (val_i =? 0)%Z then
    if Qeq_bool val_t 0 then 1
    else if Qeq_bool val_t 1 then 0
    else inject_Z (Binomial (to_ushort val_n) (to_ushort val_i))
         * val_t ^ val_i * (1 - val_t) ^ (val_n - val_i)
  else if (val_i =? val_n)%Z then
    if Qeq_bool val_t 0 then 0
    else if Qeq_bool val_t 1 then 1
    else val_t ^ val_n
  else inject_Z (Binomial (to_ushort val_n) (to_ushort val_i))
       * val_t ^ val_i * (1 - val_t) ^ (val_n - val_i).

(** The recursion is on [val_order], which the callers pass as 1 or 2. *)
Fixpoint GetBernsteinDerivative (val_n val_i : Z) (val_t : Q) (val_order : nat) : Q :=
  match val_order with
  | O => GetBernstein val_n val_i val_t
  | S order =>
      if (val_i =? 0)%Z then
        inject_Z val_n * (- GetBernsteinDerivative (val_n - 1) val_i val_t order)
      else if (val_n =? 0)%Z then val_t
      else inject_Z val_n *
           (GetBernsteinDerivative (val_n - 1) (val_i - 1) val_t order
            - GetBernsteinDerivative (val_n - 1) val_i val_t order)
  end.

(** ** The box *)

Record CFreeFormDefBox : Type := {
  nDim : nat;
  lDegree : nat;
  mDegree : nat;
  nDegree : nat;
  Coord_Control_Points : list (list (list (list Q)))
}.

Definition ControlPoint (box : CFreeFormDefBox) (iDegree jDegree kDegree iDim : nat) : Q :=
  coord (nth kDegree (nth jDegree (nth iDegree (Coord_Control_Points box) []) []) []) iDim.

(** [lmn[0] = lDegree; lmn[1] = mDegree; lmn[2] = nDegree;] *)
Definition Degrees (box : CFreeFormDefBox) : list nat :=
  [lDegree box; mDegree box; nDegree box].

(** [lmn[k]] as the [short] handed to the Bernstein routines. *)
Definition idx (a : list nat) (k : nat) : Z := Z.of_nat (nth k a 0%nat).

(** The loop nest
    [for (iDegree <= lmn[0]) for (jDegree <= lmn[1]) for (kDegree <= lmn[2])
       value += term;]  started from [value = 0]. *)
Definition TripleSum (lmn : list nat) (term : nat -> nat -> nat -> Q) : Q :=
  fold_left
    (fun value iDegree =>
       fold_left
         (fun value jDegree =>
            fold_left (fun value kDegree => value + term iDegree jDegree kDegree)
                      (seq 0 (S (nth 2 lmn 0%nat))) value)
         (seq 0 (S (nth 1 lmn 0%nat))) value)
    (seq 0 (S (nth 0 lmn 0%nat))) 0.

(** The product of the three basis functions at a control point. *)
Definition Basis (lmn : list nat) (uvw : list Q) (i j k : nat) : Q :=
  GetBernstein (idx lmn 0) (Z.of_nat i) (coord uvw 0)
  * GetBernstein (idx lmn 1) (Z.of_nat j) (coord uvw 1)
  * GetBernstein (idx lmn 2) (Z.of_nat k) (coord uvw 2).

(** [EvalCartesianCoord]: component [iDim] accumulates over the same loop
    nest. *)
Definition EvalCartesianCoord (box : CFreeFormDefBox) (ParamCoord : list Q) : list Q :=
  map (fun iDim =>
         TripleSum (Degrees box)
           (fun i j k =>
              ControlPoint box i j k iDim
              * GetBernstein (Z.of_nat (lDegree box)) (Z.of_nat i) (coord ParamCoord 0)
              * GetBernstein (Z.of_nat (mDegree box)) (Z.of_nat j) (coord ParamCoord 1)
              * GetBernstein (Z.of_nat (nDegree box)) (Z.of_nat k) (coord ParamCoord 2)))
      (seq 0 (nDim box)).

Definition GetDerivative1 (box : CFreeFormDefBox) (uvw : list Q) (val_diff : nat)
    (ijk lmn : list nat) : Q :=
  let value :=
    GetBernsteinDerivative (idx lmn val_diff) (idx ijk val_diff) (coord uvw val_diff) 1 in
  fold_left
    (fun value iDim =>
       if (iDim =? val_diff)%nat then value
       else value * GetBernstein (idx lmn iDim) (idx ijk iDim) (coord uvw iDim))
    (seq 0 (nDim box)) value.

Definition GetDerivative2 (box : CFreeFormDefBox) (uvw : list Q) (dim : nat)
    (xyz : list Q) (lmn : list nat) : Q :=
  let value :=
    TripleSum lmn
      (fun i j k =>
         ControlPoint box i j k dim
         * GetBernstein (idx lmn 0) (Z.of_nat i) (coord uvw 0)
         * GetBernstein (idx lmn 1) (Z.of_nat j) (coord uvw 1)
         * GetBernstein (idx lmn 2) (Z.of_nat k) (coord uvw 2)) in
  2 * (value - coord xyz dim).

Definition GetDerivative3 (box : CFreeFormDefBox) (uvw : list Q) (dim diff_this : nat)
    (lmn : list nat) : Q :=
  TripleSum lmn
    (fun i j k =>
       ControlPoint box i j k dim * GetDerivative1 box uvw diff_this [i; j; k] lmn).

Definition GetDerivative4 (box : CFreeFormDefBox) (uvw : list Q) (val_diff val_diff2 : nat)
    (ijk lmn : list nat) : Q :=
  if (val_diff =? val_diff2)%nat then
    let value :=
      GetBernsteinDerivative (idx lmn val_diff) (idx ijk val_diff) (coord uvw val_diff) 2 in
    fold_left
      (fun value iDim =>
         if (iDim =? val_diff)%nat then value
         else value * GetBernstein (idx lmn iDim) (idx ijk iDim) (coord uvw iDim))
      (seq 0 (nDim box)) value
  else
    let value :=
      GetBernsteinDerivative (idx lmn val_diff) (idx ijk val_diff) (coord uvw val_diff) 1
      * GetBernsteinDerivative (idx lmn val_diff2) (idx ijk val_diff2) (coord uvw val_diff2) 1 in
    fold_left
      (fun value iDim =>
         if negb (iDim =? val_diff)%nat && negb (iDim =? val_diff2)%nat
         then value * GetBernstein (idx lmn iDim) (idx ijk iDim) (coord uvw iDim)
         else value)
      (seq 0 (nDim box)) value.

Definition GetDerivative5 (box : CFreeFormDefBox) (uvw : list Q)
    (dim diff_this diff_this_also : nat) (lmn : list nat) : Q :=
  TripleSum lmn
    (fun i j k =>
       ControlPoint box i j k dim
       * GetDerivative4 box uvw diff_this diff_this_also [i; j; k] lmn).

(** [GetFFDGradient]: [Gradient[jDim]] accumulates over [iDim]. *)
Definition GetFFDGradient (box : CFreeFormDefBox) (val_coord xyz : list Q) : list Q :=
  let lmn := Degrees box in
  map (fun jDim =>
         fold_left
           (fun g iDim =>
              g + GetDerivative2 box val_coord iDim xyz lmn
                  * GetDerivative3 box val_coord iDim jDim lmn)
           (seq 0 (nDim box)) 0)
      (seq 0 (nDim box)).

(** ** The Hessian *)

(** [H[i][j]] and [H[i][j] = x] for a [double **]; a write outside the
    rows the matrix has is dropped. *)
Definition mget (H : list (list Q)) (i j : nat) : Q := coord (nth i H []) j.

Definition mset (H : list (list Q)) (i j : nat) (x : Q) : list (list Q) :=
  <[i := <[j := x]> (nth i H [])]> H.

(** One pass of the loop over [iDim] in [GetFFDHessian]: the six updates
    of the upper triangle, in the order of the source. *)
Definition Hessian_accumulate (box : CFreeFormDefBox) (uvw xyz : list Q) (lmn : list nat)
    (H : list (list Q)) (iDim : nat) : list (list Q) :=
  let D3 := GetDerivative3 box uvw iDim in
  let D2 := GetDerivative2 box uvw iDim xyz lmn in
  let D5 := GetDerivative5 box uvw iDim in
  let H := mset H 0 0 (mget H 0 0 + (2 * D3 0%nat lmn * D3 0%nat lmn + D2 * D5 0%nat 0%nat lmn)) in
  let H := mset H 1 1 (mget H 1 1 + (2 * D3 1%nat lmn * D3 1%nat lmn + D2 * D5 1%nat 1%nat lmn)) in
  let H := mset H 2 2 (mget H 2 2 + (2 * D3 2%nat lmn * D3 2%nat lmn + D2 * D5 2%nat 2%nat lmn)) in
  let H := mset H 0 1 (mget H 0 1 + (2 * D3 0%nat lmn * D3 1%nat lmn + D2 * D5 0%nat 1%nat lmn)) in
  let H := mset H 0 2 (mget H 0 2 + (2 * D3 0%nat lmn * D3 2%nat lmn + D2 * D5 0%nat 2%nat lmn)) in
  mset H 1 2 (mget H 1 2 + (2 * D3 1%nat lmn * D3 2%nat lmn + D2 * D5 1%nat 2%nat lmn)).

(** [GetFFDHessian] zeroes the [nDim] x [nDim] block, then updates and
    mirrors rows and columns 0 to 2 whatever [nDim] is. For [nDim = 2] the
    matrix its caller allocates is 2 x 2 and the writes to row and column
    2 fall outside it, which C++ leaves undefined; [mset] drops them. The
    properties of the Hessian are therefore stated for [nDim = 3] only. *)
Definition GetFFDHessian (box : CFreeFormDefBox) (uvw xyz : list Q)
    (val_Hessian : list (list Q)) : list (list Q) :=
  let lmn := Degrees box in
  (* val_Hessian[iDim][jDim] = 0.0 for iDim, jDim < nDim *)
  let H :=
    imap (fun iDim row =>
            if (iDim <? nDim box)%nat
            then imap (fun jDim old => if (jDim <? nDim box)%nat then 0 else old) row
            else row)
         val_Hessian in
  let H := fold_left (Hessian_accumulate box uvw xyz lmn) (seq 0 (nDim box)) H in
  let H := mset H 1 0 (mget H 0 1) in
  let H := mset H 2 0 (mget H 0 2) in
  mset H 2 1 (mget H 1 2).

(** ** Notions used to state the properties of the Bernstein basis *)

(** The sum of [B_i^n(t)] over [i = 0..n], accumulated from [i = 0]. *)
Definition BernsteinSum (n : nat) (t : Q) : Q :=
  fold_left (fun acc i => acc + GetBernstein (Z.of_nat n) (Z.of_nat i) t) (seq 0 (S n)) 0.

(** Row [n] of Pascal's triangle over the integers (no wrap-around). *)
Fixpoint pascal_row (n : nat) : list Z :=
  match n with
  | O => [1%Z]
  | S n' => let r := pascal_row n' in zip_with Z.add (0%Z :: r) (r ++ [0%Z])
  end.

(** The homogeneous polynomial with coefficients [l]:
    the sum of [l_i * t^i * s^(|l|-1-i)]. *)
Fixpoint evalH (l : list Z) (t s : Q) : Q :=
  match l with
  | [] => 0
  | a :: l' => inject_Z a * s ^ Z.of_nat (length l') + t * evalH l' t s
  end.

(** The largest degree whose binomial coefficients all fit 64 bits. *)
Definition MAX_EXACT_DEGREE : nat := 67.

(** What is checked for one row of the routine: it is the row of Pascal's
    triangle, with ones at both ends. *)
Definition row_ok (n : nat) : bool :=
  bool_decide (take (S n) (Binomial_row n) = pascal_row n)
  && (nth 0 (pascal_row n) 0 =? 1)%Z && (nth n (pascal_row n) 0 =? 1)%Z.

(** The sum of [g i] over the indices in [l], accumulated from the left. *)
Definition qsum (g : nat -> Q) (l : list nat) : Q :=
  fold_left (fun acc i => acc + g i) l 0.

(** ** Notions used to state the properties of the Hessian *)

(** [F], component [dim]: the position [EvalCartesianCoord] gives. *)
Definition F (box : CFreeFormDefBox) (uvw : list Q) (dim : nat) : Q :=
  coord (EvalCartesianCoord box uvw) dim.

(** The contribution of spatial dimension [dim] to entry [(i,j)]. *)
Definition HessianTerm (box : CFreeFormDefBox) (uvw xyz : list Q) (dim i j : nat) : Q :=
  2 * GetDerivative3 box uvw dim i (Degrees box) * GetDerivative3 box uvw dim j (Degrees box)
  + GetDerivative2 box uvw dim xyz (Degrees box) * GetDerivative5 box uvw dim i j (Degrees box).

(** A box of degrees (2,1,1) whose control point (i,j,k) is (i*i, j, k). *)
Definition quadratic_box : CFreeFormDefBox :=
  {| nDim := 3; lDegree := 2; mDegree := 1; nDegree := 1;
     Coord_Control_Points :=
       map (fun i => map (fun j => map (fun k => [inject_Z (i * i); inject_Z j; inject_Z k])
                                       [0; 1]%Z) [0; 1]%Z) [0; 1; 2]%Z |}.

Definition zero3x3 : list (list Q) := [[0; 0; 0]; [0; 0; 0]; [0; 0; 0]].

Definition centre : list Q := [1 # 2; 1 # 2; 1 # 2].

(** ** Point inversion *)

(** What [GetParametricCoord_Iterative] writes to the console. The norm it
    prints is carried as its square (see [NormError2] below). *)
Inductive Console : Type :=
  | UnknownPoint_MinError (xyz : list Q) (MinNormError2 : Q) (iter : nat)
  | UnknownPoint_IncreaseIterations (xyz : list Q).

(** The variables that live across the iterations of the external loop.
    [restarts] is not a variable of the routine: it counts the executions
    of the branch that draws a new random guess. *)
Record IterState : Type := {
  ParamCoord : list Q;
  IndepTerm : list Q;
  Hessian : list (list Q);
  SOR_Factor : Q;
  MinNormError2 : Q;
  RandonCounter : nat;
  rand_calls : nat;
  cout : list Console;
  restarts : nat
}.

Definition Random_Trials : nat := 500.

(** [unsigned short] increment. *)
Definition incr_ushort (n : nat) : nat := Z.to_nat ((Z.of_nat n + 1) mod 2 ^ 16).

(** The nine assignments to [AdjHessian] and the one to [Determinant]. *)
Definition Adjugate (Hessian : list (list Q)) : list (list Q) :=
  [[mget Hessian 1 1 * mget Hessian 2 2 - mget Hessian 1 2 * mget Hessian 2 1;
    mget Hessian 0 2 * mget Hessian 2 1 - mget Hessian 0 1 * mget Hessian 2 2;
    mget Hessian 0 1 * mget Hessian 1 2 - mget Hessian 0 2 * mget Hessian 1 1];
   [mget Hessian 1 2 * mget Hessian 2 0 - mget Hessian 1 0 * mget Hessian 2 2;
    mget Hessian 0 0 * mget Hessian 2 2 - mget Hessian 0 2 * mget Hessian 2 0;
    mget Hessian 0 2 * mget Hessian 1 0 - mget Hessian 0 0 * mget Hessian 1 2];
   [mget Hessian 1 0 * mget Hessian 2 1 - mget Hessian 1 1 * mget Hessian 2 0;
    mget Hessian 0 1 * mget Hessian 2 0 - mget Hessian 0 0 * mget Hessian 2 1;
    mget Hessian 0 0 * mget Hessian 1 1 - mget Hessian 0 1 * mget Hessian 1 0]].

Definition Determinant_of (Hessian AdjHessian : list (list Q)) : Q :=
  mget Hessian 0 0 * mget AdjHessian 0 0 + mget Hessian 0 1 * mget AdjHessian 1 0
  + mget Hessian 0 2 * mget AdjHessian 2 0.

Definition Qlt_bool (x y : Q) : bool := negb (Qle_bool y x).

Section PointInversion.

(** The C library: [rand k] is the value of the [k]-th call of [rand()]
    and [RAND_MAX] its largest value. *)
Variable rand : nat -> Z.
Variable RAND_MAX : Z.

Variable box : CFreeFormDefBox.
Variable xyz : list Q.
Variable tol : Q.            (* config->GetFFD_Tol() *)
Variable it_max : nat.       (* config->GetnFFD_Iter() *)

(** [for (iDim = 0; iDim < nDim; iDim++) a[iDim] = f(iDim, a[iDim])]. *)
Definition ForDims (f : nat -> Q -> Q) (a : list Q) : list Q :=
  imap (fun iDim old => if (iDim <? nDim box)%nat then f iDim old else old) a.

(** The body of the external loop at iteration [iter]; the flag is [true]
    when the body leaves through [break].

    [NormError] is a square root. The routine compares it with 1.8, keeps
    the minimum over the iterations and prints that minimum; the embedding
    carries the squares [NormError2] and [MinNormError2] instead, which
    order and compare the same way since the norms are not negative. *)
Definition Newton_Iteration (iter : nat) (st : IterState) : IterState * bool :=
  let Gradient := GetFFDGradient box (ParamCoord st) xyz in
  let IndepTerm := ForDims (fun iDim _ => - coord Gradient iDim) (IndepTerm st) in
  let Hessian := GetFFDHessian box (ParamCoord st) xyz (Hessian st) in
  let AdjHessian := Adjugate Hessian in
  let Determinant := Determinant_of Hessian AdjHessian in
  let IndepTerm :=
    if negb (Qeq_bool Determinant 0) then
      let Temp :=
        ForDims (fun iDim _ =>
                   fold_left (fun acc jDim =>
                                acc + mget AdjHessian iDim jDim * coord IndepTerm jDim
                                      / Determinant)
                             (seq 0 (nDim box)) 0)
                [0; 0; 0] in
      ForDims (fun iDim _ => coord Temp iDim) IndepTerm
    else IndepTerm in
  let ParamCoord :=
    ForDims (fun iDim p => (1 - SOR_Factor st) * p
                           + SOR_Factor st * (p + coord IndepTerm iDim))
            (ParamCoord st) in
  if Qlt_bool (Qabs (coord IndepTerm 0)) tol && Qlt_bool (Qabs (coord IndepTerm 1)) tol
     && Qlt_bool (Qabs (coord IndepTerm 2)) tol
  then
    ({| ParamCoord := ParamCoord; IndepTerm := IndepTerm; Hessian := Hessian;
        SOR_Factor := SOR_Factor st; MinNormError2 := MinNormError2 st;
        RandonCounter := RandonCounter st; rand_calls := rand_calls st;
        cout := cout st; restarts := restarts st |}, true)
  else
    let NormError2 :=
      fold_left (fun acc iDim => acc + coord IndepTerm iDim * coord IndepTerm iDim)
                (seq 0 (nDim box)) 0 in
    let MinNormError2 := Qmin NormError2 (MinNormError2 st) in
    if ((iter mod it_max =? 0)%nat && negb (iter =? 0)%nat)
       || Qlt_bool ((18 # 10) * (18 # 10)) NormError2
    then
      let RandonCounter := incr_ushort (RandonCounter st) in
      if (RandonCounter =? Random_Trials)%nat then
        ({| ParamCoord := ParamCoord; IndepTerm := IndepTerm; Hessian := Hessian;
            SOR_Factor := SOR_Factor st; MinNormError2 := MinNormError2;
            RandonCounter := RandonCounter; rand_calls := rand_calls st;
            cout := cout st ++ [UnknownPoint_MinError xyz MinNormError2 iter];
            restarts := restarts st |}, false)
      else
        ({| ParamCoord :=
              ForDims (fun iDim _ =>
                         inject_Z (rand (rand_calls st + iDim)%nat) / inject_Z RAND_MAX)
                      ParamCoord;
            IndepTerm := IndepTerm; Hessian := Hessian;
            SOR_Factor := 1 # 10; MinNormError2 := MinNormError2;
            RandonCounter := RandonCounter;
            rand_calls := (rand_calls st + nDim box)%nat;
            cout := cout st; restarts := S (restarts st) |}, false)
    else
      ({| ParamCoord := ParamCoord; IndepTerm := IndepTerm; Hessian := Hessian;
          SOR_Factor := SOR_Factor st; MinNormError2 := MinNormError2;
          RandonCounter := RandonCounter st; rand_calls := rand_calls st;
          cout := cout st; restarts := restarts st |}, false).

(** The external loop [for (iter; iter < it_max*Random_Trials; iter++)],
    entered at [iter], run for at most [fuel] tests of its condition. It
    yields the value of [iter] on exit, the number of times the body was
    executed and the state, or nothing when the fuel does not suffice. *)
Fixpoint External_Loop (fuel iter executed : nat) (st : IterState) :
    option (nat * nat * IterState) :=
  match fuel with
  | O => None
  | S fuel' =>
      if (iter <? it_max * Random_Trials)%nat then
        let '(st', stop) := Newton_Iteration iter st in
        if stop then Some (iter, S executed, st')
        else External_Loop fuel' (S iter) (S executed) st'
      else Some (iter, executed, st)
  end.

(** What the routine hands back: the array it returns, the number of
    executions of the loop body, and the final state. *)
Record Inversion : Type := {
  returned : list Q;
  iterations : nat;
  final : IterState
}.

Definition GetParametricCoord_Iterative (fuel : nat) (ParamCoordGuess : list Q) :
    option Inversion :=
  let st :=
    {| ParamCoord := map (coord ParamCoordGuess) (seq 0 (nDim box));
       IndepTerm := [0; 0; 0];
       Hessian := replicate (nDim box) (replicate (nDim box) 0);
       SOR_Factor := 1;
       MinNormError2 := (1000000 # 1) * (1000000 # 1);
       RandonCounter := 0; rand_calls := 0; cout := []; restarts := 0 |} in
  match External_Loop fuel 0 0 st with
  | None => None
  | Some (iter, executed, st) =>
      let out :=
        if (iter =? it_max * Random_Trials)%nat
        then cout st ++ [UnknownPoint_IncreaseIterations xyz] else cout st in
      Some {| returned := ParamCoord st; iterations := executed;
              final := {| ParamCoord := ParamCoord st; IndepTerm := IndepTerm st;
                          Hessian := Hessian st; SOR_Factor := SOR_Factor st;
                          MinNormError2 := MinNormError2 st;
                          RandonCounter := RandonCounter st;
                          rand_calls := rand_calls st; cout := out;
                          restarts := restarts st |} |}
  end.

End PointInversion.

(** A box of degrees (1,0,0): two control points, at (0,0,0) and
    (1,0,0). *)
Definition line_box : CFreeFormDefBox :=
  {| nDim := 3; lDegree := 1; mDegree := 0; nDegree := 0;
     Coord_Control_Points := [ [[ [0; 0; 0] ]]; [[ [1; 0; 0] ]] ] |}.

(** A point far from the box, a tolerance, and a random source all of whose
    draws are 0, so that every random guess is the corner (0,0,0). *)
Definition far_point : list Q := [10; 0; 0].
Definition tol_sample : Q := 1 # 1000000.
Definition rand_zero : nat -> Z := fun _ => 0%Z.
Definition RAND_MAX_sample : Z := 2147483647.

(** The run of the point inversion on that input with [nFFD_Iter = 2]. *)
Definition far_point_run : option Inversion :=
  GetParametricCoord_Iterative rand_zero RAND_MAX_sample line_box far_point tol_sample 2
    1001 [0; 0; 0].


(** ** Properties *)

(** *** Binomial coefficients *)

Lemma rows_ok : forallb row_ok (seq 0 (S MAX_EXACT_DEGREE)) = true.
Proof. vm_compute. reflexivity. Qed.

Lemma row_ok_le n : (n <= MAX_EXACT_DEGREE)%nat -> row_ok n = true.
Proof.
  intros Hn. pose proof rows_ok as H.
  rewrite forallb_forall in H. apply H, in_seq. unfold MAX_EXACT_DEGREE in *. lia.
Qed.

(** Up to degree 67 the routine returns the binomial coefficient. *)
Lemma Binomial_pascal n m :
  (n <= MAX_EXACT_DEGREE)%nat -> (m <= n)%nat ->
  Binomial n m = nth m (pascal_row n) 0%Z.
Proof.
  intros Hn Hm. pose proof (row_ok_le n Hn) as H. unfold row_ok in H.
  apply andb_true_iff in H as [H _]. apply andb_true_iff in H as [H _].
  apply bool_decide_eq_true in H. rewrite <- H. unfold Binomial.
  rewrite !nth_lookup, lookup_take_lt by lia. reflexivity.
Qed.

Lemma pascal_ends n :
  (n <= MAX_EXACT_DEGREE)%nat ->
  nth 0 (pascal_row n) 0%Z = 1%Z /\ nth n (pascal_row n) 0%Z = 1%Z.
Proof.
  intros Hn. pose proof (row_ok_le n Hn) as H. unfold row_ok in H.
  apply andb_true_iff in H as [H H2]. apply andb_true_iff in H as [_ H1].
  split; now apply Z.eqb_eq.
Qed.

Lemma pascal_row_length n : length (pascal_row n) = S n.
Proof.
  induction n as [|n IH]; [reflexivity|].
  cbn [pascal_row]. rewrite length_zip_with. cbn [length].
  rewrite length_app, IH. cbn [length]. lia.
Qed.

(** Every entry of the array is a value of [unsigned long]. *)
Lemma Binomial_inner_nonneg j : forall b,
  Forall (fun x => (0 <= x)%Z) b -> Forall (fun x => (0 <= x)%Z) (Binomial_inner j b).
Proof.
  induction j as [|j IH]; intros b Hb; [exact Hb|].
  cbn [Binomial_inner]. apply IH.
  destruct (Nat.lt_ge_cases (S j) (length b)) as [Hl|Hl].
  - apply Forall_insert; [exact Hb|]. apply Z.mod_pos_bound. reflexivity.
  - now rewrite list_insert_ge by lia.
Qed.

Lemma Binomial_outer_nonneg count : forall i b,
  Forall (fun x => (0 <= x)%Z) b -> Forall (fun x => (0 <= x)%Z) (Binomial_outer count i b).
Proof.
  induction count as [|c IH]; intros i b Hb; [exact Hb|].
  cbn [Binomial_outer]. apply IH, Binomial_inner_nonneg.
  destruct (Nat.lt_ge_cases i (length b)) as [Hl|Hl].
  - apply Forall_insert; [exact Hb | lia].
  - now rewrite list_insert_ge by lia.
Qed.

Lemma Binomial_nonneg n m : (0 <= Binomial n m)%Z.
Proof.
  unfold Binomial, Binomial_row.
  assert (H : Forall (fun x => (0 <= x)%Z)
                (Binomial_outer n 1 (<[0%nat := 1%Z]> binomial_buffer))).
  { apply Binomial_outer_nonneg. apply Forall_insert; [|lia].
    unfold binomial_buffer. apply Forall_replicate. lia. }
  rewrite nth_lookup. destruct (_ !! m) as [x|] eqn:E; cbn; [|lia].
  rewrite Forall_lookup in H. exact (H m x E).
Qed.

(** *** The binomial theorem for the rows of Pascal's triangle *)

Lemma Qpower_succ_nat (s : Q) (k : nat) : s ^ Z.of_nat (S k) == s * s ^ Z.of_nat k.
Proof.
  rewrite Nat2Z.inj_succ, <- Z.add_1_l.
  rewrite Qpower_plus' by lia. reflexivity.
Qed.

Lemma evalH_cons0 l t s : evalH (0%Z :: l) t s == t * evalH l t s.
Proof. cbn [evalH]. unfold inject_Z. ring. Qed.

Lemma evalH_snoc0 l t s : evalH (l ++ [0%Z]) t s == s * evalH l t s.
Proof.
  induction l as [|a l IH]; cbn [evalH app length].
  - cbn. ring.
  - rewrite IH, length_app. cbn [length].
    replace (length l + 1)%nat with (S (length l)) by lia.
    rewrite Qpower_succ_nat. ring.
Qed.

Lemma evalH_zip_add a : forall b t s,
  length a = length b ->
  evalH (zip_with Z.add a b) t s == evalH a t s + evalH b t s.
Proof.
  induction a as [|x a IH]; intros [|y b] t s Hl; try discriminate Hl.
  - cbn. ring.
  - cbn [zip_with evalH]. injection Hl as Hl.
    rewrite (IH b t s Hl), length_zip_with, <- Hl, Nat.min_id, inject_Z_plus. ring.
Qed.

Lemma pascal_row_sum n t s : t + s == 1 -> evalH (pascal_row n) t s == 1.
Proof.
  intros Hts. induction n as [|n IH].
  - cbn [pascal_row evalH length]. change (s ^ Z.of_nat 0) with 1.
    unfold inject_Z. ring.
  - cbn [pascal_row]. rewrite evalH_zip_add.
    + rewrite evalH_cons0, evalH_snoc0, IH. lra.
    + cbn [length]. rewrite length_app. cbn. lia.
Qed.

(** *** Sums accumulated from the left *)

Lemma fold_acc (g : nat -> Q) l : forall a,
  fold_left (fun acc i => acc + g i) l a == a + qsum g l.
Proof.
  unfold qsum. induction l as [|x l IH]; intros a; cbn [fold_left].
  - ring.
  - rewrite (IH (a + g x)), (IH (0 + g x)). ring.
Qed.

Lemma qsum_cons g x l : qsum g (x :: l) == g x + qsum g l.
Proof. unfold qsum at 1. cbn [fold_left]. rewrite fold_acc. ring. Qed.

Lemma qsum_ext_in g h l :
  (forall i, In i l -> g i == h i) -> qsum g l == qsum h l.
Proof.
  induction l as [|x l IH]; intros H; [reflexivity|].
  rewrite !qsum_cons, (H x (or_introl eq_refl)), IH; [reflexivity|].
  intros i Hi. apply H. now right.
Qed.

Lemma qsum_map g (f : nat -> nat) l : qsum g (map f l) = qsum (fun i => g (f i)) l.
Proof. unfold qsum. generalize 0. induction l as [|x l IH]; intros a; cbn; auto. Qed.

Lemma qsum_scale c g l : qsum (fun i => c * g i) l == c * qsum g l.
Proof.
  induction l as [|x l IH]; [unfold qsum; cbn; ring|].
  rewrite !qsum_cons, IH. ring.
Qed.

Lemma evalH_qsum l t s :
  evalH l t s ==
  qsum (fun i => inject_Z (nth i l 0%Z) * t ^ Z.of_nat i
                 * s ^ Z.of_nat (length l - 1 - i))
       (seq 0 (length l)).
Proof.
  induction l as [|a l IH]; [reflexivity|].
  cbn [evalH length]. rewrite <- cons_seq, qsum_cons, <- seq_shift, qsum_map.
  cbn [nth]. change (t ^ Z.of_nat 0) with 1.
  replace (S (length l) - 1 - 0)%nat with (length l) by lia.
  rewrite IH, <- qsum_scale.
  assert (E : qsum (fun i => t * (inject_Z (nth i l 0%Z) * t ^ Z.of_nat i
                                  * s ^ Z.of_nat (length l - 1 - i))) (seq 0 (length l))
              == qsum (fun i => inject_Z (nth i l 0%Z) * t ^ Z.of_nat (S i)
                                * s ^ Z.of_nat (S (length l) - 1 - S i)) (seq 0 (length l))).
  { apply qsum_ext_in. intros i _.
    replace (S (length l) - 1 - S i)%nat with (length l - 1 - i)%nat by lia.
    rewrite Qpower_succ_nat. ring. }
  rewrite E. ring.
Qed.

(** *** The Bernstein basis *)

Lemma to_ushort_of_nat n : (n <= MAX_EXACT_DEGREE)%nat -> to_ushort (Z.of_nat n) = n.
Proof.
  intros Hn. unfold to_ushort, MAX_EXACT_DEGREE in *.
  rewrite Z.mod_small by lia. apply Nat2Z.id.
Qed.

(** Up to degree 67 the routine computes [C(n,i) t^i (1-t)^(n-i)], except
    that for degree 0 it returns 0 at [t = 1]. *)
Lemma GetBernstein_formula n i t :
  (n <= MAX_EXACT_DEGREE)%nat -> (i <= n)%nat -> (n = 0%nat -> ~ t == 1) ->
  GetBernstein (Z.of_nat n) (Z.of_nat i) t ==
  inject_Z (nth i (pascal_row n) 0%Z) * t ^ Z.of_nat i * (1 - t) ^ Z.of_nat (n - i).
Proof.
  intros Hn Hi Hdeg0.
  assert (Hgen : inject_Z (Binomial (to_ushort (Z.of_nat n)) (to_ushort (Z.of_nat i)))
                 * t ^ Z.of_nat i * (1 - t) ^ (Z.of_nat n - Z.of_nat i)
                 == inject_Z (nth i (pascal_row n) 0%Z) * t ^ Z.of_nat i
                    * (1 - t) ^ Z.of_nat (n - i)).
  { rewrite !to_ushort_of_nat by lia. rewrite Binomial_pascal by assumption.
    now rewrite Nat2Z.inj_sub by exact Hi. }
  destruct (pascal_ends n Hn) as [P0 Pn].
  unfold GetBernstein.
  destruct (Z.gtb_spec (Z.of_nat i) (Z.of_nat n)) as [Hgt|_]; [lia|].
  destruct (Z.eqb_spec (Z.of_nat i) 0) as [Hi0|Hi0].
  - assert (i = 0)%nat by lia. subst i. rewrite Nat.sub_0_r in *.
    destruct (Qeq_bool t 0) eqn:E0.
    + apply Qeq_bool_iff in E0. rewrite P0, E0.
      change (0 ^ Z.of_nat 0) with 1.
      assert (E : 1 - 0 == 1) by ring. rewrite E, Qpower_1.
      unfold inject_Z. ring.
    + destruct (Qeq_bool t 1) eqn:E1; [|exact Hgen].
      apply Qeq_bool_iff in E1.
      assert (n <> 0)%nat by (intros ->; now apply Hdeg0).
      rewrite E1. assert (E : 1 - 1 == 0) by ring.
      rewrite E, Qpower_0 by lia. ring.
  - destruct (Z.eqb_spec (Z.of_nat i) (Z.of_nat n)) as [Hin|Hin]; [|exact Hgen].
    assert (i = n) by lia. subst i. rewrite Nat.sub_diag.
    change ((1 - t) ^ Z.of_nat 0) with 1. rewrite Pn.
    destruct (Qeq_bool t 0) eqn:E0.
    + apply Qeq_bool_iff in E0. rewrite E0, Qpower_0 by lia. ring.
    + destruct (Qeq_bool t 1) eqn:E1.
      * apply Qeq_bool_iff in E1. rewrite E1, Qpower_1. unfold inject_Z. ring.
      * unfold inject_Z. ring.
Qed.

Lemma BernsteinSum_one n t :
  (n <= MAX_EXACT_DEGREE)%nat -> (n = 0%nat -> ~ t == 1) -> BernsteinSum n t == 1.
Proof.
  intros Hn Hdeg0.
  change (BernsteinSum n t)
    with (qsum (fun i => GetBernstein (Z.of_nat n) (Z.of_nat i) t) (seq 0 (S n))).
  rewrite <- (pascal_row_sum n t (1 - t)) by ring.
  rewrite evalH_qsum, pascal_row_length.
  apply qsum_ext_in. intros i Hin. apply in_seq in Hin.
  rewrite GetBernstein_formula by (first [assumption | lia]).
  replace (S n - 1 - i)%nat with (n - i)%nat by lia. reflexivity.
Qed.

Lemma GetBernstein_nonneg n i t :
  0 <= t -> t <= 1 -> 0 <= GetBernstein (Z.of_nat n) (Z.of_nat i) t.
Proof.
  intros H0 H1.
  assert (Hgen : 0 <= inject_Z (Binomial (to_ushort (Z.of_nat n)) (to_ushort (Z.of_nat i)))
                      * t ^ Z.of_nat i * (1 - t) ^ (Z.of_nat n - Z.of_nat i)).
  { apply Qmult_le_0_compat; [apply Qmult_le_0_compat|].
    - change 0 with (inject_Z 0). rewrite <- Zle_Qle. apply Binomial_nonneg.
    - apply Qpower_0_le. exact H0.
    - apply Qpower_0_le. lra. }
  unfold GetBernstein.
  destruct (_ >? _)%Z; [apply Qle_refl|].
  destruct (_ =? 0)%Z.
  - destruct (Qeq_bool t 0); [discriminate|].
    destruct (Qeq_bool t 1); [apply Qle_refl | exact Hgen].
  - destruct (_ =? _)%Z; [|exact Hgen].
    destruct (Qeq_bool t 0); [apply Qle_refl|].
    destruct (Qeq_bool t 1); [discriminate|].
    apply Qpower_0_le. exact H0.
Qed.

(** C4 (as stated it fails). For degree 0 the routine returns 0 at
    [t = 1], so [B_n^n(1)] and the sum are 0 there; and for degree 68 the
    middle coefficients exceed 64 bits and wrap, so that the sum at
    [t = 1/2] is 9/16. *)
Lemma bernstein_degree_limits :
  GetBernstein 0 0 1 = 0 /\
  BernsteinSum 0 1 == 0 /\
  Binomial 68 34 = (28453041475240576740 - 2 ^ 64)%Z /\
  BernsteinSum 68 (1 # 2) == 9 # 16.
Proof. split; [|split; [|split]]; vm_compute; reflexivity. Qed.

(** C4 (amended). For [t] in [0,1], with an [unsigned long] of 64 bits:
    the basis values of a degree up to 67 sum to 1 (for degree 0, when [t]
    is not 1); every basis value of a degree the row buffer can hold is
    non-negative; and for a degree of at least 1 the four boundary values
    are exactly 1, 1, 0 and 0. *)
Theorem bernstein_partition_of_unity (n i : nat) (t : Q) :
  0 <= t -> t <= 1 ->
  ((n <= MAX_EXACT_DEGREE)%nat -> (n = 0%nat -> ~ t == 1) -> BernsteinSum n t == 1) /\
  ((n < 1000)%nat -> 0 <= GetBernstein (Z.of_nat n) (Z.of_nat i) t) /\
  ((1 <= n)%nat ->
   GetBernstein (Z.of_nat n) 0 0 = 1 /\
   GetBernstein (Z.of_nat n) (Z.of_nat n) 1 = 1 /\
   GetBernstein (Z.of_nat n) 0 1 = 0 /\
   GetBernstein (Z.of_nat n) (Z.of_nat n) 0 = 0).
Proof.
  intros H0 H1. split; [|split].
  - intros Hn Hd. now apply BernsteinSum_one.
  - intros _. now apply GetBernstein_nonneg.
  - intros Hn. unfold GetBernstein.
    destruct (Z.gtb_spec 0 (Z.of_nat n)) as [?|_]; [lia|].
    destruct (Z.gtb_spec (Z.of_nat n) (Z.of_nat n)) as [?|_]; [lia|].
    destruct (Z.eqb_spec (Z.of_nat n) 0) as [?|_]; [lia|].
    rewrite !Z.eqb_refl. repeat split.
Qed.

Lemma bernstein_partition_of_unity_witness :
  BernsteinSum 3 (1 # 2) == 1 /\
  0 <= GetBernstein 3 2 (1 # 2) /\
  GetBernstein 3 3 1 = 1.
Proof.
  destruct (bernstein_partition_of_unity 3 2 (1 # 2)) as (H1 & H2 & H3);
    [discriminate | discriminate |].
  split; [|split].
  - apply H1; [unfold MAX_EXACT_DEGREE; lia | discriminate].
  - apply H2. lia.
  - apply H3. lia.
Defined.

(** *** The Hessian *)

(** What [GetDerivative2] returns is twice the residual [F - xyz]. *)
Lemma GetDerivative2_residual box uvw xyz dim :
  (dim < nDim box)%nat ->
  GetDerivative2 box uvw dim xyz (Degrees box) = 2 * (F box uvw dim - coord xyz dim).
Proof.
  intros Hd. unfold GetDerivative2, F, EvalCartesianCoord.
  unfold coord at 5. rewrite nth_map_seq by exact Hd. reflexivity.
Qed.

Lemma Hessian_accumulate_3x3 box uvw xyz dim a0 a1 a2 b0 b1 b2 c0 c1 c2 :
  Hessian_accumulate box uvw xyz (Degrees box) [[a0; a1; a2]; [b0; b1; b2]; [c0; c1; c2]] dim
  = [[a0 + HessianTerm box uvw xyz dim 0 0; a1 + HessianTerm box uvw xyz dim 0 1;
      a2 + HessianTerm box uvw xyz dim 0 2];
     [b0; b1 + HessianTerm box uvw xyz dim 1 1; b2 + HessianTerm box uvw xyz dim 1 2];
     [c0; c1; c2 + HessianTerm box uvw xyz dim 2 2]].
Proof. reflexivity. Qed.

(** For a box of three dimensions and the 3x3 matrix allocated for it,
    the entry stored for the axes [i <= j] is the sum of the three
    contributions, and the entry below the diagonal is a copy of it. *)
Lemma GetFFDHessian_3x3 box uvw xyz H0 i j :
  nDim box = 3%nat -> length H0 = 3%nat -> Forall (fun row => length row = 3%nat) H0 ->
  (i <= j)%nat -> (j < 3)%nat ->
  mget (GetFFDHessian box uvw xyz H0) i j
  == qsum (fun dim => HessianTerm box uvw xyz dim i j) (seq 0 3) /\
  mget (GetFFDHessian box uvw xyz H0) j i = mget (GetFFDHessian box uvw xyz H0) i j.
Proof.
  intros Hd Hlen Hrows Hij Hj. unfold GetFFDHessian, qsum. rewrite Hd.
  destruct H0 as [|r0 [|r1 [|r2 [|]]]]; try discriminate Hlen.
  inversion Hrows as [|? ? Hr0 Hrows']; subst.
  inversion Hrows' as [|? ? Hr1 Hrows'']; subst.
  inversion Hrows'' as [|? ? Hr2 _]; subst.
  destruct r0 as [|a0 [|a1 [|a2 [|]]]]; try discriminate Hr0.
  destruct r1 as [|b0 [|b1 [|b2 [|]]]]; try discriminate Hr1.
  destruct r2 as [|c0 [|c1 [|c2 [|]]]]; try discriminate Hr2.
  cbn [imap Nat.ltb Nat.leb compose seq fold_left].
  rewrite !Hessian_accumulate_3x3.
  destruct i as [|[|[|i]]]; destruct j as [|[|[|j]]]; try lia;
    (split; [|reflexivity]);
    cbv [mset mget coord nth insert list_insert]; ring.
Qed.

(** *** Point inversion *)

Section PointInversionFacts.

Variable rand : nat -> Z.
Variable RAND_MAX : Z.
Variable box : CFreeFormDefBox.
Variable xyz : list Q.
Variable tol : Q.
Variable it_max : nat.

Let Body := Newton_Iteration rand RAND_MAX box xyz tol it_max.
Let Loop := External_Loop rand RAND_MAX box xyz tol it_max.

(** The external loop ends within the budget: with enough fuel it yields
    a result, the exit value of [iter] does not exceed
    [it_max * Random_Trials], and the body has run at most once for each
    value of [iter] it went through. *)
Lemma External_Loop_terminates fuel : forall iter executed st,
  (it_max * Random_Trials - iter < fuel)%nat ->
  exists iter' executed' st',
    Loop fuel iter executed st = Some (iter', executed', st') /\
    (iter <= it_max * Random_Trials -> iter' <= it_max * Random_Trials)%nat /\
    (executed' - executed <= it_max * Random_Trials - iter)%nat.
Proof.
  unfold Loop.
  induction fuel as [|fuel IH]; intros iter executed st Hfuel; [lia|].
  cbn [External_Loop].
  destruct (Nat.ltb_spec iter (it_max * Random_Trials)) as [Hlt|Hge].
  - destruct (Newton_Iteration rand RAND_MAX box xyz tol it_max iter st) as [st' stop].
    destruct stop.
    + exists iter, (S executed), st'. split; [reflexivity|]. split; lia.
    + destruct (IH (S iter) (S executed) st') as (i' & e' & s' & Hrun & Hi & He); [lia|].
      exists i', e', s'. split; [exact Hrun|]. split; lia.
  - exists iter, executed, st. split; [reflexivity|]. split; lia.
Qed.

(** Every stagnation event whose count is not exactly [Random_Trials]
    draws a new random guess and sets the relaxation factor to 0.1,
    whatever the count already is; the event whose count is exactly
    [Random_Trials] prints the diagnostic and draws nothing. In neither
    case does the loop stop. *)
Lemma stagnation_event iter st st' stop :
  Body iter st = (st', stop) ->
  RandonCounter st' <> RandonCounter st ->
  stop = false /\
  RandonCounter st' = incr_ushort (RandonCounter st) /\
  (RandonCounter st' <> Random_Trials ->
   restarts st' = S (restarts st) /\ SOR_Factor st' = 1 # 10 /\
   cout st' = cout st /\
   forall iDim, (iDim < nDim box)%nat -> (iDim < length (ParamCoord st))%nat ->
     nth iDim (ParamCoord st') 0 =
     inject_Z (rand (rand_calls st + iDim)%nat) / inject_Z RAND_MAX) /\
  (RandonCounter st' = Random_Trials ->
   restarts st' = restarts st /\
   exists m, cout st' = cout st ++ [UnknownPoint_MinError xyz m iter]).
Proof.
  unfold Body, Newton_Iteration. intros Hstep Hcount.
  destruct (_ && _ && _) in Hstep.
  { injection Hstep as <- <-. cbn in Hcount. contradiction. }
  destruct (_ || _) in Hstep.
  2:{ injection Hstep as <- <-. cbn in Hcount. contradiction. }
  destruct (Nat.eqb_spec (incr_ushort (RandonCounter st)) Random_Trials) as [E|E];
    injection Hstep as <- <-; cbn [RandonCounter restarts SOR_Factor cout ParamCoord];
    (split; [reflexivity|]); (split; [reflexivity|]); split; intros H; try contradiction.
  - split; [reflexivity|]. eexists. reflexivity.
  - split; [reflexivity|]. split; [reflexivity|]. split; [reflexivity|].
    intros iDim Hd Hl. unfold ForDims at 1.
    rewrite nth_imap by (unfold ForDims; rewrite length_imap; exact Hl).
    apply Nat.ltb_lt in Hd. now rewrite Hd.
Qed.

(** With one more unit of fuel than the budget the routine returns, and
    the loop body has run at most [it_max * Random_Trials] times. *)
Lemma GetParametricCoord_Iterative_returns ParamCoordGuess :
  exists r,
    GetParametricCoord_Iterative rand RAND_MAX box xyz tol it_max
      (S (it_max * Random_Trials)) ParamCoordGuess = Some r /\
    (iterations r <= it_max * Random_Trials)%nat.
Proof.
  unfold GetParametricCoord_Iterative.
  match goal with
  | |- context [External_Loop _ _ _ _ _ _ ?f ?i ?e ?s] =>
      destruct (External_Loop_terminates f i e s) as (i' & e' & s' & Hrun & _ & He);
        [lia|]
  end.
  unfold Loop in Hrun. rewrite Hrun. eexists. split; [reflexivity|].
  cbn [iterations]. lia.
Qed.

End PointInversionFacts.

(** C5 (the code departs from it). For the degree-(1,0,0) box, the target
    (10,0,0) and [nFFD_Iter = 2], every one of the 1000 iterations the
    budget allows is a stagnation event. The 500th prints the diagnostic
    without drawing a guess, and the loop goes on: the routine returns
    after 1000 iterations with 999 restarts, not with at most 500. *)
Theorem point_inversion_restarts_exceed_cap :
  match far_point_run with
  | Some r =>
      iterations r = 1000%nat /\
      restarts (final r) = 999%nat /\
      (Random_Trials < restarts (final r))%nat /\
      RandonCounter (final r) = 1000%nat /\
      match cout (final r) with
      | [UnknownPoint_MinError _ _ iter; UnknownPoint_IncreaseIterations _] =>
          iter = 499%nat
      | _ => False
      end
  | None => False
  end.
Proof. vm_compute. repeat split. apply Nat.lt_succ_r. auto 600 using le_n, le_S. Qed.

End FreeFormDefBox.

(* ================================================================== *)
(** * [CPoint]: agglomeration children and time levels                 *)
(* ================================================================== *)

Module ControlVolume.

(** The members of [CPoint] behind the accessors of this section: the
    dimension [nDim] shared by the dual-grid objects, the coordinates at
    the current and the two previous time levels, the array
    [double *Volume] of the control volume at the same three levels, and
    the vector [Children_CV] of the agglomerated children. *)
Record CPoint : Type := {
  nDim : nat;
  coord : list Q;
  Coord_n : list Q;
  Coord_n1 : list Q;
  Volume : list Q;
  Children_CV : list nat
}.

(** The loop [for (iDim = 0; iDim < nDim; iDim++) dst[iDim] = src[iDim];]. *)
Definition CopyDims (nDim : nat) (src dst : list Q) : list Q :=
  imap (fun iDim old => if (iDim <? nDim)%nat then nth iDim src 0 else old) dst.

(** [CPoint::SetCoord(double *val_coord)]. *)
Definition SetCoord (val_coord : list Q) (p : CPoint) : CPoint :=
  {| nDim := nDim p; coord := CopyDims (nDim p) val_coord (coord p);
     Coord_n := Coord_n p; Coord_n1 := Coord_n1 p;
     Volume := Volume p; Children_CV := Children_CV p |}.

(** [CPoint::SetCoord_n]: [Coord_n[iDim] = coord[iDim]]. *)
Definition SetCoord_n (p : CPoint) : CPoint :=
  {| nDim := nDim p; coord := coord p;
     Coord_n := CopyDims (nDim p) (coord p) (Coord_n p); Coord_n1 := Coord_n1 p;
     Volume := Volume p; Children_CV := Children_CV p |}.

(** [CPoint::SetCoord_n1]: [Coord_n1[iDim] = Coord_n[iDim]]. *)
Definition SetCoord_n1 (p : CPoint) : CPoint :=
  {| nDim := nDim p; coord := coord p;
     Coord_n := Coord_n p; Coord_n1 := CopyDims (nDim p) (Coord_n p) (Coord_n1 p);
     Volume := Volume p; Children_CV := Children_CV p |}.

Definition with_Volume (V : list Q) (p : CPoint) : CPoint :=
  {| nDim := nDim p; coord := coord p; Coord_n := Coord_n p; Coord_n1 := Coord_n1 p;
     Volume := V; Children_CV := Children_CV p |}.

(** [GetVolume], [GetVolume_n], [GetVolume_nM1]: [Volume[0]], [Volume[1]],
    [Volume[2]]. *)
Definition GetVolume (p : CPoint) : Q := nth 0 (Volume p) 0.
Definition GetVolume_n (p : CPoint) : Q := nth 1 (Volume p) 0.
Definition GetVolume_nM1 (p : CPoint) : Q := nth 2 (Volume p) 0.

(** [SetVolume]: [Volume[0] = val_Volume]; [AddVolume]: [Volume[0] += val_Volume]. *)
Definition SetVolume (val_Volume : Q) (p : CPoint) : CPoint :=
  with_Volume (<[0%nat := val_Volume]> (Volume p)) p.
Definition AddVolume (val_Volume : Q) (p : CPoint) : CPoint :=
  with_Volume (<[0%nat := nth 0 (Volume p) 0 + val_Volume]> (Volume p)) p.

(** [SetVolume_n]: [Volume[1] = Volume[0]]; [SetVolume_nM1]:
    [Volume[2] = Volume[1]]. *)
Definition SetVolume_n (p : CPoint) : CPoint :=
  with_Volume (<[1%nat := nth 0 (Volume p) 0]> (Volume p)) p.
Definition SetVolume_nM1 (p : CPoint) : CPoint :=
  with_Volume (<[2%nat := nth 1 (Volume p) 0]> (Volume p)) p.

(** [CPoint::SetChildren_CV]:
    [if (Children_CV.size() <= val_nchildren_CV) Children_CV.resize(val_nchildren_CV+1);
     Children_CV[val_nchildren_CV] = val_children_CV;]
    where [resize] fills the new places with zero. *)
Definition SetChildren_CV (val_nchildren_CV : nat) (val_children_CV : nat) (p : CPoint) : CPoint :=
  let grown :=
    if (length (Children_CV p) <=? val_nchildren_CV)%nat
    then resize (val_nchildren_CV + 1) 0%nat (Children_CV p)
    else Children_CV p in
  {| nDim := nDim p; coord := coord p; Coord_n := Coord_n p; Coord_n1 := Coord_n1 p;
     Volume := Volume p;
     Children_CV := <[val_nchildren_CV := val_children_CV]> grown |}.

(** [CPoint::GetChildren_CV]: [Children_CV[val_nchildren_CV]]. *)
Definition GetChildren_CV (val_nchildren_CV : nat) (p : CPoint) : nat :=
  nth val_nchildren_CV (Children_CV p) 0%nat.

(** A point with a history, for the concrete runs. *)
Definition aged_point : CPoint :=
  {| nDim := 2; coord := [1; 2; 0]; Coord_n := [3; 4; 0]; Coord_n1 := [5; 6; 0];
     Volume := [7; 8; 9]; Children_CV := [] |}.

(** ** Properties *)

Lemma nth_CopyDims nDim src dst k :
  (k < length dst)%nat ->
  nth k (CopyDims nDim src dst) 0 = if (k <? nDim)%nat then nth k src 0 else nth k dst 0.
Proof. intros Hk. unfold CopyDims. now rewrite nth_imap by exact Hk. Qed.

(** X1. Writing child [i] always succeeds: the vector grows to hold it, the
    places it gains in between read as zero, every other child is kept, and
    the child written is the one read back. *)
Theorem children_vector_grows (p : CPoint) (i child : nat) :
  let p' := SetChildren_CV i child p in
  GetChildren_CV i p' = child /\
  length (Children_CV p') = Nat.max (length (Children_CV p)) (i + 1) /\
  (forall j, j <> i -> (j < length (Children_CV p))%nat ->
             GetChildren_CV j p' = GetChildren_CV j p) /\
  (forall j, j <> i -> (length (Children_CV p) <= j)%nat -> GetChildren_CV j p' = 0%nat).
Proof.
  intros p'. unfold p', GetChildren_CV, SetChildren_CV. cbn [Children_CV].
  destruct (Nat.leb_spec (length (Children_CV p)) i) as [Hle|Hlt].
  - repeat split.
    + rewrite nth_lookup, list_lookup_insert_eq; [reflexivity|].
      rewrite length_resize. lia.
    + rewrite length_insert, length_resize. lia.
    + intros j Hj Hlen. rewrite !nth_lookup, list_lookup_insert_ne by congruence.
      rewrite lookup_resize by lia. reflexivity.
    + intros j Hj Hlen. rewrite !nth_lookup, list_lookup_insert_ne by congruence.
      destruct (Nat.lt_ge_cases j (i + 1)) as [Hin|Hout].
      * rewrite lookup_resize_new by lia. reflexivity.
      * rewrite lookup_resize_old by lia. reflexivity.
  - repeat split.
    + rewrite nth_lookup, list_lookup_insert_eq by lia. reflexivity.
    + rewrite length_insert. lia.
    + intros j Hj Hlen. rewrite !nth_lookup, list_lookup_insert_ne by congruence.
      reflexivity.
    + intros j Hj Hlen. rewrite !nth_lookup, list_lookup_insert_ne by congruence.
      rewrite lookup_ge_None_2 by lia. reflexivity.
Qed.

(** X2. The time levels are shifted oldest first: [SetVolume_nM1] then
    [SetVolume_n] keeps all three volumes, and [SetCoord_n1] then
    [SetCoord_n] all three positions; in the other order the value of level
    n is overwritten before it is saved, and level n-1 receives the current
    value. *)
Theorem time_levels_shift_oldest_first (p : CPoint) (V : Q) (X : list Q) :
  length (Volume p) = 3%nat ->
  (nDim p <= length (coord p))%nat ->
  (nDim p <= length (Coord_n p))%nat ->
  (nDim p <= length (Coord_n1 p))%nat ->
  let q := SetVolume V (SetVolume_n (SetVolume_nM1 p)) in
  let r := SetVolume_nM1 (SetVolume_n p) in
  let q' := SetCoord X (SetCoord_n (SetCoord_n1 p)) in
  let r' := SetCoord_n1 (SetCoord_n p) in
  (GetVolume q = V /\ GetVolume_n q = GetVolume p /\ GetVolume_nM1 q = GetVolume_n p) /\
  (GetVolume_n r = GetVolume p /\ GetVolume_nM1 r = GetVolume p) /\
  (forall iDim, (iDim < nDim p)%nat ->
     nth iDim (coord q') 0 = nth iDim X 0 /\
     nth iDim (Coord_n q') 0 = nth iDim (coord p) 0 /\
     nth iDim (Coord_n1 q') 0 = nth iDim (Coord_n p) 0 /\
     nth iDim (Coord_n r') 0 = nth iDim (coord p) 0 /\
     nth iDim (Coord_n1 r') 0 = nth iDim (coord p) 0).
Proof.
  intros HV Hc Hn Hn1 q r q' r'.
  destruct p as [nD c cn cn1 Vol ch]. cbn [Volume coord Coord_n Coord_n1 nDim] in *.
  destruct Vol as [|v0 [|v1 [|v2 [|]]]]; try discriminate HV.
  split; [|split].
  - repeat split.
  - repeat split.
  - intros iDim Hi. apply Nat.ltb_lt in Hi as Hi'.
    unfold q', r', SetCoord, SetCoord_n, SetCoord_n1.
    cbn [Volume coord Coord_n Coord_n1 nDim].
    rewrite !nth_CopyDims by (unfold CopyDims; rewrite ?length_imap; lia).
    rewrite Hi'. repeat split.
Qed.

Lemma time_levels_shift_oldest_first_witness :
  let r := SetVolume_nM1 (SetVolume_n aged_point) in
  GetVolume_n r = 7 /\ GetVolume_nM1 r = 7.
Proof.
  exact (proj1 (proj2 (time_levels_shift_oldest_first aged_point 0 [0; 0]
                         eq_refl ltac:(cbn; lia) ltac:(cbn; lia) ltac:(cbn; lia)))).
Defined.

End ControlVolume.

(* ================================================================== *)
(** * [CVolumetricMovement]: updating and checking the grid            *)
(* ================================================================== *)

Module GridUpdate.

Import VolumetricMovement.

(** The members of [CVolumetricMovement] that [UpdateGridCoord] reads:
    the dimension, the number of points and the solution of the linear
    system, indexed by [iPoint*nDim + iDim]. *)
Record CVolumetricMovement : Type := {
  nDim : nat;
  nPoint : nat;
  LinSysSol : list Q
}.

Definition Qlt_bool (x y : Q) : bool := negb (Qle_bool y x).

(** The body of the two loops of [UpdateGridCoord]:
    [new_coord = GetCoord(iDim) + LinSysSol[total_index];
     if (fabs(new_coord) < EPS*EPS) new_coord = 0.0;] *)
Definition new_coord (EPS : Q) (this : CVolumetricMovement) (iPoint iDim : nat) (old : Q) : Q :=
  let total_index := (iPoint * nDim this + iDim)%nat in
  let new_coord := old + nth total_index (LinSysSol this) 0 in
  if Qlt_bool (Qabs new_coord) (EPS * EPS) then 0 else new_coord.

Definition UpdateGridCoord (EPS : Q) (this : CVolumetricMovement) (geometry : CGeometry) :
    CGeometry :=
  {| GetnDim := GetnDim geometry;
     node :=
       imap (fun iPoint Coord =>
               if (iPoint <? nPoint this)%nat
               then imap (fun iDim old =>
                            if (iDim <? nDim this)%nat
                            then new_coord EPS this iPoint iDim old else old) Coord
               else Coord)
            (node geometry);
     elem := elem geometry |}.

(** The corners of an element moved by the vector [d]. *)
Definition Translate (nDim : nat) (d : list Q) (CoordCorners : list (list Q)) : list (list Q) :=
  map (fun Coord => map (fun iDim => coord Coord iDim + coord d iDim) (seq 0 nDim))
      CoordCorners.

(** A 2D mesh whose two elements are both listed clockwise. *)
Definition clockwise_mesh : CGeometry :=
  {| GetnDim := 2;
     node := [ [0;0]; [1;0]; [1;1]; [0;1] ];
     elem := [ {| GetVTK_Type := TRIANGLE; Nodes := [0;2;1]%nat |};
               {| GetVTK_Type := RECTANGLE; Nodes := [0;3;2;1]%nat |} ] |}.

(** ** Properties *)

Lemma Qlt_bool_iff x y : Qlt_bool x y = true <-> x < y.
Proof.
  unfold Qlt_bool. rewrite negb_true_iff. split.
  - intros H. apply Qnot_le_lt. intros Hle. apply Qle_bool_iff in Hle. congruence.
  - intros H. destruct (Qle_bool y x) eqn:E; [|reflexivity].
    apply Qle_bool_iff in E. exfalso. apply (Qlt_not_le _ _ H E).
Qed.

Lemma GetCoord_UpdateGridCoord EPS this geometry iPoint iDim :
  (iPoint < length (node geometry))%nat ->
  (iDim < length (nth iPoint (node geometry) []))%nat ->
  GetCoord (UpdateGridCoord EPS this geometry) iPoint iDim =
  if (iPoint <? nPoint this)%nat && (iDim <? nDim this)%nat
  then new_coord EPS this iPoint iDim (GetCoord geometry iPoint iDim)
  else GetCoord geometry iPoint iDim.
Proof.
  intros HP HD. unfold GetCoord, UpdateGridCoord, coord. cbn [node].
  rewrite (nth_imap _ _ [] iPoint HP).
  destruct (iPoint <? nPoint this)%nat; [|reflexivity]. cbn [andb].
  rewrite (nth_imap _ _ 0 iDim HD). reflexivity.
Qed.

(** X3. [UpdateGridCoord] adds entry [iPoint*nDim + iDim] of the solution to
    coordinate [iDim] of node [iPoint], except that a sum of magnitude below
    [EPS*EPS] is stored as zero: no coordinate it writes is left strictly
    between zero and [EPS*EPS] in magnitude. Nodes at or beyond [nPoint],
    the dimension and the elements are not touched. *)
Theorem update_grid_coord_snaps_to_zero
  (EPS : Q) (this : CVolumetricMovement) (geometry : CGeometry) (iPoint iDim : nat) :
  (iPoint < length (node geometry))%nat ->
  (iDim < length (nth iPoint (node geometry) []))%nat ->
  let moved := GetCoord geometry iPoint iDim
               + nth (iPoint * nDim this + iDim) (LinSysSol this) 0 in
  let after := GetCoord (UpdateGridCoord EPS this geometry) iPoint iDim in
  ((iPoint < nPoint this)%nat -> (iDim < nDim this)%nat ->
     (Qabs moved < EPS * EPS -> after = 0) /\
     (EPS * EPS <= Qabs moved -> after = moved) /\
     (after == 0 \/ EPS * EPS <= Qabs after)) /\
  ((nPoint this <= iPoint)%nat \/ (nDim this <= iDim)%nat ->
     after = GetCoord geometry iPoint iDim) /\
  GetnDim (UpdateGridCoord EPS this geometry) = GetnDim geometry /\
  elem (UpdateGridCoord EPS this geometry) = elem geometry.
Proof.
  intros HP HD moved after. unfold after.
  rewrite (GetCoord_UpdateGridCoord EPS this geometry iPoint iDim HP HD).
  split; [|split; [|split; reflexivity]].
  - intros HnP HnD. apply Nat.ltb_lt in HnP, HnD. rewrite HnP, HnD. cbn [andb].
    unfold new_coord. fold moved.
    destruct (Qlt_bool (Qabs moved) (EPS * EPS)) eqn:E.
    + apply Qlt_bool_iff in E. split; [reflexivity|]. split.
      * intros H. exfalso. apply (Qlt_not_le _ _ E H).
      * left. reflexivity.
    + assert (Hge : EPS * EPS <= Qabs moved).
      { apply Qnot_lt_le. intros H. apply Qlt_bool_iff in H. congruence. }
      split; [|split].
      * intros H. exfalso. apply (Qlt_not_le _ _ H Hge).
      * reflexivity.
      * right. exact Hge.
  - intros [H|H]; apply Nat.ltb_ge in H; rewrite H; [reflexivity|].
    now rewrite andb_false_r.
Qed.

Lemma update_grid_coord_snaps_to_zero_witness :
  GetCoord (UpdateGridCoord (1#10)
              {| nDim := 2; nPoint := 1; LinSysSol := [-(999#1000); 1] |}
              {| GetnDim := 2; node := [[1; 0]]; elem := [] |}) 0 0 = 0.
Proof.
  refine (proj1 (proj1 (update_grid_coord_snaps_to_zero (1#10)
              {| nDim := 2; nPoint := 1; LinSysSol := [-(999#1000); 1] |}
              {| GetnDim := 2; node := [[1; 0]]; elem := [] |} 0 0 _ _) _ _) _);
    cbn; try lia; reflexivity.
Defined.

(** *** [Check_Grid] on a 2D mesh *)

Lemma HalfCross_nonneg nDim a b c : 0 <= HalfCross nDim a b c.
Proof.
  unfold HalfCross. apply Qmult_le_0_compat; [discriminate | apply Qabs_nonneg].
Qed.

Lemma GetTriangle_Area_nonneg nDim C : 0 <= GetTriangle_Area nDim C.
Proof. unfold GetTriangle_Area. apply HalfCross_nonneg. Qed.

Lemma GetRectangle_Area_nonneg nDim C : 0 <= GetRectangle_Area nDim C.
Proof.
  unfold GetRectangle_Area.
  pose proof (HalfCross_nonneg nDim (corner C 0) (corner C 1) (corner C 2)).
  pose proof (HalfCross_nonneg nDim (corner C 0) (corner C 2) (corner C 3)).
  lra.
Qed.

Section Check2D.

Variable EPS : Q.
Hypothesis EPS_nonneg : 0 <= EPS.

(** What the loop of [Check_Grid] keeps true on a 2D mesh. *)
Definition flat_invariant (s : CheckState) : Prop :=
  cs_ElemCounter s = 0%nat /\ 0 <= cs_Area s /\ 0 <= cs_MinArea s.

Lemma Check_Elem_2D geometry s e :
  GetnDim geometry = 2%nat -> flat_invariant s -> flat_invariant (Check_Elem EPS geometry s e).
Proof.
  intros HD (Hc & HA & HM). unfold Check_Elem. rewrite HD. cbn [Nat.eqb].
  set (nNodes := match GetVTK_Type e with
                 | TRIANGLE => 3 | RECTANGLE => 4 | TETRAHEDRON => 4
                 | PYRAMID => 5 | WEDGE => 6 | HEXAHEDRON => 8
                 | OTHER_VTK => cs_nNodes s end%nat).
  set (CoordCorners := LoadCorners geometry e nNodes).
  set (Area := if (nNodes =? 3)%nat then GetTriangle_Area 2 CoordCorners
               else if (nNodes =? 4)%nat then GetRectangle_Area 2 CoordCorners
               else cs_Area s).
  assert (HArea : 0 <= Area).
  { unfold Area. destruct (nNodes =? 3)%nat; [apply GetTriangle_Area_nonneg|].
    destruct (nNodes =? 4)%nat; [apply GetRectangle_Area_nonneg | exact HA]. }
  cbn [cs_RightVol].
  assert (HR : right_measure EPS Area = true).
  { unfold right_measure. apply Qle_bool_iff. lra. }
  rewrite HR. unfold flat_invariant. cbn [cs_ElemCounter cs_Area cs_MinArea].
  split; [exact Hc|]. split; [exact HArea|].
  apply Q.min_glb; assumption.
Qed.

Lemma Check_fold_2D geometry l s :
  GetnDim geometry = 2%nat -> flat_invariant s ->
  flat_invariant (fold_left (Check_Elem EPS geometry) l s).
Proof.
  intros HD. revert s. induction l as [|e l IH]; intros s Hs; [exact Hs|].
  cbn [fold_left]. apply IH. now apply Check_Elem_2D.
Qed.

End Check2D.

(** X4. In two dimensions [Check_Grid] never reports an element: the areas
    are magnitudes, so with a non-negative [EPS] the test [Area >= -EPS]
    holds for every element, in whatever order its corners are listed; the
    count is zero, nothing is printed and the minimum returned is not
    negative. *)
Theorem check_grid_2D_never_reports (EPS : Q) (geometry : CGeometry) :
  0 <= EPS -> GetnDim geometry = 2%nat ->
  exists MinArea, Check_Grid EPS geometry = ([], 0%nat, MinArea) /\ 0 <= MinArea.
Proof.
  intros HE HD. unfold Check_Grid, Check_Loop. rewrite HD. cbn [Nat.eqb].
  destruct (Check_fold_2D EPS HE geometry (elem geometry) CheckState_init HD)
    as (Hc & _ & HM).
  { repeat split; cbn; [lra | discriminate]. }
  rewrite Hc. cbn [Nat.eqb]. eexists. split; [reflexivity | exact HM].
Qed.

Lemma check_grid_2D_never_reports_witness :
  exists MinArea, Check_Grid EPS_sample clockwise_mesh = ([], 0%nat, MinArea) /\ 0 <= MinArea.
Proof.
  apply (check_grid_2D_never_reports EPS_sample clockwise_mesh); [discriminate | reflexivity].
Defined.

(** *** Translation of an element *)

Lemma coord_Translate nDim d C iNode iDim :
  (iNode < length C)%nat -> (iDim < nDim)%nat ->
  coord (corner (Translate nDim d C) iNode) iDim = coord (corner C iNode) iDim + coord d iDim.
Proof.
  intros HN HD. unfold corner, Translate.
  rewrite (nth_indep _ [] (map (fun iDim => coord [] iDim + coord d iDim) (seq 0 nDim)))
    by (rewrite length_map; exact HN).
  rewrite (map_nth (fun Coord => map (fun iDim => coord Coord iDim + coord d iDim) (seq 0 nDim))).
  unfold coord at 1. now rewrite nth_map_seq by exact HD.
Qed.

Lemma coord_diff nDim p q k :
  (k < nDim)%nat -> coord (diff nDim p q) k = coord p k - coord q k.
Proof. intros Hk. unfold diff, coord at 1. now rewrite nth_map_seq by exact Hk. Qed.

Lemma HalfCross_Translate d C i j k :
  (i < length C)%nat -> (j < length C)%nat -> (k < length C)%nat ->
  HalfCross 2 (corner (Translate 2 d C) i) (corner (Translate 2 d C) j)
              (corner (Translate 2 d C) k)
  == HalfCross 2 (corner C i) (corner C j) (corner C k).
Proof.
  intros Hi Hj Hk. unfold HalfCross. cbv zeta.
  rewrite !coord_diff, !coord_Translate by (assumption || lia).
  apply Qmult_comp; [reflexivity|]. apply Qabs_wd. ring.
Qed.

Lemma SubTetra_Translate d C i j k l :
  (i < length C)%nat -> (j < length C)%nat -> (k < length C)%nat -> (l < length C)%nat ->
  SubTetra 3 (Translate 3 d C) i j k l == SubTetra 3 C i j k l.
Proof.
  intros Hi Hj Hk Hl. unfold SubTetra, TripleProduct6. cbv zeta.
  rewrite !coord_diff, !coord_Translate by (assumption || lia).
  field.
Qed.

(** X5. Moving all corners of an element by the same vector changes none of
    the six measures: the triangle and rectangle areas in 2D, and the
    tetrahedron, pyramid, wedge and hexahedron volumes in 3D. *)
Theorem measures_translation_invariant (d : list Q) (C : list (list Q)) :
  ((3 <= length C)%nat ->
     (GetTriangle_Area 2 (Translate 2 d C) == GetTriangle_Area 2 C)) /\
  ((4 <= length C)%nat ->
     (GetRectangle_Area 2 (Translate 2 d C) == GetRectangle_Area 2 C) /\
     (GetTetra_Volume 3 (Translate 3 d C) == GetTetra_Volume 3 C)) /\
  ((5 <= length C)%nat ->
     (GetPyram_Volume 3 (Translate 3 d C) == GetPyram_Volume 3 C)) /\
  ((6 <= length C)%nat ->
     (GetWedge_Volume 3 (Translate 3 d C) == GetWedge_Volume 3 C)) /\
  ((8 <= length C)%nat ->
     (GetHexa_Volume 3 (Translate 3 d C) == GetHexa_Volume 3 C)).
Proof.
  unfold GetTriangle_Area, GetRectangle_Area, GetTetra_Volume, GetPyram_Volume,
    GetWedge_Volume, GetHexa_Volume. cbv zeta.
  repeat split; intros;
    rewrite ?HalfCross_Translate, ?SubTetra_Translate by lia; reflexivity.
Qed.

Lemma measures_translation_invariant_witness :
  GetHexa_Volume 3 (Translate 3 [5; -3; 2] unit_cube) == GetHexa_Volume 3 unit_cube.
Proof.
  apply (proj2 (proj2 (proj2 (proj2 (measures_translation_invariant [5; -3; 2] unit_cube))))).
  cbn. lia.
Defined.

End GridUpdate.

(* ================================================================== *)
(** * [CVolumetricMovement]: finite-element shape functions            *)
(* ================================================================== *)

Module ShapeFunctions.

Import VolumetricMovement.

Local Abbreviation mget := FreeFormDefBox.mget.
Local Abbreviation mset := FreeFormDefBox.mset.
Local Abbreviation qsum := FreeFormDefBox.qsum.

(** ** The part the six routines share

    After the shape functions and their derivatives with respect to the
    natural coordinates are stored in [DShapeFunction], every routine runs
    the same four blocks, with its own number of nodes: the Jacobian, its
    adjoint, its determinant and inverse, and the change of the derivatives
    to global coordinates. *)

(** [xs[i][j] = 0.0; for (k < nNodes) xs[i][j] = xs[i][j]+CoordCorners[k][j]*DShapeFunction[k][i];]
    for [i, j < nVar]. *)
Definition Jacobian (nVar nNodes : nat) (CoordCorners DShapeFunction : list (list Q)) :
    list (list Q) :=
  map (fun i =>
         map (fun j =>
                fold_left (fun xs_ij k =>
                             xs_ij + mget CoordCorners k j * mget DShapeFunction k i)
                          (seq 0 nNodes) 0)
             (seq 0 nVar))
      (seq 0 nVar).

(** [xs[i][j] = ad[i][j]/xsj] for [i, j < nVar]. *)
Definition Inverse (nVar : nat) (ad : list (list Q)) (xsj : Q) : list (list Q) :=
  map (fun i => map (fun j => mget ad i j / xsj) (seq 0 nVar)) (seq 0 nVar).

(** The last loop of the 2D routines: [c0] and [c1] replace the
    derivatives of node [k]. *)
Definition ToGlobal2D (nNodes : nat) (xs DShapeFunction : list (list Q)) : list (list Q) :=
  fold_left
    (fun D k =>
       let c0 := mget xs 0 0 * mget D k 0 + mget xs 0 1 * mget D k 1 in
       let c1 := mget xs 1 0 * mget D k 0 + mget xs 1 1 * mget D k 1 in
       let D := mset D k 0 c0 in
       mset D k 1 c1)
    (seq 0 nNodes) DShapeFunction.

(** The last loop of the 3D routines. *)
Definition ToGlobal3D (nNodes : nat) (xs DShapeFunction : list (list Q)) : list (list Q) :=
  fold_left
    (fun D k =>
       let c0 := mget xs 0 0 * mget D k 0 + mget xs 0 1 * mget D k 1 + mget xs 0 2 * mget D k 2 in
       let c1 := mget xs 1 0 * mget D k 0 + mget xs 1 1 * mget D k 1 + mget xs 1 2 * mget D k 2 in
       let c2 := mget xs 2 0 * mget D k 0 + mget xs 2 1 * mget D k 1 + mget xs 2 2 * mget D k 2 in
       let D := mset D k 0 c0 in
       let D := mset D k 1 c1 in
       mset D k 2 c2)
    (seq 0 nNodes) DShapeFunction.

(** The four blocks in 2D; the value is [(xsj, DShapeFunction)]. *)
Definition Transform2D (nNodes : nat) (CoordCorners DShapeFunction : list (list Q)) :
    Q * list (list Q) :=
  let xs := Jacobian 2 nNodes CoordCorners DShapeFunction in
  let ad := [[mget xs 1 1; - mget xs 0 1]; [- mget xs 1 0; mget xs 0 0]] in
  let xsj := mget ad 0 0 * mget ad 1 1 - mget ad 0 1 * mget ad 1 0 in
  let xs := Inverse 2 ad xsj in
  (xsj, ToGlobal2D nNodes xs DShapeFunction).

(** The four blocks in 3D. The nine assignments to [ad] and the one to
    [xsj] are those of the point inversion of the deformation box. *)
Definition Transform3D (nNodes : nat) (CoordCorners DShapeFunction : list (list Q)) :
    Q * list (list Q) :=
  let xs := Jacobian 3 nNodes CoordCorners DShapeFunction in
  let ad := FreeFormDefBox.Adjugate xs in
  let xsj := FreeFormDefBox.Determinant_of xs ad in
  let xs := Inverse 3 ad xsj in
  (xsj, ToGlobal3D nNodes xs DShapeFunction).

(** ** The six routines *)

(** Row [k] of [DShapeFunction] in 2D: the derivatives with respect to
    [Xi] and [Eta] and the shape function itself (column 3). *)
Definition SetNode2D (D : list (list Q)) (k : nat) (dXi dEta N : Q) : list (list Q) :=
  mset (mset (mset D k 3 N) k 0 dXi) k 1 dEta.

Definition SetNode3D (D : list (list Q)) (k : nat) (dXi dEta dMu N : Q) : list (list Q) :=
  mset (mset (mset (mset D k 3 N) k 0 dXi) k 1 dEta) k 2 dMu.

Definition ShapeFunc_Triangle (Xi Eta : Q) (CoordCorners DShapeFunction : list (list Q)) :
    Q * list (list Q) :=
  let D := DShapeFunction in
  let D := SetNode2D D 0 (-1) (-1) (1 - Xi - Eta) in
  let D := SetNode2D D 1 1 0 Xi in
  let D := SetNode2D D 2 0 1 Eta in
  Transform2D 3 CoordCorners D.

Definition ShapeFunc_Rectangle (Xi Eta : Q) (CoordCorners DShapeFunction : list (list Q)) :
    Q * list (list Q) :=
  let D := DShapeFunction in
  let D := SetNode2D D 0 (-(1#4)*(1 - Eta)) (-(1#4)*(1 - Xi)) ((1#4)*(1 - Xi)*(1 - Eta)) in
  let D := SetNode2D D 1 ((1#4)*(1 - Eta)) (-(1#4)*(1 + Xi)) ((1#4)*(1 + Xi)*(1 - Eta)) in
  let D := SetNode2D D 2 ((1#4)*(1 + Eta)) ((1#4)*(1 + Xi)) ((1#4)*(1 + Xi)*(1 + Eta)) in
  let D := SetNode2D D 3 (-(1#4)*(1 + Eta)) ((1#4)*(1 - Xi)) ((1#4)*(1 - Xi)*(1 + Eta)) in
  Transform2D 4 CoordCorners D.

Definition ShapeFunc_Tetra (Xi Eta Mu : Q) (CoordCorners DShapeFunction : list (list Q)) :
    Q * list (list Q) :=
  let D := DShapeFunction in
  let D := SetNode3D D 0 1 0 0 Xi in
  let D := SetNode3D D 1 0 1 0 Eta in
  let D := SetNode3D D 2 0 0 1 Mu in
  let D := SetNode3D D 3 (-1) (-1) (-1) (1 - Xi - Eta - Mu) in
  Transform3D 4 CoordCorners D.

Definition ShapeFunc_Pyram (Xi Eta Mu : Q) (CoordCorners DShapeFunction : list (list Q)) :
    Q * list (list Q) :=
  let Den := 4 * (1 - Mu) in
  let D := DShapeFunction in
  let D := SetNode3D D 0
             ((1#2) + ((1#2)*Xi)/(1 - Mu))
             (((1#2)*Eta)/(-1 + Mu))
             ((-(1#4) - (1#4)*Eta*Eta + ((1#2) - (1#4)*Mu)*Mu + (1#4)*Xi*Xi)
              /((-1 + Mu)*(-1 + Mu)))
             ((-Xi + Eta + Mu - 1)*(-Xi - Eta + Mu - 1)/Den) in
  let D := SetNode3D D 1
             (((1#2)*Xi)/(-1 + Mu))
             ((-(1#2) - (1#2)*Eta + (1#2)*Mu)/(-1 + Mu))
             ((-(1#4) + (1#4)*Eta*Eta + ((1#2) - (1#4)*Mu)*Mu - (1#4)*Xi*Xi)
              /((-1 + Mu)*(-1 + Mu)))
             ((-Xi - Eta + Mu - 1)*(Xi - Eta + Mu - 1)/Den) in
  let D := SetNode3D D 2
             (-(1#2) + ((1#2)*Xi)/(1 - 1*Mu))
             (((1#2)*Eta)/(-1 + Mu))
             ((-(1#4) - (1#4)*Eta*Eta + ((1#2) - (1#4)*Mu)*Mu + (1#4)*Xi*Xi)
              /((-1 + Mu)*(-1 + Mu)))
             ((Xi + Eta + Mu - 1)*(Xi - Eta + Mu - 1)/Den) in
  let D := SetNode3D D 3
             (((1#2)*Xi)/(-1 + Mu))
             (((1#2) - (1#2)*Eta - (1#2)*Mu)/(-1 + Mu))
             ((-(1#4) + (1#4)*Eta*Eta + ((1#2) - (1#4)*Mu)*Mu - (1#4)*Xi*Xi)
              /((-1 + Mu)*(-1 + Mu)))
             ((Xi + Eta + Mu - 1)*(-Xi + Eta + Mu - 1)/Den) in
  let D := SetNode3D D 4 0 0 1 Mu in
  Transform3D 5 CoordCorners D.

Definition ShapeFunc_Wedge (Xi Eta Mu : Q) (CoordCorners DShapeFunction : list (list Q)) :
    Q * list (list Q) :=
  let D := DShapeFunction in
  let D := SetNode3D D 0 (-(1#2)*Eta) ((1#2)*(1 - Xi)) 0 ((1#2)*Eta*(1 - Xi)) in
  let D := SetNode3D D 1 (-(1#2)*Mu) 0 ((1#2)*(1 - Xi)) ((1#2)*Mu*(1 - Xi)) in
  let D := SetNode3D D 2 (-(1#2)*(1 - Eta - Mu)) (-(1#2)*(1 - Xi)) (-(1#2)*(1 - Xi))
                         ((1#2)*(1 - Eta - Mu)*(1 - Xi)) in
  let D := SetNode3D D 3 ((1#2)*Eta) ((1#2)*(Xi + 1)) 0 ((1#2)*Eta*(Xi + 1)) in
  let D := SetNode3D D 4 ((1#2)*Mu) 0 ((1#2)*(Xi + 1)) ((1#2)*Mu*(Xi + 1)) in
  let D := SetNode3D D 5 ((1#2)*(1 - Eta - Mu)) (-(1#2)*(Xi + 1)) (-(1#2)*(Xi + 1))
                         ((1#2)*(1 - Eta - Mu)*(Xi + 1)) in
  Transform3D 6 CoordCorners D.

(** The sign tables [s0], [s1], [s2] of [ShapeFunc_Hexa]. *)
Definition s0 : list Q := [-(1#2); 1#2; 1#2; -(1#2); -(1#2); 1#2; 1#2; -(1#2)].
Definition s1 : list Q := [-(1#2); -(1#2); 1#2; 1#2; -(1#2); -(1#2); 1#2; 1#2].
Definition s2 : list Q := [-(1#2); -(1#2); -(1#2); -(1#2); 1#2; 1#2; 1#2; 1#2].

Definition ShapeFunc_Hexa (Xi Eta Mu : Q) (CoordCorners DShapeFunction : list (list Q)) :
    Q * list (list Q) :=
  let ss := [Xi; Eta; Mu] in
  let D :=
    fold_left
      (fun D i =>
         let a0 := (1#2) + coord s0 i * coord ss 0 in
         let a1 := (1#2) + coord s1 i * coord ss 1 in
         let a2 := (1#2) + coord s2 i * coord ss 2 in
         let D := mset D i 0 (coord s0 i * a1 * a2) in
         let D := mset D i 1 (coord s1 i * a0 * a2) in
         let D := mset D i 2 (coord s2 i * a0 * a1) in
         mset D i 3 (a0 * a1 * a2))
      (seq 0 8) DShapeFunction in
  Transform3D 8 CoordCorners D.

(** ** Notions used to state the properties *)

(** [M] has [r] rows of [c] entries, as an array [double M[r][c]]. *)
Definition is_matrix (r c : nat) (M : list (list Q)) : Prop :=
  length M = r /\ Forall (fun row => length row = c) M.

(** The array [DShapeFunction[8][4]] as the stiffness routines declare it. *)
Definition DShapeFunction_init : list (list Q) := replicate 8 (replicate 4 0).

(** The sum over the nodes of the shape functions (column 3), and of the
    derivatives with respect to global coordinate [j]. *)
Definition ShapeSum (nNodes : nat) (r : Q * list (list Q)) : Q :=
  qsum (fun k => mget r.2 k 3) (seq 0 nNodes).

Definition GradSum (nNodes j : nat) (r : Q * list (list Q)) : Q :=
  qsum (fun k => mget r.2 k j) (seq 0 nNodes).

(** The derivative with respect to global coordinate [j] of the field that
    interpolates coordinate [i] of the corners. *)
Definition CoordGrad (nNodes i j : nat) (CoordCorners : list (list Q))
    (r : Q * list (list Q)) : Q :=
  qsum (fun k => mget CoordCorners k i * mget r.2 k j) (seq 0 nNodes).

Definition delta (i j : nat) : Q := if (i =? j)%nat then 1 else 0.

(** ** Properties *)

Lemma mset_is_matrix r c M i j x : is_matrix r c M -> is_matrix r c (mset M i j x).
Proof.
  intros [HL HF]. unfold FreeFormDefBox.mset.
  destruct (Nat.lt_ge_cases i (length M)) as [Hi|Hi].
  - split; [now rewrite length_insert|].
    apply Forall_insert; [exact HF|]. rewrite length_insert.
    destruct (lookup_lt_is_Some_2 M i Hi) as [row Hrow].
    rewrite (nth_lookup M), Hrow. exact (Forall_lookup_1 _ _ _ _ HF Hrow).
  - rewrite list_insert_ge by exact Hi. now split.
Qed.

Lemma SetNode2D_is_matrix r c D k a b N :
  is_matrix r c D -> is_matrix r c (SetNode2D D k a b N).
Proof. intros H. unfold SetNode2D. now repeat apply mset_is_matrix. Qed.

Lemma SetNode3D_is_matrix r c D k a b e N :
  is_matrix r c D -> is_matrix r c (SetNode3D D k a b e N).
Proof. intros H. unfold SetNode3D. now repeat apply mset_is_matrix. Qed.

(** An [8 x 4] array is a list of eight rows of four entries. *)
Ltac shape_rows HF :=
  repeat match goal with
  | H : Forall _ (?r :: _) |- _ =>
      let Hr := fresh "Hr" in
      apply Forall_cons_1 in H as [Hr H];
      destruct r as [|? [|? [|? [|? [|]]]]]; try discriminate Hr; clear Hr
  end.

Ltac shape D H :=
  let HL := fresh "HL" in let HF := fresh "HF" in
  destruct H as [HL HF];
  destruct D as [|? [|? [|? [|? [|? [|? [|? [|? [|]]]]]]]]]; try discriminate HL;
  clear HL; shape_rows HF; clear HF.

Ltac arrays :=
  cbv [fst snd ToGlobal2D ToGlobal3D SetNode2D SetNode3D Inverse
       FreeFormDefBox.mset FreeFormDefBox.mget FreeFormDefBox.qsum coord
       fold_left seq map nth insert list_insert s0 s1 s2].

(** The adjoint over the determinant is the inverse. *)
Lemma Inverse3_left (x00 x01 x02 x10 x11 x12 x20 x21 x22 : Q) (i j : nat) :
  let xs := [[x00; x01; x02]; [x10; x11; x12]; [x20; x21; x22]] in
  let ad := FreeFormDefBox.Adjugate xs in
  let xsj := FreeFormDefBox.Determinant_of xs ad in
  (i < 3)%nat -> (j < 3)%nat -> ~ xsj == 0 ->
  mget ad j 0 / xsj * mget xs 0 i + mget ad j 1 / xsj * mget xs 1 i
  + mget ad j 2 / xsj * mget xs 2 i == delta i j.
Proof.
  intros xs ad xsj Hi Hj Hx. revert Hx. unfold xsj, ad, xs, delta.
  unfold FreeFormDefBox.Determinant_of, FreeFormDefBox.Adjugate.
  destruct i as [|[|[|i]]]; try lia; destruct j as [|[|[|j]]]; try lia;
    cbn [FreeFormDefBox.mget coord nth Nat.eqb]; intros Hx; field; exact Hx.
Qed.

(** The entries of the Jacobian. *)
Lemma Jacobian_entry nVar nNodes C D i j :
  (i < nVar)%nat -> (j < nVar)%nat ->
  mget (Jacobian nVar nNodes C D) i j =
  fold_left (fun xs_ij k => xs_ij + mget C k j * mget D k i) (seq 0 nNodes) 0.
Proof.
  intros Hi Hj. unfold Jacobian, FreeFormDefBox.mget at 1, coord.
  rewrite (nth_indep _ [] (map (fun j => fold_left (fun xs_ij k =>
             xs_ij + mget C k j * mget D k 0%nat) (seq 0 nNodes) 0) (seq 0 nVar)))
    by (rewrite length_map, length_seq; exact Hi).
  rewrite (map_nth (fun i => map (fun j => fold_left (fun xs_ij k =>
             xs_ij + mget C k j * mget D k i) (seq 0 nNodes) 0) (seq 0 nVar))).
  rewrite seq_nth by exact Hi.
  rewrite nth_map_seq by exact Hj. reflexivity.
Qed.

Lemma Jacobian3_shape nNodes C D :
  exists x00 x01 x02 x10 x11 x12 x20 x21 x22,
    Jacobian 3 nNodes C D = [[x00; x01; x02]; [x10; x11; x12]; [x20; x21; x22]].
Proof. unfold Jacobian. cbn [seq map]. repeat eexists. Qed.

Lemma Jacobian2_shape nNodes C D :
  exists x00 x01 x10 x11, Jacobian 2 nNodes C D = [[x00; x01]; [x10; x11]].
Proof. unfold Jacobian. cbn [seq map]. repeat eexists. Qed.

(** In global coordinates the derivatives reproduce the gradient of the
    coordinates themselves, whatever the reference derivatives were. *)
Lemma Transform3D_consistent nNodes C D i j :
  In nNodes [4; 5; 6; 8]%nat -> is_matrix 8 4 D -> (i < 3)%nat -> (j < 3)%nat ->
  ~ (Transform3D nNodes C D).1 == 0 ->
  CoordGrad nNodes i j C (Transform3D nNodes C D) == delta i j.
Proof.
  intros Hn HD Hi Hj. unfold Transform3D, CoordGrad, ToGlobal3D, Inverse. cbv zeta. cbn [fst snd].
  pose proof (Jacobian_entry 3 nNodes C D 0 i ltac:(lia) Hi) as E0.
  pose proof (Jacobian_entry 3 nNodes C D 1 i ltac:(lia) Hi) as E1.
  pose proof (Jacobian_entry 3 nNodes C D 2 i ltac:(lia) Hi) as E2.
  destruct (Jacobian3_shape nNodes C D)
    as (x00 & x01 & x02 & x10 & x11 & x12 & x20 & x21 & x22 & EJ).
  rewrite EJ in *. clear EJ. intros Hx.
  rewrite <- (Inverse3_left x00 x01 x02 x10 x11 x12 x20 x21 x22 i j Hi Hj Hx).
  cbv zeta. rewrite E0, E1, E2. clear E0 E1 E2.
  set (ad := FreeFormDefBox.mget (FreeFormDefBox.Adjugate _)).
  set (xsj := FreeFormDefBox.Determinant_of _ _).
  set (c := FreeFormDefBox.mget C).
  clearbody ad xsj c. clear Hx.
  shape D HD.
  destruct j as [|[|[|j]]]; try lia;
    cbn in Hn; destruct Hn as [<-|[<-|[<-|[<-|[]]]]]; arrays; ring.
Qed.

Lemma Inverse2_left (x00 x01 x10 x11 : Q) (i j : nat) :
  let xs := [[x00; x01]; [x10; x11]] in
  let ad := [[mget xs 1 1; - mget xs 0 1]; [- mget xs 1 0; mget xs 0 0]] in
  let xsj := mget ad 0 0 * mget ad 1 1 - mget ad 0 1 * mget ad 1 0 in
  (i < 2)%nat -> (j < 2)%nat -> ~ xsj == 0 ->
  mget ad j 0 / xsj * mget xs 0 i + mget ad j 1 / xsj * mget xs 1 i == delta i j.
Proof.
  intros xs ad xsj Hi Hj Hx. revert Hx. unfold xsj, ad, xs, delta.
  destruct i as [|[|i]]; try lia; destruct j as [|[|j]]; try lia;
    cbn [FreeFormDefBox.mget coord nth Nat.eqb]; intros Hx; field; exact Hx.
Qed.

Lemma Transform2D_consistent nNodes C D i j :
  In nNodes [3; 4]%nat -> is_matrix 8 4 D -> (i < 2)%nat -> (j < 2)%nat ->
  ~ (Transform2D nNodes C D).1 == 0 ->
  CoordGrad nNodes i j C (Transform2D nNodes C D) == delta i j.
Proof.
  intros Hn HD Hi Hj. unfold Transform2D, CoordGrad, ToGlobal2D, Inverse. cbv zeta. cbn [fst snd].
  pose proof (Jacobian_entry 2 nNodes C D 0 i ltac:(lia) Hi) as E0.
  pose proof (Jacobian_entry 2 nNodes C D 1 i ltac:(lia) Hi) as E1.
  destruct (Jacobian2_shape nNodes C D) as (x00 & x01 & x10 & x11 & EJ).
  rewrite EJ in *. clear EJ. intros Hx.
  rewrite <- (Inverse2_left x00 x01 x10 x11 i j Hi Hj Hx).
  cbv zeta. rewrite E0, E1. clear E0 E1.
  set (ad := FreeFormDefBox.mget [[_; _]; [_; _]]) in *.
  set (xsj := ad 0%nat 0%nat * ad 1%nat 1%nat - ad 0%nat 1%nat * ad 1%nat 0%nat) in *.
  set (c := FreeFormDefBox.mget C).
  clearbody ad xsj c. clear Hx.
  shape D HD.
  destruct j as [|[|j]]; try lia;
    cbn in Hn; destruct Hn as [<-|[<-|[]]]; arrays; ring.
Qed.

(** X6. The shape functions of every element type sum to one at every point
    of the reference element (for the pyramid, away from the apex [Mu = 1],
    where the routine divides by zero). *)
Theorem shape_functions_sum_to_one (Xi Eta Mu : Q) (C D : list (list Q)) :
  is_matrix 8 4 D ->
  ShapeSum 3 (ShapeFunc_Triangle Xi Eta C D) == 1 /\
  ShapeSum 4 (ShapeFunc_Rectangle Xi Eta C D) == 1 /\
  ShapeSum 4 (ShapeFunc_Tetra Xi Eta Mu C D) == 1 /\
  (~ Mu == 1 -> ShapeSum 5 (ShapeFunc_Pyram Xi Eta Mu C D) == 1) /\
  ShapeSum 6 (ShapeFunc_Wedge Xi Eta Mu C D) == 1 /\
  ShapeSum 8 (ShapeFunc_Hexa Xi Eta Mu C D) == 1.
Proof.
  intros HD.
  unfold ShapeSum, ShapeFunc_Triangle, ShapeFunc_Rectangle, ShapeFunc_Tetra,
    ShapeFunc_Pyram, ShapeFunc_Wedge, ShapeFunc_Hexa, Transform2D, Transform3D.
  cbv zeta. cbn [fst snd].
  repeat match goal with
  | |- context [Inverse ?n ?ad ?xsj] =>
      let xs := fresh "xs" in set (xs := Inverse n ad xsj); clearbody xs
  end.
  shape D HD. arrays.
  split; [ring|]. split; [ring|]. split; [ring|]. split; [|split; ring].
  intros HMu. field. repeat split; intros H; apply HMu; lra.
Qed.

(** X7. The derivatives with respect to each global coordinate sum to zero
    over the nodes, wherever the Jacobian the routine returns is not zero. *)
Theorem shape_gradients_sum_to_zero (Xi Eta Mu : Q) (C D : list (list Q)) (j : nat) :
  is_matrix 8 4 D ->
  ((j < 2)%nat ->
     (~ (ShapeFunc_Triangle Xi Eta C D).1 == 0 ->
      GradSum 3 j (ShapeFunc_Triangle Xi Eta C D) == 0) /\
     (~ (ShapeFunc_Rectangle Xi Eta C D).1 == 0 ->
      GradSum 4 j (ShapeFunc_Rectangle Xi Eta C D) == 0)) /\
  ((j < 3)%nat ->
     (~ (ShapeFunc_Tetra Xi Eta Mu C D).1 == 0 ->
      GradSum 4 j (ShapeFunc_Tetra Xi Eta Mu C D) == 0) /\
     (~ Mu == 1 -> ~ (ShapeFunc_Pyram Xi Eta Mu C D).1 == 0 ->
      GradSum 5 j (ShapeFunc_Pyram Xi Eta Mu C D) == 0) /\
     (~ (ShapeFunc_Wedge Xi Eta Mu C D).1 == 0 ->
      GradSum 6 j (ShapeFunc_Wedge Xi Eta Mu C D) == 0) /\
     (~ (ShapeFunc_Hexa Xi Eta Mu C D).1 == 0 ->
      GradSum 8 j (ShapeFunc_Hexa Xi Eta Mu C D) == 0)).
Proof.
  intros HD.
  unfold GradSum, ShapeFunc_Triangle, ShapeFunc_Rectangle, ShapeFunc_Tetra,
    ShapeFunc_Pyram, ShapeFunc_Wedge, ShapeFunc_Hexa, Transform2D, Transform3D.
  cbv zeta. cbn [fst snd].
  repeat match goal with
  | |- context [Inverse ?n ?ad ?xsj] =>
      let xs := fresh "xs" in set (xs := Inverse n ad xsj); clearbody xs
  end.
  shape D HD.
  split; intros Hj.
  - destruct j as [|[|j]]; try lia; split; intros _; arrays; ring.
  - destruct j as [|[|[|j]]]; try lia;
      (split; [intros _; arrays; ring|]);
      (split; [intros HMu _; arrays; field; repeat split; intros H; apply HMu; lra|]);
      split; intros _; arrays; ring.
Qed.

Lemma DShapeFunction_init_is_matrix : is_matrix 8 4 DShapeFunction_init.
Proof. split; [reflexivity | repeat constructor]. Qed.

Lemma shape_functions_sum_to_one_witness :
  ShapeSum 5 (ShapeFunc_Pyram (1#3) 0 (1#2) unit_cube DShapeFunction_init) == 1.
Proof.
  refine (proj1 (proj2 (proj2 (proj2 (shape_functions_sum_to_one (1#3) 0 (1#2) unit_cube
            DShapeFunction_init DShapeFunction_init_is_matrix)))) _).
  intros H. discriminate H.
Defined.

Lemma shape_gradients_sum_to_zero_witness :
  GradSum 8 1 (ShapeFunc_Hexa (1#3) 0 (1#2) unit_cube DShapeFunction_init) == 0.
Proof.
  refine (proj2 (proj2 (proj2 (proj2 (shape_gradients_sum_to_zero (1#3) 0 (1#2) unit_cube
            DShapeFunction_init 1 DShapeFunction_init_is_matrix) ltac:(lia)))) _).
  intros H. vm_compute in H. discriminate H.
Defined.

(** X8. In every routine the derivatives with respect to the global
    coordinates reproduce the gradient of the coordinates: summed over the
    nodes, corner coordinate [i] times the derivative along [j] is one for
    [i = j] and zero otherwise, wherever the Jacobian returned is not zero
    (the inverse Jacobian the routine forms is the inverse). *)
Theorem shape_gradients_reproduce_coordinates
  (Xi Eta Mu : Q) (C D : list (list Q)) (i j : nat) :
  is_matrix 8 4 D ->
  ((i < 2)%nat -> (j < 2)%nat ->
     (~ (ShapeFunc_Triangle Xi Eta C D).1 == 0 ->
      CoordGrad 3 i j C (ShapeFunc_Triangle Xi Eta C D) == delta i j) /\
     (~ (ShapeFunc_Rectangle Xi Eta C D).1 == 0 ->
      CoordGrad 4 i j C (ShapeFunc_Rectangle Xi Eta C D) == delta i j)) /\
  ((i < 3)%nat -> (j < 3)%nat ->
     (~ (ShapeFunc_Tetra Xi Eta Mu C D).1 == 0 ->
      CoordGrad 4 i j C (ShapeFunc_Tetra Xi Eta Mu C D) == delta i j) /\
     (~ Mu == 1 -> ~ (ShapeFunc_Pyram Xi Eta Mu C D).1 == 0 ->
      CoordGrad 5 i j C (ShapeFunc_Pyram Xi Eta Mu C D) == delta i j) /\
     (~ (ShapeFunc_Wedge Xi Eta Mu C D).1 == 0 ->
      CoordGrad 6 i j C (ShapeFunc_Wedge Xi Eta Mu C D) == delta i j) /\
     (~ (ShapeFunc_Hexa Xi Eta Mu C D).1 == 0 ->
      CoordGrad 8 i j C (ShapeFunc_Hexa Xi Eta Mu C D) == delta i j)).
Proof.
  intros HD.
  unfold ShapeFunc_Triangle, ShapeFunc_Rectangle, ShapeFunc_Tetra,
    ShapeFunc_Pyram, ShapeFunc_Wedge, ShapeFunc_Hexa. cbv zeta.
  split; intros Hi Hj.
  - split; apply Transform2D_consistent; cbn [In]; try tauto; try assumption;
      now repeat apply SetNode2D_is_matrix.
  - split; [|split; [intros _|split]]; apply Transform3D_consistent;
      cbn [In]; try tauto; try assumption;
      cbn [fold_left seq]; repeat apply SetNode3D_is_matrix;
      repeat apply mset_is_matrix; exact HD.
Qed.

Lemma shape_gradients_reproduce_coordinates_witness :
  CoordGrad 8 2 2 unit_cube (ShapeFunc_Hexa (1#3) 0 (1#2) unit_cube DShapeFunction_init) == 1.
Proof.
  refine (proj2 (proj2 (proj2 (proj2 (shape_gradients_reproduce_coordinates (1#3) 0 (1#2)
            unit_cube DShapeFunction_init 2 2 DShapeFunction_init_is_matrix)
            ltac:(lia) ltac:(lia)))) _).
  intros H. vm_compute in H. discriminate H.
Defined.

(** X9. The Jacobian the simplex routines return, against the measures of
    [Check_Grid]: for a tetrahedron it is minus six times [GetTetra_Volume],
    so it is negative exactly where that volume is positive; for a
    triangle half its magnitude is [GetTriangle_Area]. *)
Theorem simplex_jacobian_and_measure (Xi Eta Mu : Q) (C D : list (list Q)) :
  is_matrix 8 4 D ->
  (ShapeFunc_Tetra Xi Eta Mu C D).1 == - (6 * GetTetra_Volume 3 C) /\
  GetTriangle_Area 2 C == (1#2) * Qabs (ShapeFunc_Triangle Xi Eta C D).1.
Proof.
  intros HD. shape D HD.
  unfold ShapeFunc_Tetra, ShapeFunc_Triangle, Transform3D, Transform2D,
    GetTetra_Volume, GetTriangle_Area, SubTetra, TripleProduct6, HalfCross.
  cbv zeta. cbn [fst].
  rewrite !GridUpdate.coord_diff by lia.
  unfold FreeFormDefBox.Determinant_of, FreeFormDefBox.Adjugate, Jacobian, corner.
  set (c := FreeFormDefBox.mget C).
  repeat match goal with
  | |- context [coord (nth ?k C []) ?j] => change (coord (nth k C []) j) with (c k j)
  end.
  clearbody c. split.
  - arrays. field.
  - arrays. apply Qmult_comp; [reflexivity|].
    first [ apply Qabs_wd; ring
          | etransitivity; [|apply Qabs_opp]; apply Qabs_wd; ring ].
Qed.

Lemma simplex_jacobian_and_measure_witness :
  (ShapeFunc_Tetra 0 0 0 unit_tetra DShapeFunction_init).1
  == - (6 * GetTetra_Volume 3 unit_tetra).
Proof.
  exact (proj1 (simplex_jacobian_and_measure 0 0 0 unit_tetra DShapeFunction_init
                  DShapeFunction_init_is_matrix)).
Defined.

End ShapeFunctions.

(* ================================================================== *)
(** * [CVolumetricMovement]: element stiffness matrices                *)
(* ================================================================== *)

Module Stiffness.

Import ShapeFunctions.

Local Abbreviation mget := FreeFormDefBox.mget.
Local Abbreviation mset := FreeFormDefBox.mset.

(** [config->GetDeform_Stiffness_Type()]; [OTHER_STIFFNESS] stands for
    every value the [switch] has no case for. *)
Inductive StiffnessType : Set :=
  | INVERSE_VOLUME | WALL_DISTANCE | CONSTANT_STIFFNESS | OTHER_STIFFNESS.

(** What the stiffness routines read from [config] and [geometry]. *)
Record CConfig : Type := {
  GetDeform_Stiffness_Type : StiffnessType;
  GetDeform_ElasticityMod : Q;
  GetDeform_PoissonRatio : Q
}.

Record CGeometry : Type := {
  GetnDim : nat;
  Wall_Distance : list Q        (* node[iPoint]->GetWall_Distance() *)
}.

Definition GetWall_Distance (geometry : CGeometry) (iPoint : nat) : Q :=
  nth iPoint (Wall_Distance geometry) 0.

(** The locals of a stiffness routine that live across the Gauss points. *)
Record GaussState : Type := {
  gs_StiffMatrix_Elem : list (list Q);
  gs_DShapeFunction : list (list Q);
  gs_Det : Q;
  gs_Lambda : Q;
  gs_Mu : Q
}.

(** [for (iVar < n) for (jVar < n) M[iVar][jVar] = f(iVar, jVar, M[iVar][jVar]);] *)
Definition ForEntries (n : nat) (f : nat -> nat -> Q -> Q) (M : list (list Q)) :
    list (list Q) :=
  imap (fun iVar row =>
          if (iVar <? n)%nat
          then imap (fun jVar old => if (jVar <? n)%nat then f iVar jVar old else old) row
          else row)
       M.

(** [Avg_Wall_Dist] of the [WALL_DISTANCE] case. *)
Definition Avg_Wall_Dist (geometry : CGeometry) (PointCorners : list nat) (nNodes : nat) : Q :=
  fold_left
    (fun avg jNode =>
       avg + GetWall_Distance geometry (nth jNode PointCorners 0%nat)
             / inject_Z (Z.of_nat nNodes))
    (seq 0 nNodes) 0.

(** The [switch] on the stiffness type: the new [(Lambda, Mu)].  The
    divisions are those of the source.  Where a divisor is zero the source
    produces an infinity or a NaN, which the rationals do not have: the
    properties of the stiffness routines assume [no_zero_divisor_2D] or
    [no_zero_divisor_3D]. *)
Definition Stiffness_Law (geometry : CGeometry) (config : CConfig)
    (PointCorners : list nat) (nNodes : nat) (scale Weight Det Lambda Mu : Q) : Q * Q :=
  match GetDeform_Stiffness_Type config with
  | INVERSE_VOLUME =>
      let E := scale / (Weight * Det) in (- E, E)
  | WALL_DISTANCE =>
      let E := scale / (Weight * Avg_Wall_Dist geometry PointCorners nNodes) in (- E, E)
  | CONSTANT_STIFFNESS =>
      let E := GetDeform_ElasticityMod config in
      let Nu := GetDeform_PoissonRatio config in
      (Nu * E / ((1 + Nu) * (1 - 2 * Nu)), E / (2 * (1 + Nu)))
  | OTHER_STIFFNESS => (Lambda, Mu)
  end.

(** [Aux_Matrix[iVar][jVar]]: the sum over [kVar < nStrain] of
    [B_Matrix[kVar][iVar]*D_Matrix[kVar][jVar]], accumulated from zero. *)
Definition Aux_Matrix (nStrain : nat) (B_Matrix D_Matrix : list (list Q)) (iVar jVar : nat) : Q :=
  fold_left (fun aux kVar => aux + mget B_Matrix kVar iVar * mget D_Matrix kVar jVar)
            (seq 0 nStrain) 0.

(** The last loop nest of a Gauss point:
    [StiffMatrix_Elem[iVar][jVar] += Weight * Aux_Matrix[iVar][kVar]*B_Matrix[kVar][jVar] * Det]
    for [kVar < nStrain]. *)
Definition AddBtDB (n nStrain : nat) (Weight Det : Q) (B_Matrix D_Matrix K : list (list Q)) :
    list (list Q) :=
  ForEntries n
    (fun iVar jVar old =>
       fold_left
         (fun k_ij kVar =>
            k_ij + Weight * Aux_Matrix nStrain B_Matrix D_Matrix iVar kVar
                   * mget B_Matrix kVar jVar * Det)
         (seq 0 nStrain) old)
    K.

(** ** Two dimensions *)

(** The Gauss points [(Xi, Eta, Weight)] for [nNodes] corners. *)
Definition Gauss2D (nNodes : nat) : list (Q * Q * Q) :=
  let t := 333333333333333 # 1000000000000000 in
  let g := 577350269189626 # 1000000000000000 in
  if (nNodes =? 4)%nat then [(- g, - g, 1); (g, - g, 1); (g, g, 1); (- g, g, 1)]
  else if (nNodes =? 3)%nat then [(t, t, 1 # 2)]
  else [].

(** [B_Matrix] in 2D: zero, then the four entries of each node. *)
Definition B_Matrix2D (nNodes nVar : nat) (D : list (list Q)) : list (list Q) :=
  fold_left
    (fun B iNode =>
       let B := mset B 0 (0 + iNode * nVar) (mget D iNode 0) in
       let B := mset B 1 (1 + iNode * nVar) (mget D iNode 1) in
       let B := mset B 2 (0 + iNode * nVar) (mget D iNode 1) in
       mset B 2 (1 + iNode * nVar) (mget D iNode 0))
    (seq 0 nNodes) (replicate 3 (replicate 8 0)).

Definition D_Matrix2D (Lambda Mu : Q) : list (list Q) :=
  [[Lambda + 2 * Mu; Lambda; 0];
   [Lambda; Lambda + 2 * Mu; 0];
   [0; 0; Mu]].

(** One pass of the loop over the Gauss points. *)
Definition GaussPoint2D (geometry : CGeometry) (config : CConfig)
    (PointCorners : list nat) (CoordCorners : list (list Q)) (nNodes : nat) (scale : Q)
    (st : GaussState) (gp : Q * Q * Q) : GaussState :=
  let '(Xi, Eta, Weight) := gp in
  let nVar := GetnDim geometry in
  let '(Det, D) :=
    if (nNodes =? 4)%nat then ShapeFunc_Rectangle Xi Eta CoordCorners (gs_DShapeFunction st)
    else if (nNodes =? 3)%nat then ShapeFunc_Triangle Xi Eta CoordCorners (gs_DShapeFunction st)
    else (gs_Det st, gs_DShapeFunction st) in
  let B := B_Matrix2D nNodes nVar D in
  let '(Lambda, Mu) :=
    Stiffness_Law geometry config PointCorners nNodes scale Weight Det
                  (gs_Lambda st) (gs_Mu st) in
  let D_Matrix := D_Matrix2D Lambda Mu in
  {| gs_StiffMatrix_Elem :=
       AddBtDB (nNodes * nVar) 3 Weight Det B D_Matrix (gs_StiffMatrix_Elem st);
     gs_DShapeFunction := D; gs_Det := Det; gs_Lambda := Lambda; gs_Mu := Mu |}.

Definition SetFEA_StiffMatrix2D (geometry : CGeometry) (config : CConfig)
    (StiffMatrix_Elem : list (list Q)) (PointCorners : list nat)
    (CoordCorners : list (list Q)) (nNodes : nat) (scale : Q) : list (list Q) :=
  let nVar := GetnDim geometry in
  let K := ForEntries (nNodes * nVar) (fun _ _ _ => 0) StiffMatrix_Elem in
  let st := {| gs_StiffMatrix_Elem := K; gs_DShapeFunction := DShapeFunction_init;
               gs_Det := 0; gs_Lambda := 0; gs_Mu := 0 |} in
  gs_StiffMatrix_Elem
    (fold_left (GaussPoint2D geometry config PointCorners CoordCorners nNodes scale)
               (Gauss2D nNodes) st).

(** ** Three dimensions *)

(** The Gauss points [(Xi, Eta, Mu, Weight)] for [nNodes] corners. *)
Definition Gauss3D (nNodes : nat) : list (Q * Q * Q * Q) :=
  let g := 577350269189626 # 1000000000000000 in
  let a := 1531754163448146 # 10000000000000000 in
  let b := 6372983346207416 # 10000000000000000 in
  let w5 := 133333333333333 # 1000000000000000 in
  let w6 := 166666666666666 # 1000000000000000 in
  if (nNodes =? 8)%nat then
    [(- g, - g, - g, 1); (- g, - g, g, 1); (- g, g, - g, 1); (- g, g, g, 1);
     (g, - g, - g, 1); (g, - g, g, 1); (g, g, - g, 1); (g, g, g, 1)]
  else if (nNodes =? 6)%nat then
    [(1#2, 1#2, - g, w6); (- g, 0, 1#2, w6); (1#2, - g, 0, w6);
     (1#2, 1#2, g, w6); (g, 0, 1#2, w6); (1#2, g, 0, w6)]
  else if (nNodes =? 5)%nat then
    [(1#2, 0, a, w5); (0, 1#2, a, w5); (-(1#2), 0, a, w5); (0, -(1#2), a, w5);
     (0, 0, b, w5)]
  else if (nNodes =? 4)%nat then [(1#4, 1#4, 1#4, w6)]
  else [].

(** [B_Matrix] in 3D: zero, then the nine entries of each node. *)
Definition B_Matrix3D (nNodes nVar : nat) (D : list (list Q)) : list (list Q) :=
  fold_left
    (fun B iNode =>
       let B := mset B 0 (0 + iNode * nVar) (mget D iNode 0) in
       let B := mset B 1 (1 + iNode * nVar) (mget D iNode 1) in
       let B := mset B 2 (2 + iNode * nVar) (mget D iNode 2) in
       let B := mset B 3 (0 + iNode * nVar) (mget D iNode 1) in
       let B := mset B 3 (1 + iNode * nVar) (mget D iNode 0) in
       let B := mset B 4 (1 + iNode * nVar) (mget D iNode 2) in
       let B := mset B 4 (2 + iNode * nVar) (mget D iNode 1) in
       let B := mset B 5 (0 + iNode * nVar) (mget D iNode 2) in
       mset B 5 (2 + iNode * nVar) (mget D iNode 0))
    (seq 0 nNodes) (replicate 6 (replicate 24 0)).

Definition D_Matrix3D (Lambda Mu : Q) : list (list Q) :=
  [[Lambda + 2 * Mu; Lambda; Lambda; 0; 0; 0];
   [Lambda; Lambda + 2 * Mu; Lambda; 0; 0; 0];
   [Lambda; Lambda; Lambda + 2 * Mu; 0; 0; 0];
   [0; 0; 0; Mu; 0; 0];
   [0; 0; 0; 0; Mu; 0];
   [0; 0; 0; 0; 0; Mu]].

(** One pass of the loop over the Gauss points. The routine keeps the
    third natural coordinate and the second Lame parameter in the same
    variable [Mu]: a stiffness type without a case leaves the coordinate
    there. *)
Definition GaussPoint3D (geometry : CGeometry) (config : CConfig)
    (PointCorners : list nat) (CoordCorners : list (list Q)) (nNodes : nat) (scale : Q)
    (st : GaussState) (gp : Q * Q * Q * Q) : GaussState :=
  let '(Xi, Eta, Mu, Weight) := gp in
  let nVar := GetnDim geometry in
  let '(Det, D) :=
    if (nNodes =? 8)%nat then ShapeFunc_Hexa Xi Eta Mu CoordCorners (gs_DShapeFunction st)
    else if (nNodes =? 6)%nat then ShapeFunc_Wedge Xi Eta Mu CoordCorners (gs_DShapeFunction st)
    else if (nNodes =? 5)%nat then ShapeFunc_Pyram Xi Eta Mu CoordCorners (gs_DShapeFunction st)
    else if (nNodes =? 4)%nat then ShapeFunc_Tetra Xi Eta Mu CoordCorners (gs_DShapeFunction st)
    else (gs_Det st, gs_DShapeFunction st) in
  let B := B_Matrix3D nNodes nVar D in
  let '(Lambda, Mu) :=
    Stiffness_Law geometry config PointCorners nNodes scale Weight Det (gs_Lambda st) Mu in
  let D_Matrix := D_Matrix3D Lambda Mu in
  {| gs_StiffMatrix_Elem :=
       AddBtDB (nNodes * nVar) 6 Weight Det B D_Matrix (gs_StiffMatrix_Elem st);
     gs_DShapeFunction := D; gs_Det := Det; gs_Lambda := Lambda; gs_Mu := Mu |}.

Definition SetFEA_StiffMatrix3D (geometry : CGeometry) (config : CConfig)
    (StiffMatrix_Elem : list (list Q)) (PointCorners : list nat)
    (CoordCorners : list (list Q)) (nNodes : nat) (scale : Q) : list (list Q) :=
  let nVar := GetnDim geometry in
  let K := ForEntries (nNodes * nVar) (fun _ _ _ => 0) StiffMatrix_Elem in
  let st := {| gs_StiffMatrix_Elem := K; gs_DShapeFunction := DShapeFunction_init;
               gs_Det := 0; gs_Lambda := 0; gs_Mu := 0 |} in
  gs_StiffMatrix_Elem
    (fold_left (GaussPoint3D geometry config PointCorners CoordCorners nNodes scale)
               (Gauss3D nNodes) st).

(** ** Notions used to state the properties *)

(** [M] has at least [n] rows of at least [n] entries. *)
Definition covers (n : nat) (M : list (list Q)) : Prop :=
  (n <= length M)%nat /\ Forall (fun row => (n <= length row)%nat) M.

(** The leading [n x n] block of [M] is symmetric. *)
Definition symmetric (n : nat) (M : list (list Q)) : Prop :=
  forall i j, (i < n)%nat -> (j < n)%nat -> mget M i j == mget M j i.

(** The determinant the shape-function routine of the element returns at a
    Gauss point.  It does not depend on what [DShapeFunction] holds on
    entry ([Det_entry_independent]). *)
Definition Det2D (nNodes : nat) (CoordCorners : list (list Q)) (gp : Q * Q * Q) : Q :=
  let '(Xi, Eta, _) := gp in
  if (nNodes =? 4)%nat then (ShapeFunc_Rectangle Xi Eta CoordCorners DShapeFunction_init).1
  else (ShapeFunc_Triangle Xi Eta CoordCorners DShapeFunction_init).1.

Definition Det3D (nNodes : nat) (CoordCorners : list (list Q)) (gp : Q * Q * Q * Q) : Q :=
  let '(Xi, Eta, Mu, _) := gp in
  if (nNodes =? 8)%nat then (ShapeFunc_Hexa Xi Eta Mu CoordCorners DShapeFunction_init).1
  else if (nNodes =? 6)%nat
  then (ShapeFunc_Wedge Xi Eta Mu CoordCorners DShapeFunction_init).1
  else if (nNodes =? 5)%nat
  then (ShapeFunc_Pyram Xi Eta Mu CoordCorners DShapeFunction_init).1
  else (ShapeFunc_Tetra Xi Eta Mu CoordCorners DShapeFunction_init).1.

(** The divisors of the stiffness law other than the determinant: the
    average wall distance, and [1 + Nu] and [1 - 2 Nu] for the constant
    stiffness. *)
Definition law_defined (geometry : CGeometry) (config : CConfig)
    (PointCorners : list nat) (nNodes : nat) : Prop :=
  match GetDeform_Stiffness_Type config with
  | WALL_DISTANCE => ~ Avg_Wall_Dist geometry PointCorners nNodes == 0
  | CONSTANT_STIFFNESS =>
      (~ 1 + GetDeform_PoissonRatio config == 0) /\
      (~ 1 - 2 * GetDeform_PoissonRatio config == 0)
  | INVERSE_VOLUME | OTHER_STIFFNESS => True
  end.

(** No division of the routine is by zero: the Jacobian determinant is not
    zero at any Gauss point of the element (the shape-function routine
    divides by it, and so does the inverse-volume law), and the stiffness
    law is defined. *)
Definition no_zero_divisor_2D (geometry : CGeometry) (config : CConfig)
    (PointCorners : list nat) (CoordCorners : list (list Q)) (nNodes : nat) : Prop :=
  Forall (fun gp => ~ Det2D nNodes CoordCorners gp == 0) (Gauss2D nNodes) /\
  law_defined geometry config PointCorners nNodes.

Definition no_zero_divisor_3D (geometry : CGeometry) (config : CConfig)
    (PointCorners : list nat) (CoordCorners : list (list Q)) (nNodes : nat) : Prop :=
  Forall (fun gp => ~ Det3D nNodes CoordCorners gp == 0) (Gauss3D nNodes) /\
  law_defined geometry config PointCorners nNodes.

(** A right triangle with unit legs, a configuration of the inverse-volume
    stiffness, and the [8 x 8] array the caller allocates in 2D. *)
Definition unit_triangle : list (list Q) := [[0; 0]; [1; 0]; [0; 1]].
Definition inverse_volume : CConfig :=
  {| GetDeform_Stiffness_Type := INVERSE_VOLUME;
     GetDeform_ElasticityMod := 0; GetDeform_PoissonRatio := 0 |}.
Definition flat : CGeometry := {| GetnDim := 2; Wall_Distance := [0; 0; 0] |}.
Definition solid : CGeometry := {| GetnDim := 3; Wall_Distance := [0; 0; 0; 0] |}.

(** ** Properties *)

Lemma mget_ForEntries n f M i j :
  (i < length M)%nat -> (j < length (nth i M []))%nat ->
  mget (ForEntries n f M) i j =
  if (i <? n)%nat && (j <? n)%nat then f i j (mget M i j) else mget M i j.
Proof.
  intros Hi Hj. unfold FreeFormDefBox.mget, ForEntries, coord.
  rewrite (nth_imap _ _ [] i Hi).
  destruct (i <? n)%nat; [|reflexivity]. cbn [andb].
  rewrite (nth_imap _ _ 0 j Hj). reflexivity.
Qed.

Lemma covers_row n M i : covers n M -> (i < n)%nat -> (n <= length (nth i M []))%nat.
Proof.
  intros [HL HF] Hi.
  destruct (lookup_lt_is_Some_2 M i ltac:(lia)) as [row Hrow].
  rewrite (nth_lookup M), Hrow. exact (Forall_lookup_1 _ _ _ _ HF Hrow).
Qed.

Lemma covers_ForEntries n m f M : covers n M -> covers n (ForEntries m f M).
Proof.
  intros [HL HF]. unfold ForEntries. split; [now rewrite length_imap|].
  apply Forall_lookup_2. intros i row Hrow.
  rewrite list_lookup_imap in Hrow.
  destruct (M !! i) as [r|] eqn:Er; [|discriminate Hrow]. cbn -[Nat.ltb] in Hrow.
  injection Hrow as <-. pose proof (Forall_lookup_1 _ _ _ _ HF Er) as Hr. cbn beta in Hr.
  destruct (i <? m)%nat; [now rewrite length_imap | exact Hr].
Qed.

Lemma mget_ForEntries_in n f M i j :
  covers n M -> (i < n)%nat -> (j < n)%nat ->
  mget (ForEntries n f M) i j = f i j (mget M i j).
Proof.
  intros HM Hi Hj. pose proof (covers_row n M i HM Hi) as Hr.
  rewrite mget_ForEntries by (destruct HM; lia).
  apply Nat.ltb_lt in Hi, Hj. now rewrite Hi, Hj.
Qed.

(** Adding [B^T D B] with the [D_Matrix] of either routine keeps the
    element matrix symmetric, whatever [B_Matrix] holds. *)
Lemma AddBtDB_symmetric_2D n Weight Det B Lambda Mu K :
  covers n K -> symmetric n K ->
  symmetric n (AddBtDB n 3 Weight Det B (D_Matrix2D Lambda Mu) K).
Proof.
  intros HK HS i j Hi Hj. unfold AddBtDB.
  rewrite !mget_ForEntries_in by assumption.
  unfold Aux_Matrix, D_Matrix2D. set (b := FreeFormDefBox.mget B). clearbody b.
  cbn [fold_left seq FreeFormDefBox.mget coord nth].
  rewrite (HS i j Hi Hj). ring.
Qed.

Lemma AddBtDB_symmetric_3D n Weight Det B Lambda Mu K :
  covers n K -> symmetric n K ->
  symmetric n (AddBtDB n 6 Weight Det B (D_Matrix3D Lambda Mu) K).
Proof.
  intros HK HS i j Hi Hj. unfold AddBtDB.
  rewrite !mget_ForEntries_in by assumption.
  unfold Aux_Matrix, D_Matrix3D. set (b := FreeFormDefBox.mget B). clearbody b.
  cbn [fold_left seq FreeFormDefBox.mget coord nth].
  rewrite (HS i j Hi Hj). ring.
Qed.

Lemma zeroed_symmetric n K : covers n K -> symmetric n (ForEntries n (fun _ _ _ => 0) K).
Proof.
  intros HK i j Hi Hj. now rewrite !mget_ForEntries_in by assumption.
Qed.

Lemma GaussPoint2D_symmetric geometry config PointCorners C nNodes scale st gp :
  let n := (nNodes * GetnDim geometry)%nat in
  covers n (gs_StiffMatrix_Elem st) /\ symmetric n (gs_StiffMatrix_Elem st) ->
  covers n (gs_StiffMatrix_Elem
              (GaussPoint2D geometry config PointCorners C nNodes scale st gp)) /\
  symmetric n (gs_StiffMatrix_Elem
                 (GaussPoint2D geometry config PointCorners C nNodes scale st gp)).
Proof.
  intros n [HK HS]. unfold GaussPoint2D. destruct gp as [[Xi Eta] Weight].
  destruct (if (nNodes =? 4)%nat then _ else _) as [Det D].
  destruct (Stiffness_Law _ _ _ _ _ _ _ _ _) as [Lambda Mu].
  cbn [gs_StiffMatrix_Elem]. split.
  - apply covers_ForEntries. exact HK.
  - apply AddBtDB_symmetric_2D; assumption.
Qed.

Lemma GaussPoint3D_symmetric geometry config PointCorners C nNodes scale st gp :
  let n := (nNodes * GetnDim geometry)%nat in
  covers n (gs_StiffMatrix_Elem st) /\ symmetric n (gs_StiffMatrix_Elem st) ->
  covers n (gs_StiffMatrix_Elem
              (GaussPoint3D geometry config PointCorners C nNodes scale st gp)) /\
  symmetric n (gs_StiffMatrix_Elem
                 (GaussPoint3D geometry config PointCorners C nNodes scale st gp)).
Proof.
  intros n [HK HS]. unfold GaussPoint3D. destruct gp as [[[Xi Eta] Mu] Weight].
  destruct (if (nNodes =? 8)%nat then _ else _) as [Det D].
  destruct (Stiffness_Law _ _ _ _ _ _ _ _ _) as [Lambda Mu'].
  cbn [gs_StiffMatrix_Elem]. split.
  - apply covers_ForEntries. exact HK.
  - apply AddBtDB_symmetric_3D; assumption.
Qed.

(** The determinant a shape-function routine returns does not depend on
    what [DShapeFunction] holds on entry: every entry it reads it has
    written. *)
Lemma Det_entry_independent (Xi Eta Mu : Q) (C D : list (list Q)) :
  is_matrix 8 4 D ->
  (ShapeFunc_Triangle Xi Eta C D).1 = (ShapeFunc_Triangle Xi Eta C DShapeFunction_init).1 /\
  (ShapeFunc_Rectangle Xi Eta C D).1 = (ShapeFunc_Rectangle Xi Eta C DShapeFunction_init).1 /\
  (ShapeFunc_Tetra Xi Eta Mu C D).1 = (ShapeFunc_Tetra Xi Eta Mu C DShapeFunction_init).1 /\
  (ShapeFunc_Pyram Xi Eta Mu C D).1 = (ShapeFunc_Pyram Xi Eta Mu C DShapeFunction_init).1 /\
  (ShapeFunc_Wedge Xi Eta Mu C D).1 = (ShapeFunc_Wedge Xi Eta Mu C DShapeFunction_init).1 /\
  (ShapeFunc_Hexa Xi Eta Mu C D).1 = (ShapeFunc_Hexa Xi Eta Mu C DShapeFunction_init).1.
Proof. intros HD. shape D HD. repeat split; reflexivity. Qed.

(** X10. In exact arithmetic, and when no division of the routine is by
    zero (a non-zero Jacobian determinant at every Gauss point, a non-zero
    average wall distance or a Poisson ratio other than -1 and 1/2 where
    the stiffness type reads them), the element stiffness matrix
    [SetFEA_StiffMatrix2D] leaves in [StiffMatrix_Elem] is symmetric on
    the [nNodes*nVar] rows and columns it writes, for every stiffness
    type and scale. *)
Theorem stiffness_matrix_2D_symmetric
  (geometry : CGeometry) (config : CConfig) (K : list (list Q))
  (PointCorners : list nat) (CoordCorners : list (list Q)) (nNodes : nat) (scale : Q) :
  covers (nNodes * GetnDim geometry) K ->
  no_zero_divisor_2D geometry config PointCorners CoordCorners nNodes ->
  symmetric (nNodes * GetnDim geometry)
    (SetFEA_StiffMatrix2D geometry config K PointCorners CoordCorners nNodes scale).
Proof.
  intros HK _. unfold SetFEA_StiffMatrix2D. cbv zeta.
  set (st := {| gs_StiffMatrix_Elem := _ |}).
  assert (H : covers (nNodes * GetnDim geometry) (gs_StiffMatrix_Elem st) /\
              symmetric (nNodes * GetnDim geometry) (gs_StiffMatrix_Elem st)).
  { split; [apply covers_ForEntries; exact HK | apply zeroed_symmetric; exact HK]. }
  clearbody st. revert st H.
  induction (Gauss2D nNodes) as [|gp l IH]; intros st H; [exact (proj2 H)|].
  cbn [fold_left]. apply IH. now apply GaussPoint2D_symmetric.
Qed.

Lemma stiffness_matrix_2D_symmetric_witness :
  mget (SetFEA_StiffMatrix2D flat inverse_volume (replicate 8 (replicate 8 1))
          [0; 1; 2]%nat unit_triangle 3 1) 0 3
  == mget (SetFEA_StiffMatrix2D flat inverse_volume (replicate 8 (replicate 8 1))
             [0; 1; 2]%nat unit_triangle 3 1) 3 0.
Proof.
  apply (stiffness_matrix_2D_symmetric flat inverse_volume (replicate 8 (replicate 8 1))
           [0; 1; 2]%nat unit_triangle 3 1); [| |cbn; lia|cbn; lia].
  - split; [cbn; lia | repeat constructor; cbn; lia].
  - split; [|exact I]. repeat constructor. intros H. vm_compute in H. discriminate H.
Defined.

(** X11. In exact arithmetic, and when no division of the routine is by
    zero (a non-zero Jacobian determinant at every Gauss point, a non-zero
    average wall distance or a Poisson ratio other than -1 and 1/2 where
    the stiffness type reads them), the element stiffness matrix
    [SetFEA_StiffMatrix3D] leaves in [StiffMatrix_Elem] is symmetric on
    the [nNodes*nVar] rows and columns it writes, for every stiffness
    type and scale. *)
Theorem stiffness_matrix_3D_symmetric
  (geometry : CGeometry) (config : CConfig) (K : list (list Q))
  (PointCorners : list nat) (CoordCorners : list (list Q)) (nNodes : nat) (scale : Q) :
  covers (nNodes * GetnDim geometry) K ->
  no_zero_divisor_3D geometry config PointCorners CoordCorners nNodes ->
  symmetric (nNodes * GetnDim geometry)
    (SetFEA_StiffMatrix3D geometry config K PointCorners CoordCorners nNodes scale).
Proof.
  intros HK _. unfold SetFEA_StiffMatrix3D. cbv zeta.
  set (st := {| gs_StiffMatrix_Elem := _ |}).
  assert (H : covers (nNodes * GetnDim geometry) (gs_StiffMatrix_Elem st) /\
              symmetric (nNodes * GetnDim geometry) (gs_StiffMatrix_Elem st)).
  { split; [apply covers_ForEntries; exact HK | apply zeroed_symmetric; exact HK]. }
  clearbody st. revert st H.
  induction (Gauss3D nNodes) as [|gp l IH]; intros st H; [exact (proj2 H)|].
  cbn [fold_left]. apply IH. now apply GaussPoint3D_symmetric.
Qed.

Lemma stiffness_matrix_3D_symmetric_witness :
  mget (SetFEA_StiffMatrix3D solid inverse_volume (replicate 24 (replicate 24 1))
          [0; 1; 2; 3]%nat VolumetricMovement.unit_tetra 4 1) 1 7
  == mget (SetFEA_StiffMatrix3D solid inverse_volume (replicate 24 (replicate 24 1))
             [0; 1; 2; 3]%nat VolumetricMovement.unit_tetra 4 1) 7 1.
Proof.
  apply (stiffness_matrix_3D_symmetric solid inverse_volume (replicate 24 (replicate 24 1))
           [0; 1; 2; 3]%nat VolumetricMovement.unit_tetra 4 1); [| |cbn; lia|cbn; lia].
  - split; [cbn; lia | repeat constructor; cbn; lia].
  - split; [|exact I]. repeat constructor. intros H. vm_compute in H. discriminate H.
Defined.

End Stiffness.

(* ================================================================== *)
(** * [CFreeFormDefBox]: evaluation, derivatives and inversion         *)
(* ================================================================== *)

Module BoxEvaluation.

Import FreeFormDefBox.

(** ** Notions used to state the properties *)

(** The end of the parameter interval, 0 or 1, and the index of the
    control point that sits there. *)
Definition end_value (upper : bool) : Q := if upper then 1 else 0.
Definition end_index (upper : bool) (degree : nat) : nat := if upper then degree else 0%nat.

(** The sum over [i = 0..n] of the derivative of order [order] of the
    basis functions of degree [n]. *)
Definition DerivativeSum (n : nat) (t : Q) (order : nat) : Q :=
  qsum (fun i => GetBernsteinDerivative (Z.of_nat n) (Z.of_nat i) t order) (seq 0 (S n)).

(** [n!] over the integers. *)
Fixpoint factorial (n : nat) : Z :=
  match n with
  | O => 1%Z
  | S n' => (Z.of_nat n * factorial n')%Z
  end.

(** What is checked for row [n] of [Binomial]. *)
Definition row_exact (n : nat) : bool :=
  let row := pascal_row n in
  forallb (fun m => (nth m row 0 * factorial m * factorial (n - m) =? factorial n)%Z
                    && (nth m row 0 =? nth (n - m) row 0)%Z)
          (seq 0 (S n)).

(** What is checked for row [n >= 1] of Pascal's triangle:
    [(j+1) C(n,j+1) = n C(n-1,j)]. *)
Definition row_absorbs (n : nat) : bool :=
  let row := pascal_row n in
  let above := pascal_row (n - 1) in
  forallb (fun j => (Z.of_nat (S j) * nth (S j) row 0 =? Z.of_nat n * nth j above 0)%Z)
          (seq 0 n).

(** The control points of [box] form the axis-aligned lattice of origin
    [origin] and edge lengths [edge]: point [(i,j,k)] is
    [origin + (i/l edge_x, j/m edge_y, k/n edge_z)]. *)
Definition lattice (box : CFreeFormDefBox) (origin edge : list Q) : Prop :=
  forall i j k, (i <= lDegree box)%nat -> (j <= mDegree box)%nat -> (k <= nDegree box)%nat ->
    ControlPoint box i j k 0
    == coord origin 0
       + inject_Z (Z.of_nat i) / inject_Z (Z.of_nat (lDegree box)) * coord edge 0 /\
    ControlPoint box i j k 1
    == coord origin 1
       + inject_Z (Z.of_nat j) / inject_Z (Z.of_nat (mDegree box)) * coord edge 1 /\
    ControlPoint box i j k 2
    == coord origin 2
       + inject_Z (Z.of_nat k) / inject_Z (Z.of_nat (nDegree box)) * coord edge 2.

(** The box of degrees (1,1,1) whose control point [(i,j,k)] is the point
    [(i,j,k)]. *)
Definition unit_box : CFreeFormDefBox :=
  {| nDim := 3; lDegree := 1; mDegree := 1; nDegree := 1;
     Coord_Control_Points :=
       map (fun i => map (fun j => map (fun k => [inject_Z i; inject_Z j; inject_Z k])
                                       [0; 1]%Z) [0; 1]%Z) [0; 1]%Z |}.

(** [P[i][j][k][iDim] = x] for the array [double ****Coord_Control_Points];
    a write outside the array is dropped. *)
Definition cp_write (P : list (list (list (list Q)))) (i j k iDim : nat) (x : Q) :
    list (list (list (list Q))) :=
  let plane := nth i P [] in
  let line := nth j plane [] in
  let point := nth k line [] in
  <[i := <[j := <[k := <[iDim := x]> point]> line]> plane]> P.

(** The loop nest [for (iDegree <= lDegree) for (jDegree <= mDegree)
    for (kDegree <= nDegree)] with a body that updates the control point
    [(iDegree, jDegree, kDegree)]. *)
Definition ForControlPoints (l m n : nat) (body : nat -> nat -> nat -> list Q -> list Q)
    (P : list (list (list (list Q)))) : list (list (list (list Q))) :=
  imap (fun i plane =>
          if (i <=? l)%nat then
            imap (fun j line =>
                    if (j <=? m)%nat then
                      imap (fun k point => if (k <=? n)%nat then body i j k point else point)
                           line
                    else line)
                 plane
          else plane)
       P.

(** [SetControlPoints_Parallelepiped] for the corners
    [Coord_Corner_Points]: the eight corner control points are written
    first, then every control point, the corner ones included, receives
    its lattice position. *)
Definition SetControlPoints_Parallelepiped (Coord_Corner_Points : list (list Q))
    (box : CFreeFormDefBox) : CFreeFormDefBox :=
  let C := Coord_Corner_Points in
  let l := lDegree box in let m := mDegree box in let n := nDegree box in
  let lOrder := (l + 1)%nat in let mOrder := (m + 1)%nat in let nOrder := (n + 1)%nat in
  let P :=
    fold_left
      (fun P iDim =>
         let P := cp_write P 0 0 0 iDim (coord (corner C 0) iDim) in
         let P := cp_write P (lOrder - 1) 0 0 iDim (coord (corner C 1) iDim) in
         let P := cp_write P (lOrder - 1) (mOrder - 1) 0 iDim (coord (corner C 2) iDim) in
         let P := cp_write P 0 (mOrder - 1) 0 iDim (coord (corner C 3) iDim) in
         let P := cp_write P 0 0 (nOrder - 1) iDim (coord (corner C 4) iDim) in
         let P := cp_write P (lOrder - 1) 0 (nOrder - 1) iDim (coord (corner C 5) iDim) in
         let P := cp_write P (lOrder - 1) (mOrder - 1) (nOrder - 1) iDim
                           (coord (corner C 6) iDim) in
         cp_write P 0 (mOrder - 1) (nOrder - 1) iDim (coord (corner C 7) iDim))
      (seq 0 (nDim box)) (Coord_Control_Points box) in
  let P :=
    ForControlPoints l m n
      (fun iDegree jDegree kDegree point =>
         let point :=
           <[0%nat := coord (corner C 0) 0
                      + inject_Z (Z.of_nat iDegree) / inject_Z (Z.of_nat l)
                        * (coord (corner C 1) 0 - coord (corner C 0) 0)]> point in
         let point :=
           <[1%nat := coord (corner C 0) 1
                      + inject_Z (Z.of_nat jDegree) / inject_Z (Z.of_nat m)
                        * (coord (corner C 3) 1 - coord (corner C 0) 1)]> point in
         <[2%nat := coord (corner C 0) 2
                    + inject_Z (Z.of_nat kDegree) / inject_Z (Z.of_nat n)
                      * (coord (corner C 4) 2 - coord (corner C 0) 2)]> point)
      P in
  {| nDim := nDim box; lDegree := l; mDegree := m; nDegree := n;
     Coord_Control_Points := P |}.

(** The array the constructor allocates: [lOrder] planes of [mOrder] lines
    of [nOrder] points of three coordinates. *)
Definition allocated (l m n : nat) (P : list (list (list (list Q)))) : Prop :=
  length P = S l /\
  Forall (fun plane =>
            length plane = S m /\
            Forall (fun line => length line = S n /\ Forall (fun point => length point = 3%nat) line)
                   plane)
         P.

(** The edges of the lattice [SetControlPoints_Parallelepiped] builds: the
    x-extent to corner 1, the y-extent to corner 3, the z-extent to
    corner 4. *)
Definition axis_edges (C : list (list Q)) : list Q :=
  [coord (corner C 1) 0 - coord (corner C 0) 0;
   coord (corner C 3) 1 - coord (corner C 0) 1;
   coord (corner C 4) 2 - coord (corner C 0) 2].

(** A box of degrees (2,1,1) as the constructor leaves it, and the corners
    of a sheared box: the top face is moved by 5 along x. *)
Definition fresh_box : CFreeFormDefBox :=
  {| nDim := 3; lDegree := 2; mDegree := 1; nDegree := 1;
     Coord_Control_Points := replicate 3 (replicate 2 (replicate 2 [0; 0; 0])) |}.

Definition sheared_corners : list (list Q) :=
  [ [0;0;0]; [1;0;0]; [1;1;0]; [0;1;0];
    [5;0;1]; [6;0;1]; [6;1;1]; [5;1;1] ].

(** [GetFFDObjFunc]: the squared distance, accumulated over [iDim < nDim]. *)
Definition GetFFDObjFunc (box : CFreeFormDefBox) (val_coord xyz : list Q) : Q :=
  fold_left
    (fun ObjFunc iDim =>
       ObjFunc + (coord val_coord iDim - coord xyz iDim) * (coord val_coord iDim - coord xyz iDim))
    (seq 0 (nDim box)) 0.

(** ** Properties *)

(** *** Sums *)

Lemma TripleSum_qsum lmn term :
  TripleSum lmn term ==
  qsum (fun i => qsum (fun j => qsum (fun k => term i j k)
                                     (seq 0 (S (nth 2 lmn 0%nat))))
                      (seq 0 (S (nth 1 lmn 0%nat))))
       (seq 0 (S (nth 0 lmn 0%nat))).
Proof.
  unfold TripleSum.
  set (L := seq 0 (S (nth 0 lmn 0%nat))). set (M := seq 0 (S (nth 1 lmn 0%nat))).
  set (N := seq 0 (S (nth 2 lmn 0%nat))).
  assert (Hk : forall i j a, fold_left (fun value k => value + term i j k) N a
                             == a + qsum (fun k => term i j k) N).
  { intros i j a. apply (fold_acc (fun k => term i j k)). }
  assert (Hj : forall i a,
             fold_left (fun value j => fold_left (fun value k => value + term i j k) N value) M a
             == a + qsum (fun j => qsum (fun k => term i j k) N) M).
  { intros i. induction M as [|j M IH]; intros a; cbn [fold_left].
    - unfold qsum. cbn. ring.
    - rewrite IH, qsum_cons, Hk. ring. }
  assert (Hi : forall a,
             fold_left (fun value i =>
                          fold_left (fun value j =>
                                       fold_left (fun value k => value + term i j k) N value)
                                    M value) L a
             == a + qsum (fun i => qsum (fun j => qsum (fun k => term i j k) N) M) L).
  { induction L as [|i L IH]; intros a; cbn [fold_left].
    - unfold qsum. cbn. ring.
    - rewrite IH, qsum_cons, Hj. ring. }
  rewrite Hi. ring.
Qed.

Lemma qsum_zero g l : (forall i, In i l -> g i == 0) -> qsum g l == 0.
Proof.
  intros H. rewrite (qsum_ext_in g (fun _ => 0) l H). clear H.
  induction l as [|x l IH]; [reflexivity|]. rewrite qsum_cons, IH. ring.
Qed.

(** A sum that picks the single index [a]. *)
Lemma qsum_pick g a n :
  (a <= n)%nat ->
  qsum (fun i => g i * (if (i =? a)%nat then 1 else 0)) (seq 0 (S n)) == g a.
Proof.
  intros Ha.
  replace (seq 0 (S n)) with (seq 0 a ++ a :: seq (S a) (n - a)).
  2:{ change (a :: seq (S a) (n - a)) with (seq a (S (n - a))).
      rewrite <- seq_app. f_equal. lia. }
  assert (Happ : forall h l1 l2, qsum h (l1 ++ l2) == qsum h l1 + qsum h l2).
  { intros h l1 l2. unfold qsum at 1. rewrite fold_left_app, fold_acc. reflexivity. }
  rewrite Happ, qsum_cons, Nat.eqb_refl.
  rewrite !qsum_zero.
  - ring.
  - intros i Hi. apply in_seq in Hi.
    destruct (Nat.eqb_spec i a); [lia | ring].
  - intros i Hi. apply in_seq in Hi.
    destruct (Nat.eqb_spec i a); [lia | ring].
Qed.

(** *** The basis at the ends of the interval *)

Lemma GetBernstein_end (upper : bool) (n i : nat) (t : Q) :
  (i <= n)%nat -> t == end_value upper -> (upper = true -> (1 <= n)%nat) ->
  GetBernstein (Z.of_nat n) (Z.of_nat i) t
  == if (i =? end_index upper n)%nat then 1 else 0.
Proof.
  intros Hi Ht Hn. unfold GetBernstein.
  destruct (Z.gtb_spec (Z.of_nat i) (Z.of_nat n)) as [?|_]; [lia|].
  assert (H0 : Qeq_bool t 0 = negb upper).
  { destruct upper; cbn [negb end_value] in *.
    - destruct (Qeq_bool t 0) eqn:E; [|reflexivity].
      apply Qeq_bool_iff in E. rewrite E in Ht. discriminate Ht.
    - now apply Qeq_bool_iff. }
  assert (H1 : upper = true -> Qeq_bool t 1 = true).
  { intros ->. now apply Qeq_bool_iff. }
  destruct (Z.eqb_spec (Z.of_nat i) 0) as [Hi0|Hi0].
  - assert (i = 0)%nat by lia. subst i. rewrite H0.
    destruct upper; cbn [negb end_index].
    + rewrite (H1 eq_refl). specialize (Hn eq_refl).
      destruct (Nat.eqb_spec 0 n); [lia | reflexivity].
    + reflexivity.
  - destruct (Z.eqb_spec (Z.of_nat i) (Z.of_nat n)) as [Hin|Hin].
    + assert (i = n) by lia. subst i. rewrite H0.
      destruct upper; cbn [negb end_index].
      * rewrite (H1 eq_refl), Nat.eqb_refl. reflexivity.
      * destruct (Nat.eqb_spec n 0); [lia | reflexivity].
    + destruct upper; cbn [end_index end_value] in *.
      * destruct (Nat.eqb_spec i n); [lia|].
        rewrite Ht. assert (E : 1 - 1 == 0) by ring.
        rewrite E, (Qpower_0 (Z.of_nat n - Z.of_nat i)) by lia. ring.
      * destruct (Nat.eqb_spec i 0); [lia|].
        rewrite Ht, (Qpower_0 (Z.of_nat i)) by lia. ring.
Qed.

(** With degree 0 the single basis function is 0 at [t = 1]. *)
Lemma GetBernstein_degree0_at_1 (i : nat) (t : Q) :
  t == 1 -> GetBernstein (Z.of_nat 0) (Z.of_nat i) t == 0.
Proof.
  intros Ht. unfold GetBernstein.
  destruct (Z.gtb_spec (Z.of_nat i) (Z.of_nat 0)) as [?|Hle]; [reflexivity|].
  assert (i = 0)%nat by lia. subst i. cbn [Z.of_nat Z.eqb].
  destruct (Qeq_bool t 0) eqn:E.
  - apply Qeq_bool_iff in E. rewrite E in Ht. discriminate Ht.
  - apply Qeq_bool_iff in Ht. now rewrite Ht.
Qed.

Lemma coord_EvalCartesianCoord box uvw d :
  (d < nDim box)%nat ->
  coord (EvalCartesianCoord box uvw) d ==
  qsum (fun i => qsum (fun j => qsum (fun k =>
          ControlPoint box i j k d
          * GetBernstein (Z.of_nat (lDegree box)) (Z.of_nat i) (coord uvw 0)
          * GetBernstein (Z.of_nat (mDegree box)) (Z.of_nat j) (coord uvw 1)
          * GetBernstein (Z.of_nat (nDegree box)) (Z.of_nat k) (coord uvw 2))
        (seq 0 (S (nDegree box)))) (seq 0 (S (mDegree box)))) (seq 0 (S (lDegree box))).
Proof.
  intros Hd. unfold EvalCartesianCoord, coord at 1.
  rewrite nth_map_seq by exact Hd. rewrite TripleSum_qsum. reflexivity.
Qed.

(** X12. [EvalCartesianCoord] interpolates the corner control points: at a
    corner of the parameter cube it returns the control point with the
    matching end indices, whatever the other control points are. The upper
    end needs a degree of at least 1 in its direction: in a direction of
    degree 0 the routine returns the zero vector at parameter 1. *)
Theorem box_corners_interpolated (box : CFreeFormDefBox) (d : nat) :
  (d < nDim box)%nat ->
  (forall (a b c : bool) (uvw : list Q),
     coord uvw 0 == end_value a -> coord uvw 1 == end_value b ->
     coord uvw 2 == end_value c ->
     (a = true -> (1 <= lDegree box)%nat) -> (b = true -> (1 <= mDegree box)%nat) ->
     (c = true -> (1 <= nDegree box)%nat) ->
     (lDegree box < 1000)%nat -> (mDegree box < 1000)%nat -> (nDegree box < 1000)%nat ->
     coord (EvalCartesianCoord box uvw) d
     == ControlPoint box (end_index a (lDegree box)) (end_index b (mDegree box))
                         (end_index c (nDegree box)) d) /\
  (forall uvw : list Q,
     (lDegree box = 0%nat /\ coord uvw 0 == 1) \/
     (mDegree box = 0%nat /\ coord uvw 1 == 1) \/
     (nDegree box = 0%nat /\ coord uvw 2 == 1) ->
     coord (EvalCartesianCoord box uvw) d == 0).
Proof.
  intros Hd. split.
  - intros a b c uvw Ha Hb Hc Hl Hm Hn _ _ _.
    rewrite coord_EvalCartesianCoord by exact Hd.
    rewrite <- (qsum_pick (fun i => ControlPoint box i (end_index b (mDegree box))
                                     (end_index c (nDegree box)) d)
                          (end_index a (lDegree box)) (lDegree box))
      by (destruct a; cbn; lia).
    apply qsum_ext_in. intros i Hi. apply in_seq in Hi.
    rewrite <- (GetBernstein_end a (lDegree box) i (coord uvw 0)) by (assumption || lia).
    rewrite <- (qsum_pick (fun j => ControlPoint box i j (end_index c (nDegree box)) d
                                    * GetBernstein (Z.of_nat (lDegree box)) (Z.of_nat i)
                                                   (coord uvw 0))
                          (end_index b (mDegree box)) (mDegree box))
      by (destruct b; cbn; lia).
    apply qsum_ext_in. intros j Hj. apply in_seq in Hj.
    rewrite <- (GetBernstein_end b (mDegree box) j (coord uvw 1)) by (assumption || lia).
    rewrite <- (qsum_pick (fun k => ControlPoint box i j k d
                                    * GetBernstein (Z.of_nat (lDegree box)) (Z.of_nat i)
                                                   (coord uvw 0)
                                    * GetBernstein (Z.of_nat (mDegree box)) (Z.of_nat j)
                                                   (coord uvw 1))
                          (end_index c (nDegree box)) (nDegree box))
      by (destruct c; cbn; lia).
    apply qsum_ext_in. intros k Hk. apply in_seq in Hk.
    rewrite <- (GetBernstein_end c (nDegree box) k (coord uvw 2)) by (assumption || lia).
    reflexivity.
  - intros uvw H. rewrite coord_EvalCartesianCoord by exact Hd.
    apply qsum_zero. intros i Hi. apply qsum_zero. intros j Hj.
    apply qsum_zero. intros k Hk. apply in_seq in Hi, Hj, Hk.
    destruct H as [[E Ht]|[[E Ht]|[E Ht]]]; rewrite E in *.
    + rewrite (GetBernstein_degree0_at_1 i _ Ht). ring.
    + rewrite (GetBernstein_degree0_at_1 j _ Ht). ring.
    + rewrite (GetBernstein_degree0_at_1 k _ Ht). ring.
Qed.

Lemma box_corners_interpolated_witness :
  coord (EvalCartesianCoord quadratic_box [1; 0; 1]) 0 == 4.
Proof.
  exact (proj1 (box_corners_interpolated quadratic_box 0 ltac:(cbn; lia))
           true false true [1; 0; 1] ltac:(reflexivity) ltac:(reflexivity) ltac:(reflexivity)
           ltac:(intros _; cbn; lia) ltac:(intros _; cbn; lia) ltac:(intros _; cbn; lia)
           ltac:(cbn; lia) ltac:(cbn; lia) ltac:(cbn; lia)).
Defined.

(** *** Derivatives of the basis *)

Lemma qsum_shift g n : qsum g (seq 0 (S n)) == g 0%nat + qsum (fun i => g (S i)) (seq 0 n).
Proof. rewrite <- cons_seq, qsum_cons, <- seq_shift, qsum_map. reflexivity. Qed.

Lemma qsum_telescope (f : nat -> Q) n :
  qsum (fun i => f i - f (S i)) (seq 0 n) == f 0%nat - f n.
Proof.
  induction n as [|n IH]; [unfold qsum; cbn; ring|].
  rewrite seq_S. cbn [Nat.add].
  assert (Happ : forall h l1 l2, qsum h (l1 ++ l2) == qsum h l1 + qsum h l2).
  { intros h l1 l2. unfold qsum at 1. rewrite fold_left_app, fold_acc. reflexivity. }
  rewrite Happ, IH, qsum_cons. unfold qsum at 1. cbn [fold_left]. ring.
Qed.

Lemma GetBernstein_above n i t : (n < i)%Z -> GetBernstein n i t = 0.
Proof.
  intros H. unfold GetBernstein. destruct (Z.gtb_spec i n); [reflexivity | lia].
Qed.

(** One more order of derivative of a family that vanishes above the
    degree sums to zero. *)
Lemma DerivativeSum_step (n order : nat) (t : Q) :
  (1 <= n)%nat ->
  GetBernsteinDerivative (Z.of_nat n - 1) (Z.of_nat n) t order == 0 ->
  DerivativeSum n t (S order) == 0.
Proof.
  intros Hn Htop. unfold DerivativeSum.
  set (f := fun i => GetBernsteinDerivative (Z.of_nat n - 1) (Z.of_nat i) t order).
  rewrite qsum_shift.
  rewrite (qsum_ext_in _ (fun i => inject_Z (Z.of_nat n) * (f i - f (S i)))).
  - rewrite qsum_scale, qsum_telescope.
    cbn [GetBernsteinDerivative]. change (Z.of_nat 0 =? 0)%Z with true. cbv iota.
    fold (f 0%nat). assert (Hf : f n == 0) by exact Htop. rewrite Hf. ring.
  - intros i _. cbn [GetBernsteinDerivative].
    destruct (Z.eqb_spec (Z.of_nat (S i)) 0) as [?|_]; [lia|].
    destruct (Z.eqb_spec (Z.of_nat n) 0) as [?|_]; [lia|].
    unfold f. replace (Z.of_nat (S i) - 1)%Z with (Z.of_nat i) by lia. reflexivity.
Qed.

Ltac derivative_at_degree_1 :=
  unfold DerivativeSum, qsum; cbn [seq fold_left Z.of_nat Pos.of_succ_nat Pos.succ];
  cbn [GetBernsteinDerivative];
  repeat match goal with
  | |- context [(?a - ?b)%Z] =>
      let v := eval vm_compute in (a - b)%Z in change (a - b)%Z with v
  end;
  repeat match goal with
  | |- context [(?a =? ?b)%Z] =>
      let v := eval vm_compute in (a =? b)%Z in change (a =? b)%Z with v; cbv iota
  end;
  change (inject_Z 0) with 0; change (inject_Z 1) with 1; ring.

(** X13. The first derivatives of the basis functions of a degree of at
    least 1 sum to zero, and so do the second derivatives for a degree of at
    least 2. For degree 1 they do not: the branch taken for degree 0 and a
    positive index returns the parameter itself, so the second derivative of
    the basis function of index 1 is [-t] where the polynomial has none. *)
Theorem basis_derivatives_sum (n : nat) (t : Q) :
  ((1 <= n)%nat -> (n < 1000)%nat -> DerivativeSum n t 1 == 0) /\
  ((2 <= n)%nat -> (n < 1000)%nat -> DerivativeSum n t 2 == 0) /\
  GetBernsteinDerivative 1 0 t 2 == 0 /\
  GetBernsteinDerivative 1 1 t 2 == - t /\
  DerivativeSum 1 t 2 == - t.
Proof.
  split; [|split; [|split; [|split]]].
  - intros Hn _. apply DerivativeSum_step; [exact Hn|].
    cbn [GetBernsteinDerivative]. rewrite GetBernstein_above by lia. reflexivity.
  - intros Hn _. apply DerivativeSum_step; [lia|].
    cbn [GetBernsteinDerivative].
    destruct (Z.eqb_spec (Z.of_nat n) 0) as [?|_]; [lia|].
    destruct (Z.eqb_spec (Z.of_nat n - 1) 0) as [?|_]; [lia|].
    rewrite !GetBernstein_above by lia. ring.
  - derivative_at_degree_1.
  - derivative_at_degree_1.
  - derivative_at_degree_1.
Qed.

Lemma basis_derivatives_sum_witness : DerivativeSum 3 (1 # 4) 2 == 0.
Proof.
  exact (proj1 (proj2 (basis_derivatives_sum 3 (1 # 4))) ltac:(lia) ltac:(lia)).
Defined.

(** *** [Binomial] *)

Lemma rows_exact : forallb row_exact (seq 0 (S MAX_EXACT_DEGREE)) = true.
Proof. vm_compute. reflexivity. Qed.

(** X14. With an [unsigned long] of 64 bits, up to [n = 67] [Binomial]
    returns the binomial coefficient: it satisfies [C(n,m) m! (n-m)! = n!],
    is symmetric in [m] and [n - m], and is positive. *)
Theorem binomial_exact_to_67 (n m : nat) :
  (n <= MAX_EXACT_DEGREE)%nat -> (m <= n)%nat ->
  (Binomial n m * factorial m * factorial (n - m) = factorial n)%Z /\
  Binomial n m = Binomial n (n - m) /\
  (0 < Binomial n m)%Z.
Proof.
  intros Hn Hm. pose proof rows_exact as H.
  rewrite forallb_forall in H.
  specialize (H n ltac:(apply in_seq; unfold MAX_EXACT_DEGREE in *; lia)).
  unfold row_exact in H. cbv zeta in H. rewrite forallb_forall in H.
  specialize (H m ltac:(apply in_seq; lia)).
  apply andb_true_iff in H as [H1 H2].
  apply Z.eqb_eq in H1, H2.
  rewrite <- (Binomial_pascal n m) in H1, H2 by (assumption || lia).
  rewrite <- (Binomial_pascal n (n - m)) in H2 by (assumption || lia).
  split; [exact H1|]. split; [exact H2|].
  assert (Hf : forall k, (0 < factorial k)%Z).
  { induction k as [|k IH]; [reflexivity|]. cbn [factorial]. lia. }
  pose proof (Hf n) as Fn. pose proof (Hf m) as Fm. pose proof (Hf (n - m)%nat) as Fd.
  rewrite <- H1 in Fn. nia.
Qed.

Lemma binomial_exact_to_67_witness :
  (Binomial 67 33 * factorial 33 * factorial 34 = factorial 67)%Z.
Proof.
  exact (proj1 (binomial_exact_to_67 67 33 ltac:(unfold MAX_EXACT_DEGREE; lia) ltac:(lia))).
Defined.

(** *** The objective function *)

(** X15. [GetFFDObjFunc] is never negative, and in three dimensions it is
    zero exactly when the two points agree in all three coordinates. *)
Theorem objective_is_squared_distance (box : CFreeFormDefBox) (val_coord xyz : list Q) :
  0 <= GetFFDObjFunc box val_coord xyz /\
  (nDim box = 3%nat ->
   (GetFFDObjFunc box val_coord xyz == 0 <->
    forall iDim, (iDim < 3)%nat -> coord val_coord iDim == coord xyz iDim)).
Proof.
  unfold GetFFDObjFunc. split.
  - change (0 <= qsum (fun iDim => (coord val_coord iDim - coord xyz iDim)
                                   * (coord val_coord iDim - coord xyz iDim))
                      (seq 0 (nDim box))).
    induction (seq 0 (nDim box)) as [|x l IH]; [discriminate|].
    rewrite qsum_cons. cbv beta.
    set (a := coord val_coord x - coord xyz x).
    assert (0 <= a * a) by (clearbody a; clear IH; nra).
    lra.
  - intros ->. cbn [seq fold_left].
    set (a := coord val_coord 0 - coord xyz 0). set (b := coord val_coord 1 - coord xyz 1).
    set (c := coord val_coord 2 - coord xyz 2).
    split.
    + intros H iDim Hi.
      assert (Na : 0 <= a * a) by nra. assert (Nb : 0 <= b * b) by nra.
      assert (Nc : 0 <= c * c) by nra.
      assert (Ha : a == 0).
      { assert (E : a * a == 0) by lra. now destruct (Qmult_integral _ _ E). }
      assert (Hb : b == 0).
      { assert (E : b * b == 0) by lra. now destruct (Qmult_integral _ _ E). }
      assert (Hc : c == 0).
      { assert (E : c * c == 0) by lra. now destruct (Qmult_integral _ _ E). }
      unfold a, b, c in *.
      destruct iDim as [|[|[|iDim]]]; try lia; lra.
    + intros H.
      pose proof (H 0%nat ltac:(lia)). pose proof (H 1%nat ltac:(lia)).
      pose proof (H 2%nat ltac:(lia)).
      assert (Ha : a == 0) by (unfold a; lra). assert (Hb : b == 0) by (unfold b; lra).
      assert (Hc : c == 0) by (unfold c; lra).
      rewrite Ha, Hb, Hc. ring.
Qed.

(** *** Point inversion from an exact guess *)

Lemma Qlt_bool_true x y : x < y -> Qlt_bool x y = true.
Proof.
  intros H. unfold Qlt_bool. destruct (Qle_bool y x) eqn:E; [|reflexivity].
  apply Qle_bool_iff in E. exfalso. apply (Qlt_not_le _ _ H E).
Qed.

Section ExactGuess.

Variable rand : nat -> Z.
Variable RAND_MAX : Z.
Variable box : CFreeFormDefBox.
Variable xyz : list Q.
Variable tol : Q.
Variable it_max : nat.

Hypothesis three_dimensions : nDim box = 3%nat.
Hypothesis tol_positive : 0 < tol.

Lemma coord_ForDims3 f a d :
  (d < 3)%nat -> (3 <= length a)%nat -> coord (ForDims box f a) d = f d (coord a d).
Proof.
  intros Hd Ha. unfold ForDims, coord. rewrite nth_imap by lia.
  rewrite three_dimensions. apply Nat.ltb_lt in Hd. now rewrite Hd.
Qed.

Lemma length_ForDims f a : length (ForDims box f a) = length a.
Proof. unfold ForDims. apply length_imap. Qed.

Lemma Gradient_at_solution P d :
  (forall dim, (dim < 3)%nat -> coord (EvalCartesianCoord box P) dim == coord xyz dim) ->
  (d < 3)%nat -> coord (GetFFDGradient box P xyz) d == 0.
Proof.
  intros Hex Hd. unfold GetFFDGradient, coord at 1.
  rewrite three_dimensions, nth_map_seq by exact Hd.
  cbn [seq fold_left].
  rewrite !GetDerivative2_residual by (rewrite three_dimensions; lia).
  unfold F. rewrite !Hex by lia. ring.
Qed.

(** One pass of the loop from a state whose parametric coordinates already
    map onto the target: the pass leaves through [break], moves nothing and
    prints nothing. *)
Lemma Newton_at_solution st :
  length (ParamCoord st) = 3%nat -> length (IndepTerm st) = 3%nat ->
  (forall dim, (dim < 3)%nat ->
     coord (EvalCartesianCoord box (ParamCoord st)) dim == coord xyz dim) ->
  let r := Newton_Iteration rand RAND_MAX box xyz tol it_max 0 st in
  r.2 = true /\ cout r.1 = cout st /\ restarts r.1 = restarts st /\
  RandonCounter r.1 = RandonCounter st /\
  forall d, (d < 3)%nat ->
    coord (ParamCoord r.1) d
    == (1 - SOR_Factor st) * coord (ParamCoord st) d
       + SOR_Factor st * coord (ParamCoord st) d.
Proof.
  intros HP HI Hex. unfold Newton_Iteration. cbv zeta.
  set (G := GetFFDGradient box (ParamCoord st) xyz).
  set (I1 := ForDims box (fun iDim _ => - coord G iDim) (IndepTerm st)).
  set (H := GetFFDHessian box (ParamCoord st) xyz (Hessian st)).
  set (I2 := if negb (Qeq_bool (Determinant_of H (Adjugate H)) 0) then _ else I1).
  assert (HG : forall d, (d < 3)%nat -> coord G d == 0).
  { intros d Hd. apply Gradient_at_solution; assumption. }
  assert (HI1 : forall d, (d < 3)%nat -> coord I1 d == 0).
  { intros d Hd. unfold I1. rewrite coord_ForDims3 by lia. rewrite HG by exact Hd. ring. }
  assert (HL1 : length I1 = 3%nat) by (unfold I1; now rewrite length_ForDims).
  assert (HI2 : forall d, (d < 3)%nat -> coord I2 d == 0).
  { intros d Hd. unfold I2. destruct (negb _); [|now apply HI1].
    rewrite coord_ForDims3 by lia. rewrite coord_ForDims3 by (cbn; lia).
    rewrite three_dimensions. cbn [seq fold_left].
    rewrite !HI1 by lia. unfold Qdiv. ring. }
  assert (Htest : Qlt_bool (Qabs (coord I2 0)) tol && Qlt_bool (Qabs (coord I2 1)) tol
                  && Qlt_bool (Qabs (coord I2 2)) tol = true).
  { rewrite !Qlt_bool_true; [reflexivity | | |];
      rewrite HI2 by lia; exact tol_positive. }
  rewrite Htest. cbn [fst snd cout restarts RandonCounter ParamCoord].
  repeat split. intros d Hd.
  rewrite coord_ForDims3 by lia. rewrite HI2 by exact Hd. ring.
Qed.

End ExactGuess.

(** X16. When the guess already maps onto the target point, the point
    inversion returns the guess after a single pass of its loop: no restart,
    no message, whatever the random source and the iteration cap (of at
    least one) are. *)
Theorem inversion_keeps_exact_guess
  (rand : nat -> Z) (RAND_MAX : Z) (box : CFreeFormDefBox) (xyz guess : list Q)
  (tol : Q) (it_max fuel : nat) :
  nDim box = 3%nat -> 0 < tol -> (1 <= it_max)%nat -> (1 <= fuel)%nat ->
  (forall dim, (dim < 3)%nat ->
     coord (EvalCartesianCoord box guess) dim == coord xyz dim) ->
  exists r,
    GetParametricCoord_Iterative rand RAND_MAX box xyz tol it_max fuel guess = Some r /\
    iterations r = 1%nat /\ cout (final r) = [] /\ restarts (final r) = 0%nat /\
    forall d, (d < 3)%nat -> coord (returned r) d == coord guess d.
Proof.
  intros HD Htol Hit Hfuel Hex.
  unfold GetParametricCoord_Iterative. rewrite HD. cbn [seq map].
  set (st := {| ParamCoord := _ |}).
  destruct fuel as [|fuel]; [lia|]. cbn [External_Loop].
  assert (Hlt : (0 <? it_max * Random_Trials)%nat = true).
  { apply Nat.ltb_lt. unfold Random_Trials. lia. }
  rewrite Hlt.
  destruct (Newton_at_solution rand RAND_MAX box xyz tol it_max HD Htol st
              eq_refl eq_refl) as (Hstop & Hcout & Hrest & _ & Hpar).
  { intros dim Hdim. rewrite <- (Hex dim Hdim). unfold EvalCartesianCoord. reflexivity. }
  destruct (Newton_Iteration rand RAND_MAX box xyz tol it_max 0 st) as [st' stop].
  cbn [fst snd] in *. subst stop.
  assert (Hne : (0 =? it_max * Random_Trials)%nat = false).
  { apply Nat.eqb_neq. unfold Random_Trials. lia. }
  rewrite Hne. eexists. split; [reflexivity|].
  cbn [iterations final returned cout restarts].
  split; [reflexivity|]. split; [exact Hcout|]. split; [exact Hrest|].
  intros d Hd. rewrite (Hpar d Hd). unfold st. cbn [ParamCoord SOR_Factor].
  destruct d as [|[|[|d]]]; try lia; cbn [coord nth]; ring.
Qed.

Lemma inversion_keeps_exact_guess_witness :
  exists r,
    GetParametricCoord_Iterative rand_zero RAND_MAX_sample line_box [1 # 2; 0; 0]
      tol_sample 2 1 [1 # 2; 0; 0] = Some r /\
    iterations r = 1%nat /\ cout (final r) = [] /\ restarts (final r) = 0%nat /\
    forall d, (d < 3)%nat -> coord (returned r) d == coord [1 # 2; 0; 0] d.
Proof.
  apply (inversion_keeps_exact_guess rand_zero RAND_MAX_sample line_box
           [1 # 2; 0; 0] [1 # 2; 0; 0] tol_sample 2 1);
    [reflexivity | reflexivity | lia | lia |].
  intros dim Hdim. destruct dim as [|[|[|dim]]]; try lia; vm_compute; reflexivity.
Defined.

(** *** Linear precision *)

Lemma rows_absorb : forallb row_absorbs (seq 0 (S MAX_EXACT_DEGREE)) = true.
Proof. vm_compute. reflexivity. Qed.

Lemma pascal_absorb n j :
  (n <= MAX_EXACT_DEGREE)%nat -> (j < n)%nat ->
  (Z.of_nat (S j) * nth (S j) (pascal_row n) 0 = Z.of_nat n * nth j (pascal_row (n - 1)) 0)%Z.
Proof.
  intros Hn Hj. pose proof rows_absorb as H. rewrite forallb_forall in H.
  specialize (H n ltac:(apply in_seq; unfold MAX_EXACT_DEGREE in *; lia)).
  unfold row_absorbs in H. cbv zeta in H. rewrite forallb_forall in H.
  specialize (H j ltac:(apply in_seq; lia)). now apply Z.eqb_eq in H.
Qed.

(** The basis functions weighted by [i/n] sum to the parameter. *)
Lemma Bernstein_mean n t :
  (1 <= n)%nat -> (n <= MAX_EXACT_DEGREE)%nat ->
  qsum (fun i => inject_Z (Z.of_nat i) / inject_Z (Z.of_nat n)
                 * GetBernstein (Z.of_nat n) (Z.of_nat i) t)
       (seq 0 (S n)) == t.
Proof.
  intros H1 Hn.
  assert (Hn0 : ~ inject_Z (Z.of_nat n) == 0).
  { change 0 with (inject_Z 0). rewrite inject_Z_injective. lia. }
  rewrite qsum_shift. change (inject_Z (Z.of_nat 0)) with 0.
  rewrite (qsum_ext_in _
             (fun j => t * (inject_Z (nth j (pascal_row (n - 1)) 0%Z) * t ^ Z.of_nat j
                            * (1 - t) ^ Z.of_nat (length (pascal_row (n - 1)) - 1 - j)))).
  - rewrite qsum_scale.
    replace (seq 0 n) with (seq 0 (length (pascal_row (n - 1))))
      by (rewrite pascal_row_length; f_equal; lia).
    rewrite <- evalH_qsum, pascal_row_sum by ring.
    field. exact Hn0.
  - intros j Hj. apply in_seq in Hj.
    rewrite GetBernstein_formula by (assumption || lia).
    rewrite pascal_row_length.
    replace (S (n - 1) - 1 - j)%nat with (n - S j)%nat by lia.
    rewrite Qpower_succ_nat.
    pose proof (pascal_absorb n j Hn ltac:(lia)) as E.
    apply (f_equal inject_Z) in E. rewrite !inject_Z_mult in E.
    set (c := inject_Z (nth (S j) (pascal_row n) 0%Z)) in *.
    set (c' := inject_Z (nth j (pascal_row (n - 1)) 0%Z)) in *.
    assert (Ec : inject_Z (Z.of_nat (S j)) * c == inject_Z (Z.of_nat n) * c')
      by (rewrite E; reflexivity).
    assert (Ec' : c' == inject_Z (Z.of_nat (S j)) * c / inject_Z (Z.of_nat n))
      by (rewrite Ec; field; exact Hn0).
    rewrite Ec'. field. exact Hn0.
Qed.

Lemma qsum_plus g h l : qsum (fun i => g i + h i) l == qsum g l + qsum h l.
Proof.
  induction l as [|x l IH]; [unfold qsum; cbn; ring|].
  rewrite !qsum_cons, IH. ring.
Qed.

Lemma qsum_product a b c L M N :
  qsum (fun i => qsum (fun j => qsum (fun k => a i * b j * c k) N) M) L
  == qsum a L * qsum b M * qsum c N.
Proof.
  rewrite (qsum_ext_in _ (fun i => qsum b M * qsum c N * a i)).
  - rewrite qsum_scale. ring.
  - intros i _.
    rewrite (qsum_ext_in _ (fun j => a i * qsum c N * b j)).
    + rewrite qsum_scale. ring.
    + intros j _. rewrite qsum_scale. ring.
Qed.

Lemma BernsteinSum_qsum n t :
  (1 <= n)%nat -> (n <= MAX_EXACT_DEGREE)%nat ->
  qsum (fun i => GetBernstein (Z.of_nat n) (Z.of_nat i) t) (seq 0 (S n)) == 1.
Proof.
  intros H1 Hn. apply (BernsteinSum_one n t Hn). intros ->. lia.
Qed.

Lemma affine_sum n t x0 dx :
  (1 <= n)%nat -> (n <= MAX_EXACT_DEGREE)%nat ->
  qsum (fun i => (x0 + inject_Z (Z.of_nat i) / inject_Z (Z.of_nat n) * dx)
                 * GetBernstein (Z.of_nat n) (Z.of_nat i) t)
       (seq 0 (S n)) == x0 + t * dx.
Proof.
  intros H1 Hn.
  rewrite (qsum_ext_in _
             (fun i => x0 * GetBernstein (Z.of_nat n) (Z.of_nat i) t
                       + dx * (inject_Z (Z.of_nat i) / inject_Z (Z.of_nat n)
                               * GetBernstein (Z.of_nat n) (Z.of_nat i) t)))
    by (intros i _; ring).
  rewrite qsum_plus, !qsum_scale, BernsteinSum_qsum, Bernstein_mean by assumption. ring.
Qed.

Lemma lattice_affine (box : CFreeFormDefBox) (origin edge uvw : list Q) (d : nat) :
  nDim box = 3%nat ->
  (1 <= lDegree box <= MAX_EXACT_DEGREE)%nat ->
  (1 <= mDegree box <= MAX_EXACT_DEGREE)%nat ->
  (1 <= nDegree box <= MAX_EXACT_DEGREE)%nat ->
  lattice box origin edge -> (d < 3)%nat ->
  coord (EvalCartesianCoord box uvw) d == coord origin d + coord uvw d * coord edge d.
Proof.
  intros HD [Hl1 Hl] [Hm1 Hm] [Hn1 Hn] Hlat Hd.
  rewrite coord_EvalCartesianCoord by lia.
  set (Bl := fun i => GetBernstein (Z.of_nat (lDegree box)) (Z.of_nat i) (coord uvw 0)).
  set (Bm := fun j => GetBernstein (Z.of_nat (mDegree box)) (Z.of_nat j) (coord uvw 1)).
  set (Bn := fun k => GetBernstein (Z.of_nat (nDegree box)) (Z.of_nat k) (coord uvw 2)).
  assert (Sl : qsum Bl (seq 0 (S (lDegree box))) == 1) by now apply BernsteinSum_qsum.
  assert (Sm : qsum Bm (seq 0 (S (mDegree box))) == 1) by now apply BernsteinSum_qsum.
  assert (Sn : qsum Bn (seq 0 (S (nDegree box))) == 1) by now apply BernsteinSum_qsum.
  destruct d as [|[|[|d]]]; try lia.
  - rewrite (qsum_ext_in _ (fun i => qsum (fun j => qsum (fun k =>
               ((coord origin 0 + inject_Z (Z.of_nat i) / inject_Z (Z.of_nat (lDegree box))
                                  * coord edge 0) * Bl i) * Bm j * Bn k)
               (seq 0 (S (nDegree box)))) (seq 0 (S (mDegree box))))).
    + rewrite qsum_product, Sm, Sn. unfold Bl. rewrite affine_sum by assumption. ring.
    + intros i Hi. apply qsum_ext_in. intros j Hj. apply qsum_ext_in. intros k Hk.
      apply in_seq in Hi, Hj, Hk.
      destruct (Hlat i j k ltac:(lia) ltac:(lia) ltac:(lia)) as (E & _ & _).
      rewrite E. reflexivity.
  - rewrite (qsum_ext_in _ (fun i => qsum (fun j => qsum (fun k =>
               Bl i * ((coord origin 1 + inject_Z (Z.of_nat j) / inject_Z (Z.of_nat (mDegree box))
                                         * coord edge 1) * Bm j) * Bn k)
               (seq 0 (S (nDegree box)))) (seq 0 (S (mDegree box))))).
    + rewrite qsum_product, Sl, Sn. unfold Bm. rewrite affine_sum by assumption. ring.
    + intros i Hi. apply qsum_ext_in. intros j Hj. apply qsum_ext_in. intros k Hk.
      apply in_seq in Hi, Hj, Hk.
      destruct (Hlat i j k ltac:(lia) ltac:(lia) ltac:(lia)) as (_ & E & _).
      rewrite E. fold (Bl i) (Bm j) (Bn k). ring.
  - rewrite (qsum_ext_in _ (fun i => qsum (fun j => qsum (fun k =>
               Bl i * Bm j * ((coord origin 2 + inject_Z (Z.of_nat k)
                                 / inject_Z (Z.of_nat (nDegree box)) * coord edge 2) * Bn k))
               (seq 0 (S (nDegree box)))) (seq 0 (S (mDegree box))))).
    + rewrite qsum_product, Sl, Sm. unfold Bn. rewrite affine_sum by assumption. ring.
    + intros i Hi. apply qsum_ext_in. intros j Hj. apply qsum_ext_in. intros k Hk.
      apply in_seq in Hi, Hj, Hk.
      destruct (Hlat i j k ltac:(lia) ltac:(lia) ltac:(lia)) as (_ & _ & E).
      rewrite E. fold (Bl i) (Bm j) (Bn k). ring.
Qed.

(** X17. A box whose control points form an axis-aligned lattice, with
    degrees between 1 and 67, evaluates to the affine map of that lattice at
    every parametric point, inside the unit cube or not. *)
Theorem lattice_box_is_affine (box : CFreeFormDefBox) (origin edge uvw : list Q) (d : nat) :
  nDim box = 3%nat ->
  (1 <= lDegree box <= MAX_EXACT_DEGREE)%nat ->
  (1 <= mDegree box <= MAX_EXACT_DEGREE)%nat ->
  (1 <= nDegree box <= MAX_EXACT_DEGREE)%nat ->
  lattice box origin edge -> (d < 3)%nat ->
  coord (EvalCartesianCoord box uvw) d == coord origin d + coord uvw d * coord edge d.
Proof. apply lattice_affine. Qed.

Lemma unit_box_lattice : lattice unit_box [0; 0; 0] [1; 1; 1].
Proof.
  intros i j k Hi Hj Hk. cbn in Hi, Hj, Hk.
  destruct i as [|[|i]]; try lia; destruct j as [|[|j]]; try lia;
    destruct k as [|[|k]]; try lia; repeat split; vm_compute; reflexivity.
Qed.

Lemma lattice_box_is_affine_witness :
  coord (EvalCartesianCoord unit_box [3 # 4; 5; -(1 # 2)]) 1 == 5.
Proof.
  exact (lattice_box_is_affine unit_box [0; 0; 0] [1; 1; 1] [3 # 4; 5; -(1 # 2)] 1
           eq_refl ltac:(unfold MAX_EXACT_DEGREE; cbn; lia)
           ltac:(unfold MAX_EXACT_DEGREE; cbn; lia)
           ltac:(unfold MAX_EXACT_DEGREE; cbn; lia) unit_box_lattice ltac:(lia)).
Defined.

(** *** The lattice of [SetControlPoints_Parallelepiped] *)

Lemma Forall_insert_nth {A} (Pr : A -> Prop) (l : list A) (i : nat) (x : A) :
  Forall Pr l -> ((i < length l)%nat -> Pr x) -> Forall Pr (<[i := x]> l).
Proof.
  intros Hl Hx. destruct (Nat.lt_ge_cases i (length l)) as [Hi|Hi].
  - apply Forall_insert; auto.
  - now rewrite list_insert_ge.
Qed.

Lemma Forall_nth_default {A} (Pr : A -> Prop) (l : list A) (i : nat) (d : A) :
  Forall Pr l -> (i < length l)%nat -> Pr (nth i l d).
Proof.
  intros Hl Hi. destruct (lookup_lt_is_Some_2 l i Hi) as [x Hx].
  rewrite nth_lookup, Hx. exact (Forall_lookup_1 _ _ _ _ Hl Hx).
Qed.

Lemma allocated_cp_write l m n P i j k iDim x :
  allocated l m n P -> allocated l m n (cp_write P i j k iDim x).
Proof.
  intros [HL HF]. unfold cp_write. cbv zeta. split; [now rewrite length_insert|].
  apply Forall_insert_nth; [exact HF|]. intros Hi.
  destruct (Forall_nth_default _ P i [] HF Hi) as [HLp HFp].
  split; [now rewrite length_insert|].
  apply Forall_insert_nth; [exact HFp|]. intros Hj.
  destruct (Forall_nth_default _ _ j [] HFp Hj) as [HLl HFl].
  split; [now rewrite length_insert|].
  apply Forall_insert_nth; [exact HFl|]. intros Hk.
  rewrite length_insert. exact (Forall_nth_default _ _ k [] HFl Hk).
Qed.

Lemma allocated_point l m n P i j k :
  allocated l m n P -> (i <= l)%nat -> (j <= m)%nat -> (k <= n)%nat ->
  length (nth i P []) = S m /\ length (nth j (nth i P []) []) = S n /\
  length (nth k (nth j (nth i P []) []) []) = 3%nat.
Proof.
  intros [HL HF] Hi Hj Hk.
  destruct (Forall_nth_default _ P i [] HF ltac:(lia)) as [HLp HFp].
  destruct (Forall_nth_default _ _ j [] HFp ltac:(lia)) as [HLl HFl].
  pose proof (Forall_nth_default _ _ k [] HFl ltac:(lia)) as Hpt.
  cbv beta in Hpt. auto.
Qed.

Lemma nth_ForControlPoints l m n body P i j k :
  allocated l m n P -> (i <= l)%nat -> (j <= m)%nat -> (k <= n)%nat ->
  nth k (nth j (nth i (ForControlPoints l m n body P) []) []) []
  = body i j k (nth k (nth j (nth i P []) []) []).
Proof.
  intros HP Hi Hj Hk.
  destruct (allocated_point l m n P i j k HP Hi Hj Hk) as (H1 & H2 & _).
  destruct HP as [HL _]. unfold ForControlPoints.
  rewrite (nth_imap _ _ [] i) by lia.
  apply Nat.leb_le in Hi as Hi'. rewrite Hi'.
  rewrite (nth_imap _ _ [] j) by lia.
  apply Nat.leb_le in Hj as Hj'. rewrite Hj'.
  rewrite (nth_imap _ _ [] k) by lia.
  apply Nat.leb_le in Hk as Hk'. now rewrite Hk'.
Qed.

(** [SetControlPoints_Parallelepiped] leaves the axis-aligned lattice
    spanned from corner 0 by the x-extent to corner 1, the y-extent to
    corner 3 and the z-extent to corner 4. *)
Lemma Parallelepiped_lattice C box :
  allocated (lDegree box) (mDegree box) (nDegree box) (Coord_Control_Points box) ->
  lattice (SetControlPoints_Parallelepiped C box) (corner C 0) (axis_edges C).
Proof.
  intros HP i j k Hi Hj Hk. unfold SetControlPoints_Parallelepiped in *.
  cbv zeta in *. cbn [lDegree mDegree nDegree] in *.
  unfold ControlPoint. cbn [Coord_Control_Points].
  set (P1 := fold_left _ _ _).
  assert (HP1 : allocated (lDegree box) (mDegree box) (nDegree box) P1).
  { unfold P1. clear P1. revert HP. generalize (Coord_Control_Points box).
    induction (seq 0 (nDim box)) as [|d ds IH]; intros P HP; [exact HP|].
    cbn [fold_left]. apply IH. now repeat apply allocated_cp_write. }
  rewrite (nth_ForControlPoints _ _ _ _ P1 i j k HP1 Hi Hj Hk).
  destruct (allocated_point _ _ _ P1 i j k HP1 Hi Hj Hk) as (_ & _ & H3).
  destruct (nth k (nth j (nth i P1 []) []) []) as [|p0 [|p1 [|p2 [|]]]];
    try discriminate H3.
  unfold axis_edges. cbn [coord nth insert list_insert]. repeat split; reflexivity.
Qed.

(** X18. [SetControlPoints_Parallelepiped] builds an axis-aligned box from
    corner 0, the x of corner 1, the y of corner 3 and the z of corner 4:
    the eight corner assignments it starts with are all overwritten, so the
    control point at the far end is [(x1, y3, z4)] whatever corner 6 is, and
    the box evaluates to the affine map of that lattice. *)
Theorem parallelepiped_is_axis_aligned (C : list (list Q)) (box : CFreeFormDefBox) :
  nDim box = 3%nat ->
  allocated (lDegree box) (mDegree box) (nDegree box) (Coord_Control_Points box) ->
  (1 <= lDegree box <= MAX_EXACT_DEGREE)%nat ->
  (1 <= mDegree box <= MAX_EXACT_DEGREE)%nat ->
  (1 <= nDegree box <= MAX_EXACT_DEGREE)%nat ->
  let box' := SetControlPoints_Parallelepiped C box in
  lattice box' (corner C 0) (axis_edges C) /\
  (forall d, (d < 3)%nat ->
     ControlPoint box' (lDegree box) (mDegree box) (nDegree box) d
     == coord [coord (corner C 1) 0; coord (corner C 3) 1; coord (corner C 4) 2] d) /\
  (forall uvw d, (d < 3)%nat ->
     coord (EvalCartesianCoord box' uvw) d
     == coord (corner C 0) d + coord uvw d * coord (axis_edges C) d).
Proof.
  intros HD HP Hl Hm Hn box'.
  pose proof (Parallelepiped_lattice C box HP) as Hlat. fold box' in Hlat.
  split; [exact Hlat|]. split.
  - intros d Hd.
    destruct (Hlat (lDegree box) (mDegree box) (nDegree box)) as (E0 & E1 & E2);
      try (unfold box'; cbn [SetControlPoints_Parallelepiped lDegree mDegree nDegree]; lia).
    unfold box' in E0, E1, E2.
    cbn [SetControlPoints_Parallelepiped lDegree mDegree nDegree] in E0, E1, E2.
    assert (Nl : ~ inject_Z (Z.of_nat (lDegree box)) == 0).
    { change 0 with (inject_Z 0). rewrite inject_Z_injective. lia. }
    assert (Nm : ~ inject_Z (Z.of_nat (mDegree box)) == 0).
    { change 0 with (inject_Z 0). rewrite inject_Z_injective. lia. }
    assert (Nn : ~ inject_Z (Z.of_nat (nDegree box)) == 0).
    { change 0 with (inject_Z 0). rewrite inject_Z_injective. lia. }
    destruct d as [|[|[|d]]]; try lia; unfold box'.
    + rewrite E0. unfold axis_edges. cbn [coord nth]. field. exact Nl.
    + rewrite E1. unfold axis_edges. cbn [coord nth]. field. exact Nm.
    + rewrite E2. unfold axis_edges. cbn [coord nth]. field. exact Nn.
  - intros uvw d Hd. apply lattice_affine; try assumption.
Qed.

Lemma parallelepiped_is_axis_aligned_witness :
  coord (EvalCartesianCoord (SetControlPoints_Parallelepiped sheared_corners fresh_box)
           [0; 0; 1]) 0 == 0.
Proof.
  exact (proj2 (proj2 (parallelepiped_is_axis_aligned sheared_corners fresh_box eq_refl
           ltac:(split; [reflexivity | repeat constructor])
           ltac:(unfold MAX_EXACT_DEGREE; cbn; lia)
           ltac:(unfold MAX_EXACT_DEGREE; cbn; lia)
           ltac:(unfold MAX_EXACT_DEGREE; cbn; lia))) [0; 0; 1] 0%nat ltac:(lia)).
Defined.

End BoxEvaluation.

(* ================================================================== *)
(** * [CFreeFormDefBox]: the Hessian and the derivatives of the mapping *)
(* ================================================================== *)

Module BoxDerivatives.

Import FreeFormDefBox BoxEvaluation.

(** ** Reference notions

    The derivatives of the mapping [F] are defined here without the
    routines that compute them: a derivative is a number that bounds the
    remainder of the first-order expansion, and the polynomials below are
    the Bernstein polynomials by their recurrences. The proofs compare the
    routines [GetBernstein], [GetBernsteinDerivative], [GetDerivative3]
    and [GetDerivative5] with them. *)

(** [D] is the derivative of [f] at [t]: the remainder of the first-order
    expansion is of second order, [|f(t+h) - f(t) - h D| <= M h^2] for
    [|h| <= 1].  The difference quotient is then within [M |h|] of [D], so
    [D] is the limit of the difference quotient, and it is the only such
    number ([derivative_at_unique]). *)
Definition derivative_at (f : Q -> Q) (t D : Q) : Prop :=
  exists M, forall h, Qabs h <= 1 -> Qabs (f (t + h) - f t - h * D) <= M * (h * h).

(** The Bernstein polynomial [B_i^n] and its derivatives of order
    [order], by the recurrences
    [B_i^n = (1 - t) B_i^{n-1} + t B_{i-1}^{n-1}] and
    [(B_i^n)' = n (B_{i-1}^{n-1} - B_i^{n-1})]. *)
Fixpoint Bernstein (n i : nat) (t : Q) : Q :=
  match n, i with
  | O, O => 1
  | O, S _ => 0
  | S n', O => (1 - t) * Bernstein n' 0 t
  | S n', S i' => (1 - t) * Bernstein n' i t + t * Bernstein n' i' t
  end.

Fixpoint BernsteinD (order n i : nat) (t : Q) : Q :=
  match order with
  | O => Bernstein n i t
  | S o =>
      match n, i with
      | O, _ => 0
      | S n', O => inject_Z (Z.of_nat n) * (- BernsteinD o n' 0 t)
      | S n', S i' => inject_Z (Z.of_nat n) * (BernsteinD o n' i' t - BernsteinD o n' i t)
      end
  end.

(** The point [uvw] with parameter [k] moved to [s], and the derivative
    along parameter [k]. *)
Definition Along (uvw : list Q) (k : nat) (s : Q) : list Q :=
  <[k := s]> [coord uvw 0; coord uvw 1; coord uvw 2].

Definition partial_at (g : list Q -> Q) (k : nat) (uvw : list Q) (D : Q) : Prop :=
  derivative_at (fun s => g (Along uvw k s)) (coord uvw k) D.

(** The tensor-product polynomial of the box, differentiated [o0], [o1]
    and [o2] times along the three parameters. *)
Definition BoxPolynomial (box : CFreeFormDefBox) (o0 o1 o2 dim : nat) (p : list Q) : Q :=
  qsum (fun i => qsum (fun j => qsum (fun k =>
          ControlPoint box i j k dim
          * BernsteinD o0 (lDegree box) i (coord p 0)
          * BernsteinD o1 (mDegree box) j (coord p 1)
          * BernsteinD o2 (nDegree box) k (coord p 2))
        (seq 0 (S (nDegree box)))) (seq 0 (S (mDegree box)))) (seq 0 (S (lDegree box))).

(** Differentiating [order] times in a direction of degree [degree] at
    parameter [t] stays within what the routines compute: the recursion
    of [GetBernsteinDerivative] does not reach degree 0 at [t = 1]. *)
Definition reaches (order degree : nat) (t : Q) : Prop :=
  (order < degree)%nat \/ (order = degree /\ ~ t == 1).

(** How many times entry [(i, j)] differentiates along parameter [k]. *)
Definition times (k i j : nat) : nat :=
  ((if (k =? i)%nat then 1 else 0) + (if (k =? j)%nat then 1 else 0))%nat.

(** The three degrees are at least 1 and their binomial coefficients fit
    64 bits. *)
Definition exact_degrees (box : CFreeFormDefBox) : Prop :=
  (1 <= lDegree box <= MAX_EXACT_DEGREE)%nat /\
  (1 <= mDegree box <= MAX_EXACT_DEGREE)%nat /\
  (1 <= nDegree box <= MAX_EXACT_DEGREE)%nat.

(** How many times the first derivative along parameter [k]
    differentiates along parameter [a]. *)
Definition once (a k : nat) : nat := if (a =? k)%nat then 1%nat else 0%nat.

(** The partial derivatives of [F] along the three parameters, at every
    point, and the derivative of [dF/dp_i] along parameter [j] at [uvw]. *)
Definition first_derivatives (box : CFreeFormDefBox) (dF : nat -> nat -> list Q -> Q) : Prop :=
  forall dim k p, (dim < 3)%nat -> (k < 3)%nat ->
    partial_at (fun q => F box q dim) k p (dF dim k p).

Definition second_derivative (dF : nat -> nat -> list Q -> Q) (i j : nat) (uvw : list Q)
    (d2F : nat -> Q) : Prop :=
  forall dim, (dim < 3)%nat -> partial_at (dF dim i) j uvw (d2F dim).

(** The entry as the specification writes it: the sum over the spatial
    dimensions of [2 (dF/dp_i) (dF/dp_j) + (F - xyz) (d2F/dp_i dp_j)]. *)
Definition Hessian_as_specified (box : CFreeFormDefBox) (uvw xyz : list Q)
    (dF : nat -> nat -> list Q -> Q) (d2F : nat -> Q) (i j : nat) : Q :=
  qsum (fun dim => 2 * dF dim i uvw * dF dim j uvw
                   + (F box uvw dim - coord xyz dim) * d2F dim)
       (seq 0 (nDim box)).

(** The entry with the factor 2 on the second term as well. *)
Definition Hessian_entry (box : CFreeFormDefBox) (uvw xyz : list Q)
    (dF : nat -> nat -> list Q -> Q) (d2F : nat -> Q) (i j : nat) : Q :=
  qsum (fun dim => 2 * dF dim i uvw * dF dim j uvw
                   + 2 * (F box uvw dim - coord xyz dim) * d2F dim)
       (seq 0 (nDim box)).

(** The derivatives of the box polynomial, as functions. *)
Definition BoxPolynomial_dF (box : CFreeFormDefBox) (dim k : nat) (p : list Q) : Q :=
  BoxPolynomial box (once 0 k) (once 1 k) (once 2 k) dim p.

Definition BoxPolynomial_d2F (box : CFreeFormDefBox) (i j : nat) (uvw : list Q) (dim : nat) : Q :=
  BoxPolynomial box (times 0 i j) (times 1 i j) (times 2 i j) dim uvw.

(** ** Proofs *)

(** *** Derivatives of sums, products and polynomials *)

Lemma Qsqr_nonneg (a : Q) : 0 <= a * a.
Proof. nra. Qed.

Lemma Qmult_le_l_nonneg (c x y : Q) : 0 <= c -> x <= y -> c * x <= c * y.
Proof.
  intros Hc Hxy. rewrite (Qmult_comm c x), (Qmult_comm c y).
  now apply Qmult_le_compat_r.
Qed.

Lemma Qabs_sqr (h : Q) : Qabs (h * h) == h * h.
Proof. apply Qabs_pos, Qsqr_nonneg. Qed.

Lemma derivative_at_bound_nonneg f t D M :
  (forall h, Qabs h <= 1 -> Qabs (f (t + h) - f t - h * D) <= M * (h * h)) -> 0 <= M.
Proof.
  intros H. specialize (H 1 ltac:(vm_compute; discriminate)).
  pose proof (Qabs_nonneg (f (t + 1) - f t - 1 * D)). lra.
Qed.

Lemma derivative_at_ext f g t D D' :
  (forall s, f s == g s) -> D == D' -> derivative_at f t D -> derivative_at g t D'.
Proof.
  intros Hfg HD [M HM]. exists M. intros h Hh.
  rewrite <- !Hfg, <- HD. now apply HM.
Qed.

Lemma derivative_at_const c t : derivative_at (fun _ => c) t 0.
Proof.
  exists 0. intros h _.
  setoid_replace (c - c - h * 0) with 0 using relation Qeq by ring.
  change (Qabs 0) with 0. lra.
Qed.

Lemma derivative_at_plus f g t Df Dg :
  derivative_at f t Df -> derivative_at g t Dg ->
  derivative_at (fun s => f s + g s) t (Df + Dg).
Proof.
  intros [Mf Hf] [Mg Hg]. exists (Mf + Mg). intros h Hh.
  setoid_replace (f (t + h) + g (t + h) - (f t + g t) - h * (Df + Dg))
    with ((f (t + h) - f t - h * Df) + (g (t + h) - g t - h * Dg))
    using relation Qeq by ring.
  eapply Qle_trans; [apply Qabs_triangle|].
  specialize (Hf h Hh). specialize (Hg h Hh). lra.
Qed.

Lemma derivative_at_scale c f t Df :
  derivative_at f t Df -> derivative_at (fun s => c * f s) t (c * Df).
Proof.
  intros [Mf Hf]. exists (Qabs c * Mf). intros h Hh.
  setoid_replace (c * f (t + h) - c * f t - h * (c * Df))
    with (c * (f (t + h) - f t - h * Df)) using relation Qeq by ring.
  rewrite Qabs_Qmult, <- Qmult_assoc.
  apply Qmult_le_l_nonneg; [apply Qabs_nonneg | now apply Hf].
Qed.

(** The product with a linear function [a + b s]. *)
Lemma derivative_at_linear a b f t Df :
  derivative_at f t Df ->
  derivative_at (fun s => (a + b * s) * f s) t (b * f t + (a + b * t) * Df).
Proof.
  intros [Mf Hf]. pose proof (derivative_at_bound_nonneg f t Df Mf Hf) as HM.
  exists ((Qabs (a + b * t) + Qabs b) * Mf + Qabs (b * Df)). intros h Hh.
  specialize (Hf h Hh). set (B := f (t + h) - f t - h * Df) in *.
  setoid_replace ((a + b * (t + h)) * f (t + h) - (a + b * t) * f t
                  - h * (b * f t + (a + b * t) * Df))
    with ((a + b * t) * B + (h * h) * (b * Df) + h * (b * B))
    using relation Qeq by (unfold B; ring).
  eapply Qle_trans; [apply Qabs_triangle|].
  eapply Qle_trans; [apply Qplus_le_compat; [apply Qabs_triangle | apply Qle_refl]|].
  pose proof (Qabs_nonneg (a + b * t)) as N1. pose proof (Qabs_nonneg b) as N2.
  pose proof (Qabs_nonneg h) as N4. pose proof (Qabs_nonneg B) as N5.
  assert (E1 : Qabs ((a + b * t) * B) <= Qabs (a + b * t) * (Mf * (h * h))).
  { rewrite Qabs_Qmult. apply Qmult_le_l_nonneg; assumption. }
  assert (E2 : Qabs (h * h * (b * Df)) == h * h * Qabs (b * Df)).
  { rewrite (Qabs_Qmult (h * h)), Qabs_sqr. reflexivity. }
  assert (E3 : Qabs (h * (b * B)) <= Qabs b * (Mf * (h * h))).
  { rewrite (Qabs_Qmult h), (Qabs_Qmult b).
    setoid_replace (Qabs h * (Qabs b * Qabs B)) with (Qabs b * (Qabs h * Qabs B))
      using relation Qeq by ring.
    apply Qmult_le_l_nonneg; [exact N2|].
    apply Qle_trans with (1 * Qabs B); [|lra].
    apply Qmult_le_compat_r; assumption. }
  rewrite E2.
  setoid_replace (((Qabs (a + b * t) + Qabs b) * Mf + Qabs (b * Df)) * (h * h))
    with (Qabs (a + b * t) * (Mf * (h * h)) + h * h * Qabs (b * Df)
          + Qabs b * (Mf * (h * h))) using relation Qeq by ring.
  lra.
Qed.

Lemma derivative_at_unique f t D1 D2 :
  derivative_at f t D1 -> derivative_at f t D2 -> D1 == D2.
Proof.
  intros [M1 H1] [M2 H2].
  pose proof (derivative_at_bound_nonneg f t D1 M1 H1) as N1.
  pose proof (derivative_at_bound_nonneg f t D2 M2 H2) as N2.
  destruct (Qeq_dec D1 D2) as [E|NE]; [exact E|exfalso].
  set (d := Qabs (D1 - D2)).
  assert (Hd : 0 < d).
  { unfold d. destruct (Qlt_le_dec 0 (Qabs (D1 - D2))) as [?|Hle]; [assumption|].
    exfalso. apply NE. pose proof (Qabs_nonneg (D1 - D2)).
    assert (E0 : Qabs (D1 - D2) == 0) by lra.
    destruct (Qabs_Qle_condition (D1 - D2) 0) as [Hc _].
    specialize (Hc ltac:(lra)). lra. }
  set (K := M1 + M2 + 1 + d).
  assert (HK : 0 < K) by (unfold K; lra).
  set (h := d / (2 * K)).
  assert (Hh0 : 0 < h).
  { unfold h. apply Qlt_shift_div_l; lra. }
  assert (Hh1 : h <= 1).
  { unfold h. apply Qle_shift_div_r; [lra|]. unfold K. lra. }
  assert (Hah : Qabs h <= 1) by (rewrite Qabs_pos; lra).
  specialize (H1 h Hah). specialize (H2 h Hah).
  assert (Hdiff : Qabs (h * (D1 - D2)) <= (M1 + M2) * (h * h)).
  { setoid_replace (h * (D1 - D2))
      with ((f (t + h) - f t - h * D2) + - (f (t + h) - f t - h * D1))
      using relation Qeq by ring.
    eapply Qle_trans; [apply Qabs_triangle|]. rewrite Qabs_opp. lra. }
  rewrite Qabs_Qmult, (Qabs_pos h) in Hdiff by lra. fold d in Hdiff.
  assert (Hcancel : d <= (M1 + M2) * h).
  { apply Qmult_le_l with (z := h); [exact Hh0|].
    setoid_replace (h * ((M1 + M2) * h)) with ((M1 + M2) * (h * h))
      using relation Qeq by ring. exact Hdiff. }
  assert (E : h * (2 * K) == d) by (unfold h; field; lra).
  assert (HMh : (M1 + M2) * h <= K * h).
  { apply Qmult_le_compat_r; [unfold K|]; lra. }
  nra.
Qed.

Lemma derivative_at_qsum (g : nat -> Q -> Q) (D : nat -> Q) (l : list nat) t :
  (forall i, In i l -> derivative_at (g i) t (D i)) ->
  derivative_at (fun s => qsum (fun i => g i s) l) t (qsum D l).
Proof.
  induction l as [|x l IH]; intros H.
  - apply (derivative_at_ext (fun _ => 0) _ t 0 _); try reflexivity.
    apply derivative_at_const.
  - apply (derivative_at_ext (fun s => g x s + qsum (fun i => g i s) l) _ t
             (D x + qsum D l)).
    + intros s. now rewrite qsum_cons.
    + now rewrite qsum_cons.
    + apply derivative_at_plus; [apply H; now left | apply IH].
      intros i Hi. apply H. now right.
Qed.

Lemma Bernstein_derivative n : forall i t,
  derivative_at (Bernstein n i) t (BernsteinD 1 n i t).
Proof.
  induction n as [|n IH]; intros i t.
  - destruct i; cbn [Bernstein BernsteinD]; apply derivative_at_const.
  - destruct i as [|i].
    + apply (derivative_at_ext (fun s => (1 + (-1) * s) * Bernstein n 0 s) _ t
               ((-1) * Bernstein n 0 t + (1 + (-1) * t) * BernsteinD 1 n 0 t)).
      * intros s. cbn [Bernstein]. ring.
      * cbn [BernsteinD]. rewrite Nat2Z.inj_succ, <- Z.add_1_r, inject_Z_plus.
        change (inject_Z 1) with 1.
        destruct n as [|n]; cbn [BernsteinD Bernstein].
        -- change (inject_Z (Z.of_nat 0)) with 0. ring.
        -- rewrite (Nat2Z.inj_succ n), <- Z.add_1_r, inject_Z_plus.
           change (inject_Z 1) with 1. ring.
      * apply derivative_at_linear, IH.
    + apply (derivative_at_ext
               (fun s => (1 + (-1) * s) * Bernstein n (S i) s + (0 + 1 * s) * Bernstein n i s)
               _ t
               (((-1) * Bernstein n (S i) t + (1 + (-1) * t) * BernsteinD 1 n (S i) t)
                + (1 * Bernstein n i t + (0 + 1 * t) * BernsteinD 1 n i t))).
      * intros s. cbn [Bernstein]. ring.
      * cbn [BernsteinD]. rewrite Nat2Z.inj_succ, <- Z.add_1_r, inject_Z_plus.
        change (inject_Z 1) with 1.
        destruct n as [|n]; cbn [BernsteinD Bernstein].
        -- change (inject_Z (Z.of_nat 0)) with 0. ring.
        -- rewrite (Nat2Z.inj_succ n), <- Z.add_1_r, inject_Z_plus.
           change (inject_Z 1) with 1.
           destruct i as [|i]; cbn [BernsteinD Bernstein]; ring.
      * apply derivative_at_plus; apply derivative_at_linear, IH.
Qed.

Lemma BernsteinD_derivative order : forall n i t,
  derivative_at (BernsteinD order n i) t (BernsteinD (S order) n i t).
Proof.
  induction order as [|o IH]; intros n i t.
  - apply (derivative_at_ext (Bernstein n i) _ t (BernsteinD 1 n i t));
      try reflexivity. apply Bernstein_derivative.
  - destruct n as [|n].
    + apply (derivative_at_ext (fun _ => 0) _ t 0); try reflexivity.
      apply derivative_at_const.
    + destruct i as [|i].
      * apply (derivative_at_ext
                 (fun s => (- inject_Z (Z.of_nat (S n))) * BernsteinD o n 0 s) _ t
                 ((- inject_Z (Z.of_nat (S n))) * BernsteinD (S o) n 0 t)).
        -- intros s. cbn [BernsteinD]. destruct o; ring.
        -- change (BernsteinD (S (S o)) (S n) 0 t)
             with (inject_Z (Z.of_nat (S n)) * (- BernsteinD (S o) n 0 t)). ring.
        -- apply derivative_at_scale, IH.
      * apply (derivative_at_ext
                 (fun s => inject_Z (Z.of_nat (S n)) * BernsteinD o n i s
                           + (- inject_Z (Z.of_nat (S n))) * BernsteinD o n (S i) s) _ t
                 (inject_Z (Z.of_nat (S n)) * BernsteinD (S o) n i t
                  + (- inject_Z (Z.of_nat (S n))) * BernsteinD (S o) n (S i) t)).
        -- intros s. change (BernsteinD (S o) (S n) (S i) s)
             with (inject_Z (Z.of_nat (S n)) * (BernsteinD o n i s - BernsteinD o n (S i) s)).
           ring.
        -- change (BernsteinD (S (S o)) (S n) (S i) t)
             with (inject_Z (Z.of_nat (S n))
                   * (BernsteinD (S o) n i t - BernsteinD (S o) n (S i) t)). ring.
        -- apply derivative_at_plus; apply derivative_at_scale, IH.
Qed.

(** *** The routines compute the Bernstein polynomials *)

Lemma nth_zip_add (l1 : list Z) : forall l2 k,
  length l1 = length l2 ->
  nth k (zip_with Z.add l1 l2) 0%Z = (nth k l1 0 + nth k l2 0)%Z.
Proof.
  induction l1 as [|a l1 IH]; intros [|b l2] k Hlen; try discriminate Hlen.
  - destruct k; reflexivity.
  - destruct k as [|k]; [reflexivity|]. cbn [zip_with nth]. apply IH.
    now injection Hlen.
Qed.

Lemma nth_snoc_zero (r : list Z) k : nth k (r ++ [0%Z]) 0%Z = nth k r 0%Z.
Proof.
  destruct (Nat.lt_ge_cases k (length r)) as [H|H].
  - now rewrite app_nth1.
  - rewrite app_nth2 by exact H. rewrite (nth_overflow r) by exact H.
    destruct (k - length r)%nat as [|[|]]; reflexivity.
Qed.

Lemma pascal_row_step n i :
  nth (S i) (pascal_row (S n)) 0%Z
  = (nth i (pascal_row n) 0 + nth (S i) (pascal_row n) 0)%Z.
Proof.
  cbn [pascal_row]. rewrite nth_zip_add by (cbn [length]; rewrite length_app; cbn; lia).
  cbn [nth]. now rewrite nth_snoc_zero.
Qed.

Lemma pascal_row_head n : nth 0 (pascal_row n) 0%Z = 1%Z.
Proof.
  induction n as [|n IH]; [reflexivity|].
  cbn [pascal_row]. rewrite nth_zip_add by (cbn [length]; rewrite length_app; cbn; lia).
  cbn [nth]. now rewrite nth_snoc_zero, IH.
Qed.

Lemma Bernstein_above n : forall i t, (n < i)%nat -> Bernstein n i t == 0.
Proof.
  induction n as [|n IH]; intros i t Hi.
  - destruct i; [lia | reflexivity].
  - destruct i as [|i]; [lia|]. cbn [Bernstein].
    rewrite (IH (S i)) by lia. rewrite (IH i) by lia. ring.
Qed.

Lemma Bernstein_closed n : forall i t, (i <= n)%nat ->
  Bernstein n i t ==
  inject_Z (nth i (pascal_row n) 0%Z) * t ^ Z.of_nat i * (1 - t) ^ Z.of_nat (n - i).
Proof.
  induction n as [|n IH]; intros i t Hi.
  - assert (i = 0)%nat by lia. subst i. reflexivity.
  - destruct i as [|i].
    + cbn [Bernstein]. rewrite IH by lia. rewrite !pascal_row_head.
      rewrite !Nat.sub_0_r, Qpower_succ_nat. ring.
    + cbn [Bernstein]. rewrite (IH i) by lia. rewrite pascal_row_step, inject_Z_plus.
      rewrite (Qpower_succ_nat t i).
      destruct (Nat.eq_dec i n) as [->|Hne].
      * rewrite Bernstein_above by lia.
        rewrite (nth_overflow (pascal_row n) (n := S n)) by (rewrite pascal_row_length; lia).
        replace (S n - S n)%nat with 0%nat by lia. rewrite Nat.sub_diag.
        change (inject_Z 0) with 0. ring.
      * rewrite (IH (S i)) by lia.
        replace (S n - S i)%nat with (S (n - S i)) by lia.
        replace (n - i)%nat with (S (n - S i)) by lia.
        rewrite !Qpower_succ_nat. ring.
Qed.

(** Up to degree 67 the routine computes the Bernstein polynomial, except
    that for degree 0 it returns 0 at [t = 1]. *)
Lemma GetBernstein_Bernstein n i t :
  (n <= MAX_EXACT_DEGREE)%nat -> (1 <= n)%nat \/ ~ t == 1 ->
  GetBernstein (Z.of_nat n) (Z.of_nat i) t == Bernstein n i t.
Proof.
  intros Hn Hcond. destruct (Nat.lt_ge_cases n i) as [Hi|Hi].
  - rewrite GetBernstein_above by lia. now rewrite Bernstein_above.
  - rewrite GetBernstein_formula; [| exact Hn | exact Hi |].
    + now rewrite Bernstein_closed.
    + intros ->. destruct Hcond as [?|?]; [lia | assumption].
Qed.

(** The routine computes the derivative of order [order] where the
    recursion does not reach degree 0 at [t = 1]. *)
Lemma GetBernsteinDerivative_BernsteinD order : forall n i t,
  (n <= MAX_EXACT_DEGREE)%nat ->
  (order < n)%nat \/ (order = n /\ ~ t == 1) ->
  GetBernsteinDerivative (Z.of_nat n) (Z.of_nat i) t order == BernsteinD order n i t.
Proof.
  induction order as [|o IH]; intros n i t Hn Hcond.
  - cbn [GetBernsteinDerivative BernsteinD]. apply GetBernstein_Bernstein; [exact Hn|].
    destruct Hcond as [?|[? ?]]; [left; lia | right; assumption].
  - destruct n as [|n]; [lia|].
    assert (Hcond' : (o < n)%nat \/ (o = n /\ ~ t == 1))
      by (destruct Hcond as [?|[? ?]]; [left; lia | right; split; [lia | assumption]]).
    assert (Hn' : (n <= MAX_EXACT_DEGREE)%nat)
      by (apply Nat.le_trans with (S n); [lia | exact Hn]).
    assert (Epred : (Z.of_nat (S n) - 1 = Z.of_nat n)%Z) by lia.
    cbn [GetBernsteinDerivative]. rewrite Epred.
    destruct i as [|i].
    + change (Z.of_nat 0 =? 0)%Z with true. cbv iota.
      rewrite (IH n 0%nat t Hn' Hcond'). reflexivity.
    + destruct (Z.eqb_spec (Z.of_nat (S i)) 0) as [?|_]; [lia|].
      destruct (Z.eqb_spec (Z.of_nat (S n)) 0) as [?|_]; [lia|].
      replace (Z.of_nat (S i) - 1)%Z with (Z.of_nat i) by lia.
      rewrite (IH n i t Hn' Hcond'), (IH n (S i) t Hn' Hcond'). reflexivity.
Qed.

Lemma reaches_pred o d t : reaches (S o) d t -> reaches o d t.
Proof. intros [H|[H Ht]]; left; lia. Qed.

Lemma reaches_0 d t : (1 <= d)%nat -> reaches 0 d t.
Proof. intros H. left. lia. Qed.

Lemma partial_BoxPolynomial box o0 o1 o2 dim p :
  partial_at (BoxPolynomial box o0 o1 o2 dim) 0 p (BoxPolynomial box (S o0) o1 o2 dim p) /\
  partial_at (BoxPolynomial box o0 o1 o2 dim) 1 p (BoxPolynomial box o0 (S o1) o2 dim p) /\
  partial_at (BoxPolynomial box o0 o1 o2 dim) 2 p (BoxPolynomial box o0 o1 (S o2) dim p).
Proof.
  unfold partial_at, BoxPolynomial, Along.
  cbn [insert list_insert coord nth].
  repeat split.
  - apply derivative_at_qsum. intros i _. apply derivative_at_qsum. intros j _.
    apply derivative_at_qsum. intros k _.
    apply (derivative_at_ext
             (fun s => (ControlPoint box i j k dim * BernsteinD o1 (mDegree box) j (coord p 1)
                        * BernsteinD o2 (nDegree box) k (coord p 2))
                       * BernsteinD o0 (lDegree box) i s) _ _
             ((ControlPoint box i j k dim * BernsteinD o1 (mDegree box) j (coord p 1)
               * BernsteinD o2 (nDegree box) k (coord p 2))
              * BernsteinD (S o0) (lDegree box) i (coord p 0)));
      [intros s; cbv beta; ring | cbv beta; ring |].
    apply derivative_at_scale, BernsteinD_derivative.
  - apply derivative_at_qsum. intros i _. apply derivative_at_qsum. intros j _.
    apply derivative_at_qsum. intros k _.
    apply (derivative_at_ext
             (fun s => (ControlPoint box i j k dim * BernsteinD o0 (lDegree box) i (coord p 0)
                        * BernsteinD o2 (nDegree box) k (coord p 2))
                       * BernsteinD o1 (mDegree box) j s) _ _
             ((ControlPoint box i j k dim * BernsteinD o0 (lDegree box) i (coord p 0)
               * BernsteinD o2 (nDegree box) k (coord p 2))
              * BernsteinD (S o1) (mDegree box) j (coord p 1)));
      [intros s; cbv beta; ring | cbv beta; ring |].
    apply derivative_at_scale, BernsteinD_derivative.
  - apply derivative_at_qsum. intros i _. apply derivative_at_qsum. intros j _.
    apply derivative_at_qsum. intros k _.
    apply (derivative_at_ext
             (fun s => (ControlPoint box i j k dim * BernsteinD o0 (lDegree box) i (coord p 0)
                        * BernsteinD o1 (mDegree box) j (coord p 1))
                       * BernsteinD o2 (nDegree box) k s) _ _
             ((ControlPoint box i j k dim * BernsteinD o0 (lDegree box) i (coord p 0)
               * BernsteinD o1 (mDegree box) j (coord p 1))
              * BernsteinD (S o2) (nDegree box) k (coord p 2)));
      [intros s; cbv beta; ring | cbv beta; ring |].
    apply derivative_at_scale, BernsteinD_derivative.
Qed.

(** The product of the three basis functions, each differentiated as
    often as its direction asks, as the routines compute it. *)
Lemma basis_product box o0 o1 o2 i j k (p : list Q) :
  exact_degrees box ->
  reaches o0 (lDegree box) (coord p 0) -> reaches o1 (mDegree box) (coord p 1) ->
  reaches o2 (nDegree box) (coord p 2) ->
  GetBernsteinDerivative (Z.of_nat (lDegree box)) (Z.of_nat i) (coord p 0) o0
  * GetBernsteinDerivative (Z.of_nat (mDegree box)) (Z.of_nat j) (coord p 1) o1
  * GetBernsteinDerivative (Z.of_nat (nDegree box)) (Z.of_nat k) (coord p 2) o2
  == BernsteinD o0 (lDegree box) i (coord p 0) * BernsteinD o1 (mDegree box) j (coord p 1)
     * BernsteinD o2 (nDegree box) k (coord p 2).
Proof.
  intros (Hl & Hm & Hn) R0 R1 R2.
  rewrite !GetBernsteinDerivative_BernsteinD by (first [assumption | lia]).
  reflexivity.
Qed.

Lemma F_BoxPolynomial box p dim :
  nDim box = 3%nat -> exact_degrees box -> (dim < 3)%nat ->
  F box p dim == BoxPolynomial box 0 0 0 dim p.
Proof.
  intros HD Hdeg Hdim. unfold F. rewrite coord_EvalCartesianCoord by lia.
  unfold BoxPolynomial.
  apply qsum_ext_in. intros i _. apply qsum_ext_in. intros j _.
  apply qsum_ext_in. intros k _.
  pose proof (basis_product box 0 0 0 i j k p Hdeg) as H.
  cbn [GetBernsteinDerivative BernsteinD] in H.
  specialize (H ltac:(apply reaches_0; destruct Hdeg as (?&?&?); lia)
                ltac:(apply reaches_0; destruct Hdeg as (?&?&?); lia)
                ltac:(apply reaches_0; destruct Hdeg as (?&?&?); lia)).
  cbn [BernsteinD]. rewrite <- !Qmult_assoc.
  rewrite <- !Qmult_assoc in H. now rewrite H.
Qed.

Ltac fold_order0 H :=
  repeat match type of H with
  | context [GetBernsteinDerivative ?a ?b ?c 0] =>
      change (GetBernsteinDerivative a b c 0) with (GetBernstein a b c) in H
  end.

Ltac closed_product box o0 o1 o2 i j k uvw dim Hdeg :=
  let H := fresh "H" in
  pose proof (basis_product box o0 o1 o2 i j k uvw Hdeg) as H;
  fold_order0 H;
  repeat match type of H with
  | reaches _ _ _ -> _ =>
      specialize (H ltac:(first [assumption | apply reaches_0; destruct Hdeg as (?&?&?); lia]))
  end;
  match type of H with
  | ?A == ?B =>
      transitivity (ControlPoint box i j k dim * A); [ring | rewrite H; ring]
  end.

Lemma GetDerivative3_BoxPolynomial box uvw dim a :
  nDim box = 3%nat -> exact_degrees box -> (a < 3)%nat ->
  reaches 1 (nth a (Degrees box) 0%nat) (coord uvw a) ->
  GetDerivative3 box uvw dim a (Degrees box)
  == BoxPolynomial box (once 0 a) (once 1 a) (once 2 a) dim uvw.
Proof.
  intros HD Hdeg Ha R. unfold GetDerivative3. rewrite TripleSum_qsum.
  unfold BoxPolynomial, Degrees in *. cbn [nth] in *.
  apply qsum_ext_in. intros i _. apply qsum_ext_in. intros j _.
  apply qsum_ext_in. intros k _.
  unfold GetDerivative1. rewrite HD.
  destruct a as [|[|[|a]]]; try lia;
    unfold idx; cbn [seq fold_left Nat.eqb once nth] in *.
  - closed_product box 1%nat 0%nat 0%nat i j k uvw dim Hdeg.
  - closed_product box 0%nat 1%nat 0%nat i j k uvw dim Hdeg.
  - closed_product box 0%nat 0%nat 1%nat i j k uvw dim Hdeg.
Qed.

Lemma GetDerivative5_BoxPolynomial box uvw dim a b :
  nDim box = 3%nat -> exact_degrees box -> (a < 3)%nat -> (b < 3)%nat ->
  (forall k, (k < 3)%nat ->
     reaches (times k a b) (nth k (Degrees box) 0%nat) (coord uvw k)) ->
  GetDerivative5 box uvw dim a b (Degrees box)
  == BoxPolynomial box (times 0 a b) (times 1 a b) (times 2 a b) dim uvw.
Proof.
  intros HD Hdeg Ha Hb R. unfold GetDerivative5. rewrite TripleSum_qsum.
  pose proof (R 0%nat ltac:(lia)) as R0. pose proof (R 1%nat ltac:(lia)) as R1.
  pose proof (R 2%nat ltac:(lia)) as R2. clear R.
  unfold BoxPolynomial, Degrees in *. cbn [nth] in *.
  apply qsum_ext_in. intros i _. apply qsum_ext_in. intros j _.
  apply qsum_ext_in. intros k _.
  unfold GetDerivative4. rewrite HD.
  destruct a as [|[|[|a]]]; try lia; destruct b as [|[|[|b]]]; try lia;
    unfold idx; cbn [seq fold_left Nat.eqb times Nat.add nth negb andb] in *.
  - closed_product box 2%nat 0%nat 0%nat i j k uvw dim Hdeg.
  - closed_product box 1%nat 1%nat 0%nat i j k uvw dim Hdeg.
  - closed_product box 1%nat 0%nat 1%nat i j k uvw dim Hdeg.
  - closed_product box 1%nat 1%nat 0%nat i j k uvw dim Hdeg.
  - closed_product box 0%nat 2%nat 0%nat i j k uvw dim Hdeg.
  - closed_product box 0%nat 1%nat 1%nat i j k uvw dim Hdeg.
  - closed_product box 1%nat 0%nat 1%nat i j k uvw dim Hdeg.
  - closed_product box 0%nat 1%nat 1%nat i j k uvw dim Hdeg.
  - closed_product box 0%nat 0%nat 2%nat i j k uvw dim Hdeg.
Qed.

(** *** The derivatives of [F] *)

Lemma BoxPolynomial_first_derivatives box :
  nDim box = 3%nat -> exact_degrees box -> first_derivatives box (BoxPolynomial_dF box).
Proof.
  intros Hd Hdeg dim k p Hdim Hk.
  destruct (partial_BoxPolynomial box 0 0 0 dim p) as (P0 & P1 & P2).
  unfold BoxPolynomial_dF, partial_at in *.
  destruct k as [|[|[|k]]]; try lia; cbn [once Nat.eqb].
  - eapply derivative_at_ext; [| reflexivity | exact P0].
    intros s. cbv beta. symmetry. now apply F_BoxPolynomial.
  - eapply derivative_at_ext; [| reflexivity | exact P1].
    intros s. cbv beta. symmetry. now apply F_BoxPolynomial.
  - eapply derivative_at_ext; [| reflexivity | exact P2].
    intros s. cbv beta. symmetry. now apply F_BoxPolynomial.
Qed.

Lemma BoxPolynomial_second_derivative box i j uvw :
  (i < 3)%nat -> (j < 3)%nat ->
  second_derivative (BoxPolynomial_dF box) i j uvw (BoxPolynomial_d2F box i j uvw).
Proof.
  intros Hi Hj dim Hdim.
  destruct (partial_BoxPolynomial box (once 0 i) (once 1 i) (once 2 i) dim uvw)
    as (P0 & P1 & P2).
  unfold BoxPolynomial_dF, BoxPolynomial_d2F, partial_at in *.
  destruct i as [|[|[|i]]]; try lia; destruct j as [|[|[|j]]]; try lia;
    cbn [once times Nat.eqb Nat.add] in *; assumption.
Qed.

(** The derivatives are unique: any functions that are the derivatives
    of [F] agree with those of the box polynomial. *)
Lemma first_derivatives_BoxPolynomial box dF :
  nDim box = 3%nat -> exact_degrees box -> first_derivatives box dF ->
  forall dim k p, (dim < 3)%nat -> (k < 3)%nat -> dF dim k p == BoxPolynomial_dF box dim k p.
Proof.
  intros Hd Hdeg HG dim k p Hdim Hk.
  apply (derivative_at_unique (fun s => F box (Along p k s) dim) (coord p k));
    [apply HG; assumption|].
  now apply BoxPolynomial_first_derivatives.
Qed.

Lemma second_derivative_BoxPolynomial box dF i j uvw d2F :
  nDim box = 3%nat -> exact_degrees box -> first_derivatives box dF ->
  (i < 3)%nat -> (j < 3)%nat ->
  second_derivative dF i j uvw d2F ->
  forall dim, (dim < 3)%nat -> d2F dim == BoxPolynomial_d2F box i j uvw dim.
Proof.
  intros Hd Hdeg HG Hi Hj HD2 dim Hdim.
  apply (derivative_at_unique (fun s => dF dim i (Along uvw j s)) (coord uvw j));
    [apply HD2; assumption|].
  eapply derivative_at_ext;
    [| reflexivity | exact (BoxPolynomial_second_derivative box i j uvw Hi Hj dim Hdim)].
  intros s. cbv beta. symmetry. now apply (first_derivatives_BoxPolynomial box dF).
Qed.

Lemma reaches_once_l i j uvw box :
  (i < 3)%nat ->
  (forall k, (k < 3)%nat -> reaches (times k i j) (nth k (Degrees box) 0%nat) (coord uvw k)) ->
  reaches 1 (nth i (Degrees box) 0%nat) (coord uvw i).
Proof.
  intros Hi R. specialize (R i Hi). unfold times in R.
  rewrite Nat.eqb_refl in R. destruct (i =? j)%nat; cbn [Nat.add] in R.
  - now apply reaches_pred.
  - exact R.
Qed.

Lemma reaches_once_r i j uvw box :
  (j < 3)%nat ->
  (forall k, (k < 3)%nat -> reaches (times k i j) (nth k (Degrees box) 0%nat) (coord uvw k)) ->
  reaches 1 (nth j (Degrees box) 0%nat) (coord uvw j).
Proof.
  intros Hj R. specialize (R j Hj). unfold times in R.
  rewrite Nat.eqb_refl in R. destruct (j =? i)%nat; cbn [Nat.add] in R.
  - now apply reaches_pred.
  - exact R.
Qed.

Lemma HessianTerm_derivatives box uvw xyz dF d2F dim i j :
  nDim box = 3%nat -> exact_degrees box ->
  (i < 3)%nat -> (j < 3)%nat -> (dim < 3)%nat ->
  (forall k, (k < 3)%nat -> reaches (times k i j) (nth k (Degrees box) 0%nat) (coord uvw k)) ->
  first_derivatives box dF -> second_derivative dF i j uvw d2F ->
  HessianTerm box uvw xyz dim i j
  == 2 * dF dim i uvw * dF dim j uvw + 2 * (F box uvw dim - coord xyz dim) * d2F dim.
Proof.
  intros Hd Hdeg Hi Hj Hdim R HG HD2. unfold HessianTerm.
  rewrite GetDerivative2_residual by lia.
  rewrite (GetDerivative3_BoxPolynomial box uvw dim i Hd Hdeg Hi (reaches_once_l i j uvw box Hi R)).
  rewrite (GetDerivative3_BoxPolynomial box uvw dim j Hd Hdeg Hj (reaches_once_r i j uvw box Hj R)).
  rewrite (GetDerivative5_BoxPolynomial box uvw dim i j Hd Hdeg Hi Hj R).
  rewrite (first_derivatives_BoxPolynomial box dF Hd Hdeg HG dim i uvw Hdim Hi).
  rewrite (first_derivatives_BoxPolynomial box dF Hd Hdeg HG dim j uvw Hdim Hj).
  rewrite (second_derivative_BoxPolynomial box dF i j uvw d2F Hd Hdeg HG Hi Hj HD2 dim Hdim).
  unfold BoxPolynomial_dF, BoxPolynomial_d2F. ring.
Qed.

(** C2 (amended). In exact arithmetic, for a box of three dimensions whose
    degrees are between 1 and 67, the 3 x 3 matrix allocated for it, and
    axes [i <= j] such that no parameter is differentiated more often than
    its degree, nor as often as its degree at parameter value 1: with [dF]
    the partial derivatives of [F] and [d2F] the derivative of [dF/dp_i]
    along [p_j] at the point, the entry [GetFFDHessian] stores is the sum
    over the three spatial dimensions of
    [2 (dF/dp_i)(dF/dp_j) + 2 (F - xyz)(d2F/dp_i dp_j)], and the entry
    below the diagonal is a copy of it. *)
Theorem hessian_entries
  (box : CFreeFormDefBox) (uvw xyz : list Q) (H0 : list (list Q)) (i j : nat)
  (dF : nat -> nat -> list Q -> Q) (d2F : nat -> Q) :
  nDim box = 3%nat ->
  length H0 = 3%nat -> Forall (fun row => length row = 3%nat) H0 ->
  exact_degrees box ->
  (i <= j)%nat -> (j < 3)%nat ->
  (forall k, (k < 3)%nat -> reaches (times k i j) (nth k (Degrees box) 0%nat) (coord uvw k)) ->
  first_derivatives box dF -> second_derivative dF i j uvw d2F ->
  mget (GetFFDHessian box uvw xyz H0) i j == Hessian_entry box uvw xyz dF d2F i j /\
  mget (GetFFDHessian box uvw xyz H0) j i = mget (GetFFDHessian box uvw xyz H0) i j.
Proof.
  intros Hd Hlen Hrows Hdeg Hij Hj R HG HD2.
  destruct (GetFFDHessian_3x3 box uvw xyz H0 i j Hd Hlen Hrows Hij Hj) as [E M].
  split; [|exact M]. rewrite E. unfold Hessian_entry. rewrite Hd.
  apply qsum_ext_in. intros dim Hin. apply in_seq in Hin.
  apply HessianTerm_derivatives; try assumption; lia.
Qed.

(** *** The Hessian on the box of degrees (2,1,1) *)

Lemma quadratic_box_exact_degrees : exact_degrees quadratic_box.
Proof. unfold exact_degrees, MAX_EXACT_DEGREE. cbn. lia. Qed.

(** C2 (as stated it fails). On the box of degrees (2,1,1) whose control
    point (i,j,k) is (i*i, j, k), at the centre of the parametric cube and
    with the origin as target, the routine stores 44 in entry (0,0). [F]
    has its partial derivatives and their derivative along the first
    parameter there, and with any functions that are these derivatives the
    specified formula gives 38: the second term carries a factor 2 as
    well. *)
Lemma hessian_second_term_is_doubled :
  mget (GetFFDHessian quadratic_box centre [0; 0; 0] zero3x3) 0 0 == 44 /\
  first_derivatives quadratic_box (BoxPolynomial_dF quadratic_box) /\
  second_derivative (BoxPolynomial_dF quadratic_box) 0 0 centre
    (BoxPolynomial_d2F quadratic_box 0 0 centre) /\
  (forall dF d2F,
     first_derivatives quadratic_box dF -> second_derivative dF 0 0 centre d2F ->
     Hessian_as_specified quadratic_box centre [0; 0; 0] dF d2F 0 0 == 38 /\
     ~ mget (GetFFDHessian quadratic_box centre [0; 0; 0] zero3x3) 0 0
       == Hessian_as_specified quadratic_box centre [0; 0; 0] dF d2F 0 0).
Proof.
  split; [vm_compute; reflexivity|].
  split; [apply BoxPolynomial_first_derivatives;
          [reflexivity | exact quadratic_box_exact_degrees]|].
  split; [apply BoxPolynomial_second_derivative; lia|].
  intros dF d2F HG HD2.
  assert (E : Hessian_as_specified quadratic_box centre [0; 0; 0] dF d2F 0 0 == 38).
  { unfold Hessian_as_specified, qsum. cbn [nDim quadratic_box seq fold_left].
    rewrite !(first_derivatives_BoxPolynomial quadratic_box dF eq_refl
                quadratic_box_exact_degrees HG) by lia.
    rewrite !(second_derivative_BoxPolynomial quadratic_box dF 0 0 centre d2F eq_refl
                quadratic_box_exact_degrees HG) by (assumption || lia).
    vm_compute. reflexivity. }
  split; [exact E|]. rewrite E. intros H. vm_compute in H. discriminate H.
Qed.

(** In a direction of degree 1 the second derivative the routine uses is
    not that of [F]: on the same box the routine stores -1 in entry (1,1),
    where the derivatives of [F] give 2. *)
Lemma hessian_degree_one_direction :
  mget (GetFFDHessian quadratic_box centre [0; 0; 0] zero3x3) 1 1 == -(1) /\
  Hessian_entry quadratic_box centre [0; 0; 0] (BoxPolynomial_dF quadratic_box)
    (BoxPolynomial_d2F quadratic_box 1 1 centre) 1 1 == 2.
Proof. split; vm_compute; reflexivity. Qed.

(** At parameter value 1 in a direction of degree 1 the first derivative
    the routine uses is not that of [F] either: [GetBernstein] returns 0
    for degree 0 there. *)
Lemma first_derivative_at_parameter_one :
  GetDerivative3 quadratic_box [1 # 2; 1; 1 # 2] 1 1 (Degrees quadratic_box) == 0 /\
  BoxPolynomial_dF quadratic_box 1 1 [1 # 2; 1; 1 # 2] == 1.
Proof. split; vm_compute; reflexivity. Qed.

Lemma hessian_entries_witness :
  mget (GetFFDHessian quadratic_box centre [0; 0; 0] zero3x3) 0 0
    == Hessian_entry quadratic_box centre [0; 0; 0] (BoxPolynomial_dF quadratic_box)
         (BoxPolynomial_d2F quadratic_box 0 0 centre) 0 0 /\
  mget (GetFFDHessian quadratic_box centre [0; 0; 0] zero3x3) 0 0
    = mget (GetFFDHessian quadratic_box centre [0; 0; 0] zero3x3) 0 0.
Proof.
  apply (hessian_entries quadratic_box centre [0; 0; 0] zero3x3 0 0
           (BoxPolynomial_dF quadratic_box) (BoxPolynomial_d2F quadratic_box 0 0 centre)).
  - reflexivity.
  - reflexivity.
  - repeat constructor.
  - exact quadratic_box_exact_degrees.
  - lia.
  - lia.
  - intros [|[|[|k]]] Hk; try lia.
    + right. split; [reflexivity | discriminate].
    + left. cbn. lia.
    + left. cbn. lia.
  - apply BoxPolynomial_first_derivatives; [reflexivity | exact quadratic_box_exact_degrees].
  - apply BoxPolynomial_second_derivative; lia.
Defined.

End BoxDerivatives.

(* ================================================================== *)
(** * [CVolumetricMovement]: rigid rotation, pitching and plunging     *)
(* ================================================================== *)

Module RigidRotation.

Import RigidMotion (UnsteadyKind, NO_UNSTEADY, TIME_STEPPING, DT_STEPPING_1ST,
                    DT_STEPPING_2ND, ROTATIONAL_FRAME, TIME_SPECTRAL,
                    is_time_spectral, ZONE_0).

(** The three routines call [cos] and [sin]; they are embedded over the
    real numbers, with [PI_NUMBER] as [PI]. *)

Record CPoint : Type := {
  GetCoord : list R;
  GetGridVel : list R
}.

(** The mesh: [node] holds the [GetnPoint] nodes the loops visit. *)
Record CGeometry : Type := {
  GetnDim : nat;
  node : list CPoint
}.

(** The options the three routines read and the origins they write back.
    A per-zone or per-marker option is a list of triples
    [[X; Y; Z]], indexed by zone or by monitored marker. *)
Record CConfig : Type := {
  GetUnsteady_Simulation : UnsteadyKind;
  GetAdjoint : bool;
  GetDelta_UnstTimeND : R;
  GetLength_Ref : R;
  GetOmega_Ref : R;
  GetTimeSpectral_Period : R;
  GetnTimeInstances : nat;
  GetnExtIter : Z;
  Motion_Origin : list (list R);
  Rotation_Rate : list (list R);
  Pitching_Omega : list (list R);
  Pitching_Ampl : list (list R);
  Pitching_Phase : list (list R);
  Plunging_Omega : list (list R);
  Plunging_Ampl : list (list R);
  GetnMarker_Monitoring : nat;
  RefOriginMoment : list (list R)
}.

(** [a[iDim]] for a [double a[3]], and component [k] of the option of
    zone or marker [i], as the [Get..._X], [..._Y], [..._Z] accessors
    return it. *)
Definition at_ (a : list R) (iDim : nat) : R := nth iDim a 0%R.
Definition option_of (opt : list (list R)) (i k : nat) : R := at_ (nth i opt []) k.

Inductive Console : Type :=
  | AngularVelocity (Omega : list R)
  | PitchingFrequency (Omega : list R)
  | PitchingAmplitude (degrees : list R)
  | PitchingPhaseLag (degrees : list R)
  | PlungingFrequency (Omega : list R)
  | PlungingAmplitude (Ampl : list R).

Section RealModel.

Local Open Scope R_scope.

(** [static_cast<double>(n)], exact below 2^53 (a larger value, which a
    wrapped [directIter] gives, is rounded in C++; not modelled). *)
Definition to_double (n : Z) : R := IZR n.

(** The nine assignments to [rotMatrix]. *)
Definition Rotation_Matrix (dtheta dphi dpsi : R) : list (list R) :=
  let cosTheta := cos dtheta in let cosPhi := cos dphi in let cosPsi := cos dpsi in
  let sinTheta := sin dtheta in let sinPhi := sin dphi in let sinPsi := sin dpsi in
  [[cosPhi*cosPsi; sinTheta*sinPhi*cosPsi - cosTheta*sinPsi;
    cosTheta*sinPhi*cosPsi + sinTheta*sinPsi];
   [cosPhi*sinPsi; sinTheta*sinPhi*sinPsi + cosTheta*cosPsi;
    cosTheta*sinPhi*sinPsi - sinTheta*cosPsi];
   [-sinPhi; sinTheta*cosPhi; cosTheta*cosPhi]].

Definition entry (M : list (list R)) (i j : nat) : R := at_ (nth i M []) j.

(** [r[iDim] = (x[iDim]-Center[iDim])/Lref] for [iDim < nDim], and
    [r[nDim] = 0.0] in 2D.  The dimension is 2 or 3: for another one the
    source leaves entries of [r] unset.  [Lref] is not zero. *)
Definition Relative (nDim : nat) (x Center : list R) (Lref : R) : list R :=
  map (fun iDim => if (iDim <? nDim)%nat then (at_ x iDim - at_ Center iDim) / Lref else 0)
      (seq 0 3).

(** The three assignments to [rotCoord]. *)
Definition Rotated (rotMatrix : list (list R)) (r : list R) : list R :=
  map (fun i => entry rotMatrix i 0 * at_ r 0 + entry rotMatrix i 1 * at_ r 1
                + entry rotMatrix i 2 * at_ r 2)
      (seq 0 3).

(** [for (iDim = 0; iDim < nDim; iDim++) a[iDim] = f(iDim)]. *)
Definition StoreDims (nDim : nat) (f : nat -> R) (a : list R) : list R :=
  imap (fun iDim old => if (iDim <? nDim)%nat then f iDim else old) a.

(** The body of the loop over the nodes, shared by [Rigid_Rotation] (with
    [w = Omega]) and [Rigid_Pitching] (with [w = alphaDot]). *)
Definition Rotate_Node (nDim : nat) (Center : list R) (Lref : R)
    (rotMatrix : list (list R)) (w : list R) (adjoint : bool) (p : CPoint) : CPoint :=
  let Coord := GetCoord p in
  let GridVel := GetGridVel p in
  let r := Relative nDim Coord Center Lref in
  let rotCoord := Rotated rotMatrix r in
  let newGridVel :=
    [at_ GridVel 0 + at_ w 1 * at_ rotCoord 2 - at_ w 2 * at_ rotCoord 1;
     at_ GridVel 1 + at_ w 2 * at_ rotCoord 0 - at_ w 0 * at_ rotCoord 2;
     at_ GridVel 2 + at_ w 0 * at_ rotCoord 1 - at_ w 1 * at_ rotCoord 0] in
  {| GetCoord := StoreDims nDim (fun iDim => at_ rotCoord iDim + at_ Center iDim) Coord;
     GetGridVel := if adjoint then GridVel
                   else StoreDims nDim (fun iDim => at_ newGridVel iDim) GridVel |}.

(** The old and new physical times of [Rigid_Pitching] and
    [Rigid_Plunging]. *)
Definition StepTimes (config : CConfig) (iter : nat) : R * R :=
  let time_spectral := is_time_spectral (GetUnsteady_Simulation config) in
  let deltaT := GetDelta_UnstTimeND config in
  let deltaT :=
    if time_spectral
    then GetTimeSpectral_Period config / to_double (Z.of_nat (GetnTimeInstances config))
    else deltaT in
  if GetAdjoint config then
    let nFlowIter := GetnExtIter config in
    let directIter := ((nFlowIter - Z.of_nat iter - 1) mod 2 ^ 64)%Z in
    let time_new := to_double directIter * deltaT in
    let time_old := if (iter =? 0)%nat then time_new
                    else (to_double directIter + 1) * deltaT in
    (time_old, time_new)
  else
    let time_new := to_double (Z.of_nat iter) * deltaT in
    if time_spectral then (0, time_new)
    else
      let time_old := if (iter =? 0)%nat then time_new
                      else (to_double (Z.of_nat iter) - 1) * deltaT in
      (time_old, time_new).

Definition with_RefOriginMoment (M : list (list R)) (config : CConfig) : CConfig :=
  {| GetUnsteady_Simulation := GetUnsteady_Simulation config;
     GetAdjoint := GetAdjoint config;
     GetDelta_UnstTimeND := GetDelta_UnstTimeND config;
     GetLength_Ref := GetLength_Ref config;
     GetOmega_Ref := GetOmega_Ref config;
     GetTimeSpectral_Period := GetTimeSpectral_Period config;
     GetnTimeInstances := GetnTimeInstances config;
     GetnExtIter := GetnExtIter config;
     Motion_Origin := Motion_Origin config;
     Rotation_Rate := Rotation_Rate config;
     Pitching_Omega := Pitching_Omega config;
     Pitching_Ampl := Pitching_Ampl config;
     Pitching_Phase := Pitching_Phase config;
     Plunging_Omega := Plunging_Omega config;
     Plunging_Ampl := Plunging_Ampl config;
     GetnMarker_Monitoring := GetnMarker_Monitoring config;
     RefOriginMoment := M |}.

(** [Rigid_Rotation] in a build without MPI; the call of [UpdateDualGrid]
    at its end has no counterpart here. *)
Definition Rigid_Rotation (geometry : CGeometry) (config : CConfig) (iZone iter : nat) :
    CGeometry * CConfig * list Console :=
  let time_spectral := is_time_spectral (GetUnsteady_Simulation config) in
  let adjoint := GetAdjoint config in
  let nDim := GetnDim geometry in
  let dt := GetDelta_UnstTimeND config in
  let Lref := GetLength_Ref config in
  let iZone := if time_spectral then ZONE_0 else iZone in
  let dt :=
    if adjoint then
      if (iter =? 0)%nat then (to_double (GetnExtIter config) - 1) * dt else -1 * dt
    else
      if (iter =? 0)%nat then 0 else dt in
  let Center := map (option_of (Motion_Origin config) iZone) (seq 0 3) in
  let Omega :=
    map (fun k => option_of (Rotation_Rate config) iZone k / GetOmega_Ref config) (seq 0 3) in
  let dt :=
    if time_spectral
    then GetTimeSpectral_Period config * to_double (Z.of_nat iter)
         / to_double (Z.of_nat (GetnTimeInstances config))
    else dt in
  let dtheta := at_ Omega 0 * dt in
  let dphi := at_ Omega 1 * dt in
  let dpsi := at_ Omega 2 * dt in
  let out := if (iter =? 0)%nat then [AngularVelocity Omega] else [] in
  let rotMatrix := Rotation_Matrix dtheta dphi dpsi in
  let geometry :=
    {| GetnDim := nDim;
       node := map (Rotate_Node nDim Center Lref rotMatrix Omega adjoint) (node geometry) |} in
  let moments :=
    imap (fun jMarker Center_Moment =>
            if (jMarker <? GetnMarker_Monitoring config)%nat then
              let r := Relative nDim Center_Moment Center Lref in
              let rotCoord := Rotated rotMatrix r in
              map (fun k => at_ Center k + at_ rotCoord k) (seq 0 3)
            else Center_Moment)
         (RefOriginMoment config) in
  (geometry, with_RefOriginMoment moments config, out).

(** [Rigid_Pitching] in a build without MPI. *)
Definition Rigid_Pitching (geometry : CGeometry) (config : CConfig) (iZone iter : nat) :
    CGeometry * CConfig * list Console :=
  let time_spectral := is_time_spectral (GetUnsteady_Simulation config) in
  let adjoint := GetAdjoint config in
  let nDim := GetnDim geometry in
  let DEG2RAD := PI / 180 in
  let Lref := GetLength_Ref config in
  let iZone := if time_spectral then ZONE_0 else iZone in
  let Center := map (option_of (Motion_Origin config) iZone) (seq 0 3) in
  let Omega :=
    map (fun k => option_of (Pitching_Omega config) iZone k / GetOmega_Ref config) (seq 0 3) in
  let Ampl := map (fun k => option_of (Pitching_Ampl config) iZone k * DEG2RAD) (seq 0 3) in
  let Phase := map (fun k => option_of (Pitching_Phase config) iZone k * DEG2RAD) (seq 0 3) in
  let '(time_old, time_new) := StepTimes config iter in
  let angle k :=
    - at_ Ampl k * (sin (at_ Omega k * time_new + at_ Phase k)
                    - sin (at_ Omega k * time_old + at_ Phase k)) in
  let dtheta := angle 0%nat in
  let dphi := angle 1%nat in
  let dpsi := angle 2%nat in
  let alphaDot := map (fun k => - at_ Omega k * at_ Ampl k * cos (at_ Omega k * time_new))
                      (seq 0 3) in
  let out :=
    if (iter =? 0)%nat
    then [PitchingFrequency Omega;
          PitchingAmplitude (map (fun k => at_ Ampl k / DEG2RAD) (seq 0 3));
          PitchingPhaseLag (map (fun k => at_ Phase k / DEG2RAD) (seq 0 3))]
    else [] in
  let rotMatrix := Rotation_Matrix dtheta dphi dpsi in
  let geometry :=
    {| GetnDim := nDim;
       node := map (Rotate_Node nDim Center Lref rotMatrix alphaDot adjoint) (node geometry) |} in
  (geometry, config, out).

Definition with_Origins (O M : list (list R)) (config : CConfig) : CConfig :=
  {| GetUnsteady_Simulation := GetUnsteady_Simulation config;
     GetAdjoint := GetAdjoint config;
     GetDelta_UnstTimeND := GetDelta_UnstTimeND config;
     GetLength_Ref := GetLength_Ref config;
     GetOmega_Ref := GetOmega_Ref config;
     GetTimeSpectral_Period := GetTimeSpectral_Period config;
     GetnTimeInstances := GetnTimeInstances config;
     GetnExtIter := GetnExtIter config;
     Motion_Origin := O;
     Rotation_Rate := Rotation_Rate config;
     Pitching_Omega := Pitching_Omega config;
     Pitching_Ampl := Pitching_Ampl config;
     Pitching_Phase := Pitching_Phase config;
     Plunging_Omega := Plunging_Omega config;
     Plunging_Ampl := Plunging_Ampl config;
     GetnMarker_Monitoring := GetnMarker_Monitoring config;
     RefOriginMoment := M |}.

(** The body of the loop over the nodes of [Rigid_Plunging]. *)
Definition Plunge_Node (nDim : nat) (deltaX xDot : list R) (adjoint : bool) (p : CPoint) :
    CPoint :=
  let Coord := GetCoord p in
  let GridVel := GetGridVel p in
  {| GetCoord := StoreDims nDim (fun iDim => at_ Coord iDim + at_ deltaX iDim) Coord;
     GetGridVel := if adjoint then GridVel
                   else StoreDims nDim (fun iDim => at_ GridVel iDim + at_ xDot iDim) GridVel |}.

(** [Rigid_Plunging] in a build without MPI.  [SetMotion_Origin_X],
    [..._Y] and [..._Z] write the entry of the zone; the zone is taken to
    be one the configuration has. *)
Definition Rigid_Plunging (geometry : CGeometry) (config : CConfig) (iZone iter : nat) :
    CGeometry * CConfig * list Console :=
  let time_spectral := is_time_spectral (GetUnsteady_Simulation config) in
  let adjoint := GetAdjoint config in
  let nDim := GetnDim geometry in
  let Lref := GetLength_Ref config in
  let iZone := if time_spectral then ZONE_0 else iZone in
  let Center := map (option_of (Motion_Origin config) iZone) (seq 0 3) in
  let Omega :=
    map (fun k => option_of (Plunging_Omega config) iZone k / GetOmega_Ref config) (seq 0 3) in
  let Ampl := map (fun k => option_of (Plunging_Ampl config) iZone k / Lref) (seq 0 3) in
  let '(time_old, time_new) := StepTimes config iter in
  let deltaX :=
    map (fun k => - at_ Ampl k * (sin (at_ Omega k * time_new) - sin (at_ Omega k * time_old)))
        (seq 0 3) in
  let xDot := map (fun k => - at_ Ampl k * at_ Omega k * cos (at_ Omega k * time_new))
                  (seq 0 3) in
  let out := if (iter =? 0)%nat then [PlungingFrequency Omega; PlungingAmplitude Ampl] else [] in
  let geometry :=
    {| GetnDim := nDim;
       node := map (Plunge_Node nDim deltaX xDot adjoint) (node geometry) |} in
  let origin := map (fun k => at_ Center k + at_ deltaX k) (seq 0 3) in
  let moments :=
    imap (fun jMarker Center_Moment =>
            if (jMarker <? GetnMarker_Monitoring config)%nat
            then map (fun k => at_ Center_Moment k + at_ deltaX k) (seq 0 3)
            else Center_Moment)
         (RefOriginMoment config) in
  (geometry, with_Origins (<[iZone := origin]> (Motion_Origin config)) moments config, out).

(** ** Notions used to state the properties *)

(** The square of the distance between [x] and [c], over three
    coordinates. *)
Definition dist2 (x c : list R) : R :=
  (at_ x 0 - at_ c 0) * (at_ x 0 - at_ c 0) + (at_ x 1 - at_ c 1) * (at_ x 1 - at_ c 1)
  + (at_ x 2 - at_ c 2) * (at_ x 2 - at_ c 2).

(** The centre of the motion of a zone. *)
Definition Centre (config : CConfig) (iZone : nat) : list R :=
  map (option_of (Motion_Origin config) iZone) (seq 0 3).

(** The zone the routines work on. *)
Definition zone_of (config : CConfig) (iZone : nat) : nat :=
  if is_time_spectral (GetUnsteady_Simulation config) then ZONE_0 else iZone.

(** The configuration of the adjoint run of the same case. *)
Definition as_adjoint (config : CConfig) : CConfig :=
  {| GetUnsteady_Simulation := GetUnsteady_Simulation config;
     GetAdjoint := true;
     GetDelta_UnstTimeND := GetDelta_UnstTimeND config;
     GetLength_Ref := GetLength_Ref config;
     GetOmega_Ref := GetOmega_Ref config;
     GetTimeSpectral_Period := GetTimeSpectral_Period config;
     GetnTimeInstances := GetnTimeInstances config;
     GetnExtIter := GetnExtIter config;
     Motion_Origin := Motion_Origin config;
     Rotation_Rate := Rotation_Rate config;
     Pitching_Omega := Pitching_Omega config;
     Pitching_Ampl := Pitching_Ampl config;
     Pitching_Phase := Pitching_Phase config;
     Plunging_Omega := Plunging_Omega config;
     Plunging_Ampl := Plunging_Ampl config;
     GetnMarker_Monitoring := GetnMarker_Monitoring config;
     RefOriginMoment := RefOriginMoment config |}.

(** The time loop of a direct run: [Rigid_Plunging] at the iterations
    [0], ..., [n - 1], each on the mesh and configuration the one before
    left. *)
Fixpoint Plunge_Run (n : nat) (geometry : CGeometry) (config : CConfig) (iZone : nat) :
    CGeometry * CConfig :=
  match n with
  | O => (geometry, config)
  | S k =>
      let '(g, c) := Plunge_Run k geometry config iZone in
      let '(g', c', _) := Rigid_Plunging g c iZone k in
      (g', c')
  end.

(** The options [Rigid_Plunging] reads for the motion, which it leaves as
    they are. *)
Definition same_plunge (c c' : CConfig) : Prop :=
  GetUnsteady_Simulation c' = GetUnsteady_Simulation c /\
  GetAdjoint c' = GetAdjoint c /\
  GetDelta_UnstTimeND c' = GetDelta_UnstTimeND c /\
  GetLength_Ref c' = GetLength_Ref c /\
  GetOmega_Ref c' = GetOmega_Ref c /\
  Plunging_Omega c' = Plunging_Omega c /\
  Plunging_Ampl c' = Plunging_Ampl c.

(** Samples. *)
Definition sample_config (kind : UnsteadyKind) (adjoint : bool) (Lref : R) : CConfig :=
  {| GetUnsteady_Simulation := kind;
     GetAdjoint := adjoint;
     GetDelta_UnstTimeND := 1;
     GetLength_Ref := Lref;
     GetOmega_Ref := 1;
     GetTimeSpectral_Period := 1;
     GetnTimeInstances := 3;
     GetnExtIter := 10;
     Motion_Origin := [[1; 0; 0]];
     Rotation_Rate := [[0; 0; 1]];
     Pitching_Omega := [[0; 0; 1]];
     Pitching_Ampl := [[0; 0; 2]];
     Pitching_Phase := [[0; 0; 0]];
     Plunging_Omega := [[0; 1; 0]];
     Plunging_Ampl := [[0; 3; 0]];
     GetnMarker_Monitoring := 1;
     RefOriginMoment := [[0; 0; 0]] |}.

Definition sample_point3 : CPoint := {| GetCoord := [3; 4; 5]; GetGridVel := [0; 0; 0] |}.
Definition sample_point2 : CPoint := {| GetCoord := [3; 4]; GetGridVel := [0; 0] |}.
Definition sample_mesh3 : CGeometry := {| GetnDim := 3; node := [sample_point3] |}.
Definition sample_mesh2 : CGeometry := {| GetnDim := 2; node := [sample_point2] |}.

End RealModel.

Section RealProofs.

Local Open Scope R_scope.

Lemma Rotated_norm (a b c r0 r1 r2 : R) :
  let x := Rotated (Rotation_Matrix a b c) [r0; r1; r2] in
  at_ x 0 * at_ x 0 + at_ x 1 * at_ x 1 + at_ x 2 * at_ x 2 = r0 * r0 + r1 * r1 + r2 * r2.
Proof.
  pose proof (sin2_cos2 a) as Ha. pose proof (sin2_cos2 b) as Hb.
  pose proof (sin2_cos2 c) as Hc. unfold Rsqr in Ha, Hb, Hc.
  cbv [Rotated Rotation_Matrix entry at_ nth map seq].
  set (ca := cos a) in *. set (sa := sin a) in *.
  set (cb := cos b) in *. set (sb := sin b) in *.
  set (cc := cos c) in *. set (sc := sin c) in *.
  clearbody ca sa cb sb cc sc. nsatz.
Qed.

Lemma Rotate_Node_distance (Center : list R) (Lref a b c : R) (w : list R) (adjoint : bool)
    (p : CPoint) (c0 c1 c2 : R) :
  Lref <> 0 -> length (GetCoord p) = 3%nat -> Center = [c0; c1; c2] ->
  dist2 (GetCoord (Rotate_Node 3 Center Lref (Rotation_Matrix a b c) w adjoint p)) Center
  * (Lref * Lref) = dist2 (GetCoord p) Center.
Proof.
  intros HL Hlen ->. destruct p as [[|x0 [|x1 [|x2 [|]]]] V]; try discriminate. clear Hlen.
  pose proof (Rotated_norm a b c ((x0 - c0) / Lref) ((x1 - c1) / Lref) ((x2 - c2) / Lref)) as H.
  cbv zeta in H. unfold Rotate_Node, dist2. cbn [GetCoord].
  change (Relative 3 [x0; x1; x2] [c0; c1; c2] Lref)
    with [(x0 - c0) / Lref; (x1 - c1) / Lref; (x2 - c2) / Lref].
  set (y := Rotated _ _) in *. clearbody y.
  cbv [StoreDims imap Nat.ltb Nat.leb at_ nth compose] in *.
  replace ((x0 - c0) * (x0 - c0) + (x1 - c1) * (x1 - c1) + (x2 - c2) * (x2 - c2))
    with (((x0 - c0) / Lref * ((x0 - c0) / Lref) + (x1 - c1) / Lref * ((x1 - c1) / Lref)
           + (x2 - c2) / Lref * ((x2 - c2) / Lref)) * (Lref * Lref)) by (field; exact HL).
  rewrite <- H. ring.
Qed.

Lemma Centre_cons (config : CConfig) (iZone : nat) :
  exists c0 c1 c2, Centre config iZone = [c0; c1; c2].
Proof. unfold Centre. cbn. eauto. Qed.

(** X19. In exact arithmetic and three dimensions, for a reference length
    and a reference angular velocity that are not zero, [Rigid_Rotation]
    and [Rigid_Pitching] put every node at the distance from the centre of
    the motion that it had before, divided by the reference length: the
    relative position is divided by [Lref], rotated, and added to the
    centre without being multiplied by [Lref] again. *)
Theorem rotation_divides_distance_by_Lref (geometry : CGeometry) (config : CConfig)
    (iZone iter i : nat) (p : CPoint) :
  GetnDim geometry = 3%nat -> GetLength_Ref config <> 0 ->
  node geometry !! i = Some p -> length (GetCoord p) = 3%nat ->
  let C := Centre config (zone_of config iZone) in
  let Lref := GetLength_Ref config in
  (exists p', node (Rigid_Rotation geometry config iZone iter).1.1 !! i = Some p' /\
              dist2 (GetCoord p') C * (Lref * Lref) = dist2 (GetCoord p) C) /\
  (exists p', node (Rigid_Pitching geometry config iZone iter).1.1 !! i = Some p' /\
              dist2 (GetCoord p') C * (Lref * Lref) = dist2 (GetCoord p) C).
Proof.
  intros Hdim HL Hp Hlen C Lref.
  destruct (Centre_cons config (zone_of config iZone)) as (c0 & c1 & c2 & HC).
  split.
  - unfold Rigid_Rotation. cbn [fst node]. rewrite list_lookup_fmap, Hp. cbn [fmap option_fmap option_map].
    eexists; split; [reflexivity|]. rewrite Hdim.
    eapply Rotate_Node_distance; eauto.
  - unfold Rigid_Pitching. destruct (StepTimes config iter) as [time_old time_new].
    cbn [fst node]. rewrite list_lookup_fmap, Hp. cbn [fmap option_fmap option_map].
    eexists; split; [reflexivity|]. rewrite Hdim.
    eapply Rotate_Node_distance; eauto.
Qed.

Lemma rotation_divides_distance_by_Lref_witness :
  let config := sample_config TIME_STEPPING false 2 in
  (exists p', node (Rigid_Rotation sample_mesh3 config 0 4).1.1 !! 0%nat = Some p' /\
              dist2 (GetCoord p') [1; 0; 0] * (2 * 2) = dist2 [3; 4; 5] [1; 0; 0]) /\
  (exists p', node (Rigid_Pitching sample_mesh3 config 0 4).1.1 !! 0%nat = Some p' /\
              dist2 (GetCoord p') [1; 0; 0] * (2 * 2) = dist2 [3; 4; 5] [1; 0; 0]).
Proof.
  apply (rotation_divides_distance_by_Lref sample_mesh3 (sample_config TIME_STEPPING false 2)
           0 4 0 sample_point3); try reflexivity.
  cbn. lra.
Defined.

Lemma Rotation_Matrix_0 : Rotation_Matrix 0 0 0 = [[1; 0; 0]; [0; 1; 0]; [0; 0; 1]].
Proof.
  unfold Rotation_Matrix. rewrite cos_0, sin_0.
  repeat (f_equal; try ring).
Qed.

Lemma Rotate_Node_identity (nDim : nat) (Center : list R) (Lref : R) (w : list R)
    (adjoint : bool) (p : CPoint) (iDim : nat) :
  (nDim = 2 \/ nDim = 3)%nat -> length (GetCoord p) = nDim -> (iDim < nDim)%nat ->
  at_ (GetCoord (Rotate_Node nDim Center Lref (Rotation_Matrix 0 0 0) w adjoint p)) iDim
  = at_ Center iDim + (at_ (GetCoord p) iDim - at_ Center iDim) / Lref.
Proof.
  intros Hdim Hlen Hi. rewrite Rotation_Matrix_0. destruct p as [X V]. cbn [GetCoord] in *.
  unfold Rotate_Node. cbn [GetCoord].
  destruct Hdim as [-> | ->].
  - destruct X as [|x0 [|x1 [|]]]; try discriminate.
    destruct iDim as [|[|]]; try lia;
      cbv [StoreDims imap Nat.ltb Nat.leb at_ nth compose Rotated Relative entry map seq];
      unfold Rdiv; ring.
  - destruct X as [|x0 [|x1 [|x2 [|]]]]; try discriminate.
    destruct iDim as [|[|[|]]]; try lia;
      cbv [StoreDims imap Nat.ltb Nat.leb at_ nth compose Rotated Relative entry map seq];
      unfold Rdiv; ring.
Qed.

Lemma StepTimes_0 (config : CConfig) : (StepTimes config 0).1 = (StepTimes config 0).2.
Proof.
  unfold StepTimes, to_double. cbn [Nat.eqb Z.of_nat].
  destruct (GetAdjoint config); [reflexivity|].
  destruct (is_time_spectral _); cbn [fst snd]; [ring | reflexivity].
Qed.

(** X20. In exact arithmetic, for a reference length and a reference
    angular velocity that are not zero: at iteration 0 a direct,
    time-accurate [Rigid_Rotation] and any [Rigid_Pitching] do not rotate,
    each node goes to [Center + (Coord - Center)/Lref], which is where it
    was when the reference length is 1.  [Rigid_Plunging] at iteration 0
    leaves every coordinate as it was. *)
Theorem first_iteration_does_not_rotate (geometry : CGeometry) (config : CConfig)
    (iZone i iDim : nat) (p : CPoint) :
  (GetnDim geometry = 2 \/ GetnDim geometry = 3)%nat ->
  node geometry !! i = Some p -> length (GetCoord p) = GetnDim geometry ->
  (iDim < GetnDim geometry)%nat ->
  let C := Centre config (zone_of config iZone) in
  let Lref := GetLength_Ref config in
  let target := at_ C iDim + (at_ (GetCoord p) iDim - at_ C iDim) / Lref in
  (GetAdjoint config = false -> is_time_spectral (GetUnsteady_Simulation config) = false ->
   exists p', node (Rigid_Rotation geometry config iZone 0).1.1 !! i = Some p' /\
              at_ (GetCoord p') iDim = target) /\
  (exists p', node (Rigid_Pitching geometry config iZone 0).1.1 !! i = Some p' /\
              at_ (GetCoord p') iDim = target) /\
  (exists p', node (Rigid_Plunging geometry config iZone 0).1.1 !! i = Some p' /\
              at_ (GetCoord p') iDim = at_ (GetCoord p) iDim) /\
  (Lref = 1 -> target = at_ (GetCoord p) iDim).
Proof.
  intros Hdim Hp Hlen Hi C Lref target. repeat split.
  - intros Hadj Hts. unfold Rigid_Rotation. cbn [fst node].
    rewrite list_lookup_fmap, Hp. cbn [fmap option_fmap option_map].
    eexists; split; [reflexivity|]. rewrite Hadj, Hts. cbn [Nat.eqb].
    rewrite !Rmult_0_r. subst target C Lref. unfold zone_of. rewrite Hts.
    now apply Rotate_Node_identity.
  - unfold Rigid_Pitching. pose proof (StepTimes_0 config) as Ht.
    destruct (StepTimes config 0) as [time_old time_new]. cbn [fst snd] in Ht. subst time_old.
    cbn [fst node]. rewrite list_lookup_fmap, Hp. cbn [fmap option_fmap option_map].
    eexists; split; [reflexivity|].
    match goal with |- context [Rotation_Matrix ?a ?b ?c] =>
      replace a with 0 by ring; replace b with 0 by ring; replace c with 0 by ring end.
    now apply Rotate_Node_identity.
  - unfold Rigid_Plunging. pose proof (StepTimes_0 config) as Ht.
    destruct (StepTimes config 0) as [time_old time_new]. cbn [fst snd] in Ht. subst time_old.
    cbn [fst node]. rewrite list_lookup_fmap, Hp. cbn [fmap option_fmap option_map].
    eexists; split; [reflexivity|]. unfold Plunge_Node. cbn [GetCoord].
    destruct p as [X V]. cbn [GetCoord] in *.
    destruct Hdim as [Hd | Hd]; rewrite Hd in *.
    + destruct X as [|x0 [|x1 [|]]]; try discriminate.
      destruct iDim as [|[|]]; try lia;
        cbv [StoreDims imap Nat.ltb Nat.leb at_ nth compose map seq]; ring.
    + destruct X as [|x0 [|x1 [|x2 [|]]]]; try discriminate.
      destruct iDim as [|[|[|]]]; try lia;
        cbv [StoreDims imap Nat.ltb Nat.leb at_ nth compose map seq]; ring.
  - intros HL. subst target. rewrite HL. field.
Qed.

Lemma first_iteration_does_not_rotate_witness :
  let config := sample_config TIME_STEPPING false 1 in
  (exists p', node (Rigid_Rotation sample_mesh2 config 0 0).1.1 !! 0%nat = Some p' /\
              at_ (GetCoord p') 1 = 0 + (4 - 0) / 1) /\
  (exists p', node (Rigid_Pitching sample_mesh2 config 0 0).1.1 !! 0%nat = Some p' /\
              at_ (GetCoord p') 1 = 0 + (4 - 0) / 1) /\
  (exists p', node (Rigid_Plunging sample_mesh2 config 0 0).1.1 !! 0%nat = Some p' /\
              at_ (GetCoord p') 1 = 4).
Proof.
  pose proof (first_iteration_does_not_rotate sample_mesh2
                (sample_config TIME_STEPPING false 1) 0 0 1 sample_point2
                (or_introl eq_refl) eq_refl eq_refl (Nat.lt_succ_diag_r 1)) as H.
  cbv zeta in H. destruct H as (H1 & H2 & H3 & _).
  exact (conj (H1 eq_refl eq_refl) (conj H2 H3)).
Defined.

Lemma as_adjoint_zone (config : CConfig) (iZone : nat) :
  zone_of (as_adjoint config) iZone = zone_of config iZone.
Proof. reflexivity. Qed.

(** X21. In two dimensions, with a rotation rate about the z axis only, a
    time-accurate adjoint step of [Rigid_Rotation] (iteration not 0) turns
    the mesh back by the angle a direct step (iteration not 0) turned it:
    after the two calls every node is at [Center + (Coord - Center)/Lref^2],
    its first position when the reference length is 1. *)
Theorem adjoint_step_turns_back (geometry : CGeometry) (config : CConfig)
    (iZone iter iter' i iDim : nat) (p : CPoint) :
  GetnDim geometry = 2%nat -> GetAdjoint config = false ->
  is_time_spectral (GetUnsteady_Simulation config) = false ->
  iter <> 0%nat -> iter' <> 0%nat ->
  GetLength_Ref config <> 0 -> GetOmega_Ref config <> 0 ->
  option_of (Rotation_Rate config) iZone 0 = 0 ->
  option_of (Rotation_Rate config) iZone 1 = 0 ->
  node geometry !! i = Some p -> length (GetCoord p) = 2%nat -> (iDim < 2)%nat ->
  let C := Centre config iZone in
  let Lref := GetLength_Ref config in
  let direct := Rigid_Rotation geometry config iZone iter in
  let back := Rigid_Rotation direct.1.1 (as_adjoint direct.1.2) iZone iter' in
  exists p', node back.1.1 !! i = Some p' /\
             at_ (GetCoord p') iDim
             = at_ C iDim + (at_ (GetCoord p) iDim - at_ C iDim) / (Lref * Lref).
Proof.
  intros Hdim Hadj Hts Hit Hit' HL HO Hx Hy Hp Hlen Hi C Lref direct back.
  subst back direct. unfold Rigid_Rotation. cbn [fst snd node GetnDim].
  rewrite list_lookup_fmap, list_lookup_fmap, Hp. cbn [fmap option_fmap option_map].
  eexists; split; [reflexivity|].
  cbn [as_adjoint with_RefOriginMoment GetAdjoint GetUnsteady_Simulation GetLength_Ref
       GetDelta_UnstTimeND GetOmega_Ref Motion_Origin Rotation_Rate].
  rewrite Hadj, Hts, Hdim.
  destruct iter as [|k]; [contradiction|]. destruct iter' as [|k']; [contradiction|].
  cbn [Nat.eqb].
  destruct p as [[|x0 [|x1 [|]]] V]; try discriminate. clear Hlen Hp.
  subst C Lref. unfold Centre.
  set (L := GetLength_Ref config) in *.
  set (dt := GetDelta_UnstTimeND config).
  cbv [map seq at_ nth] in *. unfold at_ in Hx, Hy. unfold option_of, at_ in *.
  rewrite Hx, Hy.
  set (W := nth 2 (nth iZone (Rotation_Rate config) []) 0 / GetOmega_Ref config).
  set (c0 := nth 0 (nth iZone (Motion_Origin config) []) 0).
  set (c1 := nth 1 (nth iZone (Motion_Origin config) []) 0).
  set (c2 := nth 2 (nth iZone (Motion_Origin config) []) 0).
  replace (0 / GetOmega_Ref config * dt) with 0 by (field; exact HO).
  replace (0 / GetOmega_Ref config * (-1 * dt)) with 0 by (field; exact HO).
  replace (W * (-1 * dt)) with (- (W * dt)) by ring.
  unfold Rotation_Matrix. rewrite cos_neg, sin_neg, cos_0, sin_0.
  pose proof (sin2_cos2 (W * dt)) as Hsc. unfold Rsqr in Hsc.
  set (cs := cos (W * dt)) in *. set (sn := sin (W * dt)) in *. clearbody cs sn.
  clearbody W c0 c1 c2 L dt.
  destruct iDim as [|[|]]; try lia;
    cbv [Rotate_Node GetCoord GetGridVel StoreDims imap Nat.ltb Nat.leb at_ nth compose
         Rotated Relative entry map seq];
    field_simplify_eq; try exact HL;
    replace (cs ^ 2) with (1 - sn * sn) by (rewrite <- Hsc; ring); ring.
Qed.

Lemma adjoint_step_turns_back_witness :
  let config := sample_config TIME_STEPPING false 1 in
  let direct := Rigid_Rotation sample_mesh2 config 0 3 in
  let back := Rigid_Rotation direct.1.1 (as_adjoint direct.1.2) 0 2 in
  exists p', node back.1.1 !! 0%nat = Some p' /\
             at_ (GetCoord p') 0 = 1 + (3 - 1) / (1 * 1).
Proof.
  apply (adjoint_step_turns_back sample_mesh2 (sample_config TIME_STEPPING false 1)
           0 3 2 0 0 sample_point2); try reflexivity; try lia; cbn; lra.
Defined.

Lemma at_StoreDims (nDim : nat) (f : nat -> R) (a : list R) (iDim : nat) :
  (iDim < nDim)%nat -> (iDim < length a)%nat -> at_ (StoreDims nDim f a) iDim = f iDim.
Proof.
  intros Hn Ha. unfold at_, StoreDims.
  destruct (lookup_lt_is_Some_2 a iDim Ha) as [x Hx].
  erewrite nth_lookup_Some; [|rewrite list_lookup_imap, Hx; reflexivity].
  cbn -[Nat.ltb]. destruct (Nat.ltb_spec iDim nDim); [reflexivity | lia].
Qed.

Lemma length_StoreDims (nDim : nat) (f : nat -> R) (a : list R) :
  length (StoreDims nDim f a) = length a.
Proof. unfold StoreDims. apply length_imap. Qed.

Lemma at_map_seq (f : nat -> R) (k : nat) : (k < 3)%nat -> at_ (map f (seq 0 3)) k = f k.
Proof. intros Hk. destruct k as [|[|[|]]]; try lia; reflexivity. Qed.

(** X22. In exact arithmetic, for a reference length and a reference
    angular velocity that are not zero, [Rigid_Plunging] moves the nodes,
    the motion origin of the zone and the moment origins of the monitored
    markers by the same displacement: the position of a node and of a
    moment origin relative to the motion origin is the same after the call
    as before. *)
Theorem plunging_carries_origins (geometry : CGeometry) (config : CConfig)
    (iZone iter i iDim jMarker : nat) (p : CPoint) (M : list R) :
  (GetnDim geometry <= 3)%nat -> (iDim < GetnDim geometry)%nat ->
  node geometry !! i = Some p -> length (GetCoord p) = GetnDim geometry ->
  (zone_of config iZone < length (Motion_Origin config))%nat ->
  RefOriginMoment config !! jMarker = Some M ->
  (jMarker < GetnMarker_Monitoring config)%nat ->
  let zone := zone_of config iZone in
  let after := Rigid_Plunging geometry config iZone iter in
  exists p', node after.1.1 !! i = Some p' /\
    at_ (GetCoord p') iDim - option_of (Motion_Origin after.1.2) zone iDim
    = at_ (GetCoord p) iDim - option_of (Motion_Origin config) zone iDim /\
    option_of (RefOriginMoment after.1.2) jMarker iDim
    - option_of (Motion_Origin after.1.2) zone iDim
    = at_ M iDim - option_of (Motion_Origin config) zone iDim.
Proof.
  intros Hdim Hi Hp Hlen Hz HM Hj zone after. subst after.
  unfold Rigid_Plunging. destruct (StepTimes config iter) as [time_old time_new].
  cbn [fst snd node with_Origins Motion_Origin RefOriginMoment].
  rewrite list_lookup_fmap, Hp. cbn [fmap option_fmap option_map].
  eexists; split; [reflexivity|].
  fold (zone_of config iZone). fold zone. fold zone in Hz.
  assert (Hi3 : (iDim < 3)%nat) by lia.
  unfold Plunge_Node. cbn [GetCoord].
  rewrite at_StoreDims by lia.
  unfold option_of.
  match goal with |- context [<[zone := ?o]> _] => set (origin := o) end.
  match goal with |- context [imap ?f _] => set (moved := f) end.
  rewrite (nth_lookup_Some (<[zone := origin]> (Motion_Origin config)) zone [] origin)
    by (apply list_lookup_insert_eq; exact Hz).
  rewrite (nth_lookup_Some (imap moved (RefOriginMoment config)) jMarker [] (moved jMarker M))
    by (rewrite list_lookup_imap, HM; reflexivity).
  subst origin moved. cbv beta.
  destruct (Nat.ltb_spec jMarker (GetnMarker_Monitoring config)); [|lia].
  rewrite !at_map_seq by exact Hi3. split; ring.
Qed.

Lemma plunging_carries_origins_witness :
  let config := sample_config TIME_STEPPING false 1 in
  let after := Rigid_Plunging sample_mesh3 config 0 2 in
  exists p', node after.1.1 !! 0%nat = Some p' /\
    at_ (GetCoord p') 1 - option_of (Motion_Origin after.1.2) 0 1 = 4 - 0 /\
    option_of (RefOriginMoment after.1.2) 0 1 - option_of (Motion_Origin after.1.2) 0 1
    = 0 - 0.
Proof.
  apply (plunging_carries_origins sample_mesh3 (sample_config TIME_STEPPING false 1)
           0 2 0 1 0 sample_point3 [0; 0; 0]); try reflexivity; cbn; lia.
Defined.

Lemma Plunge_Run_invariant (geometry : CGeometry) (config : CConfig) (iZone i iDim : nat)
    (p : CPoint) (n : nat) :
  GetAdjoint config = false ->
  is_time_spectral (GetUnsteady_Simulation config) = false ->
  (GetnDim geometry <= 3)%nat -> (iDim < GetnDim geometry)%nat ->
  node geometry !! i = Some p -> length (GetCoord p) = GetnDim geometry ->
  let Omega := option_of (Plunging_Omega config) iZone iDim / GetOmega_Ref config in
  let Ampl := option_of (Plunging_Ampl config) iZone iDim / GetLength_Ref config in
  let deltaT := GetDelta_UnstTimeND config in
  let run := Plunge_Run n geometry config iZone in
  GetnDim run.1 = GetnDim geometry /\ same_plunge config run.2 /\
  exists p', node run.1 !! i = Some p' /\ length (GetCoord p') = GetnDim geometry /\
    at_ (GetCoord p') iDim
    = match n with
      | O => at_ (GetCoord p) iDim
      | S m => at_ (GetCoord p) iDim - Ampl * sin (Omega * (to_double (Z.of_nat m) * deltaT))
      end.
Proof.
  intros Hadj Hts Hdim Hi Hp Hlen Omega Ampl deltaT.
  induction n as [|n IH]; cbv zeta.
  - cbn. repeat split; eauto.
  - cbv zeta in IH. cbn [Plunge_Run].
    destruct (Plunge_Run n geometry config iZone) as [g c]. cbn [fst snd] in IH.
    destruct IH as (Hg & (Hk & Ha & Hdt & HL & HO & HPO & HPA) & p' & Hp' & Hlen' & Hx).
    unfold Rigid_Plunging, StepTimes. rewrite Hk, Ha, Hdt, HL, HO, HPO, HPA, Hadj, Hts, Hg.
    cbn [fst snd node GetnDim].
    repeat split; try assumption.
    rewrite list_lookup_fmap, Hp'. cbn [fmap option_fmap option_map].
    eexists; split; [reflexivity|].
    unfold Plunge_Node. cbn [GetCoord]. rewrite length_StoreDims. split; [exact Hlen'|].
    rewrite at_StoreDims by lia. rewrite !at_map_seq by lia. rewrite Hx.
    fold Omega Ampl deltaT. unfold ZONE_0 in *.
    destruct n as [|m].
    + cbn [Nat.eqb]. unfold to_double. cbn [Z.of_nat].
      rewrite Rmult_0_l, Rmult_0_r, sin_0. ring.
    + cbn [Nat.eqb]. unfold to_double. rewrite (Nat2Z.inj_succ m), succ_IZR.
      replace ((IZR (Z.of_nat m) + 1 - 1) * deltaT) with (IZR (Z.of_nat m) * deltaT) by ring.
      ring.
Qed.

(** X23. In exact arithmetic, for a reference length and a reference
    angular velocity that are not zero: in a direct, time-accurate run the
    steps of [Rigid_Plunging] add up without drift, after the iterations
    [0], ..., [n] a node coordinate is its first value minus
    [Ampl/Lref * sin (Omega/Omega_Ref * n * deltaT)]. *)
Theorem plunging_steps_telescope (geometry : CGeometry) (config : CConfig)
    (iZone i iDim n : nat) (p : CPoint) :
  GetAdjoint config = false ->
  is_time_spectral (GetUnsteady_Simulation config) = false ->
  (GetnDim geometry <= 3)%nat -> (iDim < GetnDim geometry)%nat ->
  node geometry !! i = Some p -> length (GetCoord p) = GetnDim geometry ->
  let Omega := option_of (Plunging_Omega config) iZone iDim / GetOmega_Ref config in
  let Ampl := option_of (Plunging_Ampl config) iZone iDim / GetLength_Ref config in
  let time := to_double (Z.of_nat n) * GetDelta_UnstTimeND config in
  exists p', node (Plunge_Run (S n) geometry config iZone).1 !! i = Some p' /\
             at_ (GetCoord p') iDim = at_ (GetCoord p) iDim - Ampl * sin (Omega * time).
Proof.
  intros Hadj Hts Hdim Hi Hp Hlen Omega Ampl time.
  destruct (Plunge_Run_invariant geometry config iZone i iDim p (S n) Hadj Hts Hdim Hi Hp Hlen)
    as (_ & _ & p' & Hp' & _ & Hx).
  exists p'. split; [exact Hp' | exact Hx].
Qed.

Lemma plunging_steps_telescope_witness :
  exists p', node (Plunge_Run 3 sample_mesh3 (sample_config TIME_STEPPING false 1) 0).1
               !! 0%nat = Some p' /\
             at_ (GetCoord p') 1 = 4 - 3 / 1 * sin (1 / 1 * (to_double 2 * 1)).
Proof.
  apply (plunging_steps_telescope sample_mesh3 (sample_config TIME_STEPPING false 1)
           0 0 1 2 sample_point3); try reflexivity; cbn; lia.
Defined.

End RealProofs.

End RigidRotation.

(* ================================================================== *)
(** * [CSurfaceMovement]: the shape of the rotation and of the obstacle *)
(* ================================================================== *)

Module SurfaceShapes.

Import SurfaceMovement.

(** ** Notions used to state the properties *)

(** The point a vertex is moved to: its coordinates plus the stored
    delta, over three components. *)
Definition Moved (vtx : CVertex R) : list R :=
  map (fun k => (nth k (GetCoord vtx) 0 + nth k (GetVarCoord vtx) 0)%R) (seq 0 3).

(** The point of parameter [s] on the line through [P] with direction
    [U]. *)
Definition OnLine (P U : list R) (s : R) : list R :=
  map (fun k => (nth k P 0 + s * nth k U 0)%R) (seq 0 3).

(** The point [SetRotation] takes on the line of rotation of design
    variable [iDV], and the direction of the line (three dimensions). *)
Definition LinePoint (config : CConfig R) (iDV : nat) : list R :=
  [GetParamDV 0%R config iDV 0; GetParamDV 0%R config iDV 1; GetParamDV 0%R config 0 2].

Definition LineDirection (config : CConfig R) (iDV : nat) : list R :=
  [(GetParamDV 0 config iDV 3 - GetParamDV 0 config iDV 0)%R;
   (GetParamDV 0 config iDV 4 - GetParamDV 0 config iDV 1)%R;
   (GetParamDV 0 config iDV 5 - GetParamDV 0 config iDV 2)%R].

(** A quarter turn about the z axis through the origin. *)
Definition quarter_turn : CConfig R :=
  {| GetnMarker_All := 1; Marker_All_DV := [true]; GetnDV := 1;
     DV_Value := [90]%R;
     ParamDV := [[0; 0; 0; 0; 0; 1]]%R |}.

(** An obstacle of height 2 and length 3, and a boundary of one
    design-variable marker with one vertex at [x]. *)
Definition obstacle_2_3 : CConfig Q :=
  {| GetnMarker_All := 1; Marker_All_DV := [true]; GetnDV := 1;
     DV_Value := [1];
     ParamDV := [[2; 3]] |}.

Definition wall_vertex (x : Q) : CVertex Q :=
  {| GetNode := 0; GetCoord := [x; 0]; GetNormal := [0; 1]; GetVarCoord := [5; 5] |}.

Definition wall (x : Q) : CGeometry Q :=
  {| GetnDim := 2; vertex := [[wall_vertex x]] |}.

(** ** Properties *)

Lemma axis_rotation_identity (a b c u v w x y z cosT sinT l s : R) :
  (cosT * cosT + sinT * sinT = 1 -> l * l = u * u + v * v + w * w ->
   let u2 := u * u in let v2 := v * v in let w2 := w * w in let l2 := u2 + v2 + w2 in
   let M0 := a*(v2 + w2) + u*(-b*v - c*w + u*x + v*y + w*z)
             + (-a*(v2 + w2) + u*(b*v + c*w - v*y - w*z) + (v2 + w2)*x)*cosT
             + l*(-c*v + b*w - w*y + v*z)*sinT in
   let M1 := b*(u2 + w2) + v*(-a*u - c*w + u*x + v*y + w*z)
             + (-b*(u2 + w2) + v*(a*u + c*w - u*x - w*z) + (u2 + w2)*y)*cosT
             + l*(c*u - a*w + w*x - u*z)*sinT in
   let M2 := c*(u2 + v2) + w*(-a*u - b*v + u*x + v*y + w*z)
             + (-c*(u2 + v2) + w*(a*u + b*v - u*x - v*y) + (u2 + v2)*z)*cosT
             + l*(-b*u + a*v - v*x + u*y)*sinT in
   (M0 - l2*(a + s*u))*(M0 - l2*(a + s*u)) + (M1 - l2*(b + s*v))*(M1 - l2*(b + s*v))
   + (M2 - l2*(c + s*w))*(M2 - l2*(c + s*w))
   = l2*l2*((x - (a + s*u))*(x - (a + s*u)) + (y - (b + s*v))*(y - (b + s*v))
            + (z - (c + s*w))*(z - (c + s*w))))%R.
Proof. intros HT Hl. cbv zeta. nsatz. Qed.

(** X24. In three dimensions, on a vertex of a design-variable marker whose
    delta starts from zero, [SetRotation] stores a rigid rotation about its
    line: the moved vertex is as far as the vertex from every point of the
    line through [LinePoint] with direction [LineDirection]. *)
Theorem rotation_keeps_distance_to_its_line (boundary : CGeometry R) (config : CConfig R)
    (iDV iMarker iVertex : nat) (ResetDef : bool) (vtx : CVertex R) (s : R) :
  GetnDim boundary = 3%nat ->
  (iMarker < GetnMarker_All config)%nat -> GetMarker_All_DV config iMarker = true ->
  VertexAt boundary iMarker iVertex = Some vtx ->
  length (GetCoord vtx) = 3%nat -> length (GetVarCoord vtx) = 3%nat ->
  (iDV =? 0)%nat || ResetDef = true ->
  let P := LinePoint config iDV in
  let U := LineDirection config iDV in
  (nth 0 U 0 * nth 0 U 0 + nth 1 U 0 * nth 1 U 0 + nth 2 U 0 * nth 2 U 0 <> 0)%R ->
  exists vtx',
    VertexAt (SetRotation boundary config iDV ResetDef) iMarker iVertex = Some vtx' /\
    GetCoord vtx' = GetCoord vtx /\
    RigidRotation.dist2 (Moved vtx') (OnLine P U s)
    = RigidRotation.dist2 (GetCoord vtx) (OnLine P U s).
Proof.
  intros HD Hm HDV Hv HlenC HlenV Hreset P U Hl2.
  unfold SetRotation. rewrite Hreset. unfold ResetVarCoord.
  rewrite !VertexAt_ForEachVertex by exact Hm. rewrite Hv.
  cbn [fmap option_fmap option_map]. eexists; split; [reflexivity|].
  split; [reflexivity|].
  rewrite HDV. cbn [ForEachVertex GetnDim]. rewrite HD. cbn [Nat.eqb].
  destruct vtx as [nd [|x [|y [|z [|]]]] Nrm [|d0 [|d1 [|d2 [|]]]]]; try discriminate.
  subst P U. unfold LinePoint, LineDirection in *. cbn [nth] in Hl2.
  set (a := GetParamDV 0%R config iDV 0) in *.
  set (b := GetParamDV 0%R config iDV 1) in *.
  set (c := GetParamDV 0%R config 0 2) in *.
  set (u := (GetParamDV 0 config iDV 3 - a)%R) in *.
  set (v := (GetParamDV 0 config iDV 4 - b)%R) in *.
  set (w := (GetParamDV 0 config iDV 5 - GetParamDV 0 config iDV 2)%R) in *.
  set (theta := (GetDV_Value 0 config iDV * PI / 180)%R).
  pose proof (sin2_cos2 theta) as HT. unfold Rsqr in HT.
  assert (Hl : (sqrt (u * u + v * v + w * w) * sqrt (u * u + v * v + w * w)
                = u * u + v * v + w * w)%R) by (apply sqrt_sqrt; nra).
  pose proof (axis_rotation_identity a b c u v w x y z (cos theta) (sin theta)
                (sqrt (u * u + v * v + w * w)) s) as H.
  cbv zeta in H. specialize (H ltac:(lra) Hl).
  set (cosT := cos theta) in *. set (sinT := sin theta) in *.
  set (l := sqrt (u * u + v * v + w * w)) in *.
  clearbody a b c u v w cosT sinT l.
  cbv [RigidRotation.dist2 RigidRotation.at_ Moved OnLine AddVarCoord SetVarCoord GetCoord
       GetVarCoord imap nth map seq Nat.ltb Nat.leb compose].
  apply (Rmult_eq_reg_l ((u * u + v * v + w * w) * (u * u + v * v + w * w))%R);
    [| nra].
  etransitivity; [| etransitivity; [exact H|]]; [field; exact Hl2 | ring].
Qed.

Lemma rotation_keeps_distance_to_its_line_witness :
  exists vtx',
    VertexAt (SetRotation (rot_boundary 1 0 0) quarter_turn 0 false) 0 0 = Some vtx' /\
    GetCoord vtx' = [1; 0; 0]%R /\
    RigidRotation.dist2 (Moved vtx') (OnLine [0; 0; 0]%R [0 - 0; 0 - 0; 1 - 0]%R 2)
    = RigidRotation.dist2 [1; 0; 0]%R (OnLine [0; 0; 0]%R [0 - 0; 0 - 0; 1 - 0]%R 2).
Proof.
  apply (rotation_keeps_distance_to_its_line (rot_boundary 1 0 0) quarter_turn 0 0 0 false
           {| GetNode := 0; GetCoord := [1; 0; 0]%R; GetNormal := [0; 0; 1]%R;
              GetVarCoord := [0; 0; 0]%R |} 2%R); try reflexivity.
  - cbn. lia.
  - cbn. lra.
Defined.

Lemma Qlt_bool_spec (x y : Q) : reflect (x < y) (Qlt_bool x y).
Proof.
  unfold Qlt_bool. destruct (Qle_bool y x) eqn:E; cbn; constructor.
  - intros Hxy. apply Qle_bool_iff in E. lra.
  - apply Qnot_le_lt. intros Hle. apply Qle_bool_iff in Hle. congruence.
Qed.

Lemma bump_bounds (H L x : Q) :
  0 <= H -> 0 < L -> 0 < x -> x < L ->
  0 <= (27/4) * (H / (L*L*L)) * x * (x - L) * (x - L) <= H.
Proof.
  intros HH HL Hx HxL.
  assert (HL3 : 0 < L * L * L) by (repeat apply Qmult_lt_0_compat; exact HL).
  set (k := H / (L * L * L)).
  assert (Hk : k * (L * L * L) == H) by (unfold k; field; lra).
  assert (Hk0 : 0 <= k).
  { unfold k, Qdiv. apply Qmult_le_0_compat; [exact HH|].
    apply Qlt_le_weak, Qinv_lt_0_compat, HL3. }
  clearbody k.
  assert (Hsqr : forall a : Q, 0 <= a * a) by (clear; intros a; nra).
  pose proof (Hsqr (x - L)) as Hsq.
  pose proof (Hsqr (L - 3 * x)) as Hsq3.
  assert (H4 : 0 <= 4 * L - 3 * x) by lra.
  assert (Ha : 0 <= k * (x * ((x - L) * (x - L)))).
  { apply Qmult_le_0_compat; [exact Hk0|]. apply Qmult_le_0_compat; [lra | exact Hsq]. }
  assert (Hb : 0 <= k * (((L - 3 * x) * (L - 3 * x)) * (4 * L - 3 * x))).
  { apply Qmult_le_0_compat; [exact Hk0|]. apply Qmult_le_0_compat; assumption. }
  change (27 / 4) with (27 # 4).
  split.
  - setoid_replace ((27 # 4) * k * x * (x - L) * (x - L))
      with ((27 # 4) * (k * (x * ((x - L) * (x - L))))) using relation Qeq by ring.
    lra.
  - rewrite <- Hk.
    setoid_replace (k * (L * L * L))
      with ((27 # 4) * k * x * (x - L) * (x - L)
            + (1 # 4) * (k * (((L - 3 * x) * (L - 3 * x)) * (4 * L - 3 * x))))
      using relation Qeq by ring.
    lra.
Qed.

Lemma bump_peak (H L x : Q) :
  0 < L -> x == L / 3 -> (27/4) * (H / (L*L*L)) * x * (x - L) * (x - L) == H.
Proof. intros HL E. rewrite E. field. lra. Qed.

(** X25. In exact arithmetic, for a height [H >= 0] and a length [L > 0]
    the bump that [SetObstacle] stores on a vertex of a design-variable
    marker moves it in y only, by an amount between 0 and [H]: exactly [H]
    at [x = L/3], and 0 when [x] is outside the open interval from 0 to
    [L]. *)
Theorem obstacle_bump_is_bounded (boundary : CGeometry Q) (config : CConfig Q) (io : Process)
    (iMarker iVertex : nat) (vtx : CVertex Q) :
  (iMarker < GetnMarker_All config)%nat -> GetMarker_All_DV config iMarker = true ->
  VertexAt boundary iMarker iVertex = Some vtx ->
  (2 <= GetnDim boundary)%nat -> (2 <= length (GetVarCoord vtx))%nat ->
  let H := GetParamDV 0 config 0 0 in
  let L := GetParamDV 0 config 0 1 in
  let x := coord (GetCoord vtx) 0 in
  0 <= H -> 0 < L ->
  exists b io' vtx',
    SetObstacle boundary config io = Returned b io' /\
    VertexAt b iMarker iVertex = Some vtx' /\
    coord (GetVarCoord vtx') 0 == 0 /\
    0 <= coord (GetVarCoord vtx') 1 <= H /\
    (x == L / 3 -> coord (GetVarCoord vtx') 1 == H) /\
    (x <= 0 \/ L <= x -> coord (GetVarCoord vtx') 1 == 0).
Proof.
  intros Hm HDV Hv Hdim Hlen H L x HH HL.
  unfold SetObstacle. eexists; eexists; eexists. split; [reflexivity|].
  rewrite VertexAt_ForEachVertex by exact Hm. rewrite Hv.
  cbn [fmap option_fmap option_map]. split; [reflexivity|].
  rewrite HDV. fold H L.
  destruct vtx as [nd X Nrm [|d0 [|d1 V]]]; cbn [length GetVarCoord] in Hlen; try lia.
  destruct (GetnDim boundary) as [|[|n]]; try lia.
  cbn [SetVarCoord GetVarCoord GetCoord] in *. fold x.
  assert (Ex : x - 0 == x) by ring.
  destruct (Qlt_bool_spec 0 (x - 0)) as [Hx|Hx];
    destruct (Qlt_bool_spec (x - 0) L) as [HxL|HxL];
    cbn [andb list_insert insert imap coord nth Nat.ltb Nat.leb].
  1: { pose proof (bump_bounds H L (x - 0) HH HL Hx HxL) as Hb.
       split; [reflexivity|]. split; [exact Hb|]. split.
       - intros E. assert (E' : x - 0 == L / 3) by (rewrite Ex; exact E).
         apply bump_peak; [exact HL | exact E'].
       - intros [Hc | Hc]; lra. }
  all: split; [reflexivity|]; split; [split; [apply Qle_refl | exact HH]|]; split;
    [| intros _; reflexivity].
  all: intros E; assert (E' : x - 0 == L / 3) by (rewrite Ex; exact E);
    assert (E3 : 3 * (x - 0) == L) by (rewrite E'; field); lra.
Qed.

Lemma obstacle_bump_is_bounded_witness :
  exists b io' vtx',
    SetObstacle (wall 1) obstacle_2_3 fresh_process = Returned b io' /\
    VertexAt b 0 0 = Some vtx' /\
    coord (GetVarCoord vtx') 0 == 0 /\
    0 <= coord (GetVarCoord vtx') 1 <= 2 /\
    (1 == 3 / 3 -> coord (GetVarCoord vtx') 1 == 2) /\
    (1 <= 0 \/ 3 <= 1 -> coord (GetVarCoord vtx') 1 == 0).
Proof.
  apply (obstacle_bump_is_bounded (wall 1) obstacle_2_3 fresh_process 0 0 (wall_vertex 1));
    try reflexivity; cbn; try lia; try lra.
Defined.

End SurfaceShapes.
